(** * loteria-parser: a shallow embedding of the parsing pipeline

    The development follows the TypeScript sources module by module:
    JavaScript strings and regular expressions, the pattern catalogue
    ([PATTERNS], [APUESTA_PATTERNS]), the [Preprocessor], the [Validator],
    the [CacheManager], the plugin base class with the parle and candado
    plugins, and the [Parser] itself.

    Modelling conventions.
    - A JavaScript string is the list of its UTF-16 code units ([N]).
    - A JavaScript number is an exact rational or [NaN]; binary rounding,
      infinities and the exponent syntax of [parseFloat] are not modelled.
    - A regular expression literal is transcribed into the [regex] syntax
      tree and run by a backtracking matcher that follows the ECMAScript
      matching rules (greedy and lazy quantifiers, captures, [\b], [^], [$]).
    - [Date.now()] is an explicit argument; timing fields, the confidence
      score and the [stats] block of a [ParseResult] are left out.
    - A message built by a template literal keeps its numeric holes as
      numbers (see [frag]). *)

From Stdlib Require Import List NArith ZArith QArith Qabs String Ascii Bool Lia Arith.
From Stdlib Require Qcanon.
Import ListNotations.

Set Implicit Arguments.
Open Scope nat_scope.

Abbreviation length := List.length (only parsing).

(* ================================================================= *)
(** ** JavaScript strings *)

Module JS.

Definition char := N.
Definition jsstring := list char.

(** Decoder for the UTF-8 bytes of a literal, up to three-byte sequences. *)
Fixpoint utf8 (bs : list N) : jsstring :=
  match bs with
  | [] => []
  | b :: r =>
      if (b <? 128)%N then b :: utf8 r
      else match r with
           | [] => []
           | b2 :: r2 =>
               if (b <? 224)%N then ((b mod 32) * 64 + b2 mod 64)%N :: utf8 r2
               else match r2 with
                    | [] => []
                    | b3 :: r3 =>
                        ((b mod 16) * 4096 + (b2 mod 64) * 64 + b3 mod 64)%N
                          :: utf8 r3
                    end
           end
  end.

Definition js (s : string) : jsstring :=
  utf8 (map N_of_ascii (list_ascii_of_string s)).

Definition code (a : ascii) : char := N_of_ascii a.

Definition LF : char := 10%N.
Definition CR : char := 13%N.
Definition TAB : char := 9%N.
Definition SP : char := 32%N.

Definition between (lo hi c : N) : bool := ((lo <=? c) && (c <=? hi))%N.

Definition is_digit (c : char) : bool := between 48 57 c.

Definition is_upper_ascii (c : char) : bool := between 65 90 c.
Definition is_lower_ascii (c : char) : bool := between 97 122 c.

(** [\w] *)
Definition is_word (c : char) : bool :=
  is_digit c || is_upper_ascii c || is_lower_ascii c || (c =? 95)%N.

(** [\s], which is also the set removed by [String.prototype.trim]:
    WhiteSpace and LineTerminator code units. *)
Definition is_space (c : char) : bool :=
  between 9 13 c || (c =? 32)%N || (c =? 160)%N || (c =? 5760)%N
  || between 8192 8202 c || (c =? 8232)%N || (c =? 8233)%N
  || (c =? 8239)%N || (c =? 8287)%N || (c =? 12288)%N || (c =? 65279)%N.

(** Line terminators, excluded by [.] *)
Definition is_line_terminator (c : char) : bool :=
  (c =? 10)%N || (c =? 13)%N || (c =? 8232)%N || (c =? 8233)%N.

(** Canonicalisation used by the [i] flag on ASCII pattern characters: a code
    unit outside ASCII never canonicalises to an ASCII one. *)
Definition upper_ascii (c : char) : char :=
  if is_lower_ascii c then (c - 32)%N else c.

(** [String.prototype.toLowerCase], code unit by code unit: the ASCII and
    Latin-1 capitals, and the capitals above U+00FF whose lower-case form
    lies below it (the Kelvin and Angstrom signs, the capital sharp s, and
    the dotted capital I, which becomes two code units). The other code
    units above U+00FF are left unchanged: the Unicode case tables are not
    modelled. *)
Definition lower_char (c : char) : char :=
  if is_upper_ascii c then (c + 32)%N
  else if between 192 222 c && negb (c =? 215)%N then (c + 32)%N
  else if (c =? 8490)%N then 107%N
  else if (c =? 8491)%N then 229%N
  else if (c =? 7838)%N then 223%N
  else c.

Definition lower_units (c : char) : jsstring :=
  if (c =? 304)%N then [105; 775]%N else [lower_char c].

Definition toLowerCase (s : jsstring) : jsstring := flat_map lower_units s.

Fixpoint eqb (a b : jsstring) : bool :=
  match a, b with
  | [], [] => true
  | x :: a', y :: b' => (x =? y)%N && eqb a' b'
  | _, _ => false
  end.

Fixpoint dropWhile (p : char -> bool) (s : jsstring) : jsstring :=
  match s with
  | [] => []
  | c :: t => if p c then dropWhile p t else s
  end.

Definition trimStart (s : jsstring) : jsstring := dropWhile is_space s.
Definition trimEnd (s : jsstring) : jsstring := rev (dropWhile is_space (rev s)).
Definition trim (s : jsstring) : jsstring := trimEnd (trimStart s).

(** [s.split(sep)] for a one-character separator; the empty string splits
    into one empty piece. *)
Fixpoint split (sep : char) (s : jsstring) : list jsstring :=
  match s with
  | [] => [[]]
  | c :: t =>
      if (c =? sep)%N then [] :: split sep t
      else match split sep t with
           | [] => [[c]]
           | l :: ls => (c :: l) :: ls
           end
  end.

Fixpoint join (sep : jsstring) (l : list jsstring) : jsstring :=
  match l with
  | [] => []
  | [x] => x
  | x :: r => x ++ sep ++ join sep r
  end.

(** [s.padStart(n, '0')] *)
Definition padStart0 (n : nat) (s : jsstring) : jsstring :=
  repeat 48%N (n - length s) ++ s.

(** [s.substring(a, b)] for [a <= b] *)
Definition substring (a b : nat) (s : jsstring) : jsstring :=
  firstn (b - a) (skipn a s).

(** [s.slice(-n)] *)
Definition sliceLast (n : nat) (s : jsstring) : jsstring :=
  skipn (length s - n) s.

(** [s.replace(c, d)] with a one-character string pattern: first occurrence only. *)
Fixpoint replaceFirstChar (c d : char) (s : jsstring) : jsstring :=
  match s with
  | [] => []
  | x :: t => if (x =? c)%N then d :: t else x :: replaceFirstChar c d t
  end.

(** Decimal rendering of a natural number (array lengths, line numbers). *)
Fixpoint digits_fuel (fuel n : nat) (acc : jsstring) : jsstring :=
  match fuel with
  | O => acc
  | S f =>
      let acc' := (48 + N.of_nat (n mod 10))%N :: acc in
      if n <? 10 then acc' else digits_fuel f (n / 10) acc'
  end.

Definition nat_to_string (n : nat) : jsstring := digits_fuel (S n) n [].

End JS.

Export JS.

(* ================================================================= *)
(** ** Regular expressions *)

Module Regex.

(** The fragment of ECMAScript pattern syntax used by the sources.
    [Quant greedy lo hi r] is [r{lo,hi}] ([hi = None] for no upper bound),
    followed by [?] when [greedy] is false. [Group i r] is the [i]-th
    capturing group; a non-capturing group is its body. *)
Inductive regex : Type :=
| Empty
| Char (p : char -> bool)
| Seq (r1 r2 : regex)
| Alt (r1 r2 : regex)
| Quant (greedy : bool) (lo : nat) (hi : option nat) (r : regex)
| Group (i : nat) (r : regex)
| WordBoundary
| InputStart
| InputEnd.

(** Matcher state: the code unit before the current position, the remaining
    input, the number of code units consumed since the match started, and
    the captures. *)
Record mstate : Type := MState {
  prev : option char;
  rest : jsstring;
  idx : nat;
  caps : list (nat * jsstring)
}.

(** The code unit before the position reached after [s], when [p] is the
    one before [s]. *)
Fixpoint last_of (p : option char) (s : jsstring) : option char :=
  match s with
  | [] => p
  | c :: t => last_of (Some c) t
  end.

Fixpoint groups_of (r : regex) : list nat :=
  match r with
  | Seq a b | Alt a b => groups_of a ++ groups_of b
  | Quant _ _ _ a => groups_of a
  | Group i a => i :: groups_of a
  | _ => []
  end.

Definition clear_caps (gs : list nat) (cs : list (nat * jsstring)) :=
  filter (fun p => negb (existsb (Nat.eqb (fst p)) gs)) cs.

Definition set_cap (i : nat) (v : jsstring) (cs : list (nat * jsstring)) :=
  (i, v) :: filter (fun p => negb (Nat.eqb (fst p) i)) cs.

Fixpoint get_cap (cs : list (nat * jsstring)) (i : nat) : option jsstring :=
  match cs with
  | [] => None
  | (j, v) :: t => if Nat.eqb i j then Some v else get_cap t i
  end.

Definition is_word_opt (c : option char) : bool :=
  match c with Some x => is_word x | None => false end.

Definition pred_opt (hi : option nat) : option nat :=
  match hi with Some h => Some (pred h) | None => None end.

(** Number of nested iterations a quantifier can need: its upper bound when
    it has one, otherwise its lower bound plus one iteration per remaining
    code unit (an iteration past the lower bound must consume input). *)
Definition quant_fuel (lo : nat) (hi : option nat) (x : mstate) : nat :=
  match hi with
  | Some h => S h
  | None => S (S (lo + length (rest x)))
  end.

(** Continuation-passing backtracking matcher (ECMAScript RepeatMatcher
    for quantifiers: captures of the atom are reset at each iteration, and
    an empty iteration is rejected once the lower bound is reached). *)
Fixpoint rmatch (r : regex) (x : mstate) (k : mstate -> option mstate)
  {struct r} : option mstate :=
  match r with
  | Empty => k x
  | Char p =>
      match rest x with
      | c :: t =>
          if p c then k (MState (Some c) t (S (idx x)) (caps x)) else None
      | [] => None
      end
  | Seq a b => rmatch a x (fun y => rmatch b y k)
  | Alt a b =>
      match rmatch a x k with
      | Some z => Some z
      | None => rmatch b x k
      end
  | Quant g lo hi a =>
      (fix rep (fuel lo : nat) (hi : option nat) (x : mstate)
           (k : mstate -> option mstate) {struct fuel} : option mstate :=
         match fuel with
         | O => None
         | S fuel' =>
             match hi with
             | Some O => k x
             | _ =>
                 let d := fun y =>
                   if Nat.eqb lo 0 && Nat.eqb (idx y) (idx x) then None
                   else rep fuel' (pred lo) (pred_opt hi) y k in
                 let xr := MState (prev x) (rest x) (idx x)
                                  (clear_caps (groups_of a) (caps x)) in
                 if negb (Nat.eqb lo 0) then rmatch a xr d
                 else if g then
                   match rmatch a xr d with
                   | Some z => Some z
                   | None => k x
                   end
                 else
                   match k x with
                   | Some z => Some z
                   | None => rmatch a xr d
                   end
             end
         end) (quant_fuel lo hi x) lo hi x k
  | Group i a =>
      rmatch a x (fun y =>
        k (MState (prev y) (rest y) (idx y)
                  (set_cap i (firstn (idx y - idx x) (rest x)) (caps y))))
  | WordBoundary =>
      if xorb (is_word_opt (prev x)) (is_word_opt (hd_error (rest x)))
      then k x else None
  | InputStart => match prev x with None => k x | Some _ => None end
  | InputEnd => match rest x with [] => k x | _ :: _ => None end
  end.

(** One attempt at the current position: length of the match and captures. *)
Definition match_here (r : regex) (p : option char) (s : jsstring)
  : option (nat * list (nat * jsstring)) :=
  match rmatch r (MState p s 0 []) (fun y => Some y) with
  | Some y => Some (idx y, caps y)
  | None => None
  end.

(** A match as [RegExp.prototype.exec] reports it: [m_index] is the offset
    from the code unit where the search started. *)
Record rmatch_result : Type := MatchResult {
  m_index : nat;
  m_text : jsstring;
  m_caps : list (nat * jsstring)
}.

Definition group (m : rmatch_result) (i : nat) : option jsstring :=
  get_cap (m_caps m) i.

(** Group [i] when the source uses it as a string without a guard. *)
Definition group_str (m : rmatch_result) (i : nat) : jsstring :=
  match group m i with Some v => v | None => [] end.

(** Leftmost match at or after the current position. *)
Fixpoint search_from (r : regex) (p : option char) (s : jsstring) (i : nat)
  : option rmatch_result :=
  match match_here r p s with
  | Some (len, cs) => Some (MatchResult i (firstn len s) cs)
  | None =>
      match s with
      | [] => None
      | c :: t => search_from r (Some c) t (S i)
      end
  end.

(** [regex.exec(s)] / [s.match(regex)] for a regex without the [g] flag. *)
Definition exec (r : regex) (s : jsstring) : option rmatch_result :=
  search_from r None s 0.

(** [regex.test(s)] for a regex without the [g] flag. *)
Definition test (r : regex) (s : jsstring) : bool :=
  match exec r s with Some _ => true | None => false end.

(** Scan of a global regex over the whole input, shared by [replace],
    [match] and [matchAll]: [skip] counts the code units of the current
    match still to be passed over; after an empty match the scan advances
    by one code unit, which is copied. *)
Fixpoint scan (A : Type) (r : regex) (on_match : rmatch_result -> list A)
  (on_char : char -> list A) (skip i : nat) (p : option char) (s : jsstring)
  {struct s} : list A :=
  match skip with
  | S n =>
      match s with
      | [] => []
      | c :: t => scan r on_match on_char n (S i) (Some c) t
      end
  | O =>
      match match_here r p s with
      | Some (len, cs) =>
          on_match (MatchResult i (firstn len s) cs) ++
          match s with
          | [] => []
          | c :: t =>
              if Nat.eqb len 0
              then on_char c ++ scan r on_match on_char 0 (S i) (Some c) t
              else scan r on_match on_char (len - 1) (S i) (Some c) t
          end
      | None =>
          match s with
          | [] => []
          | c :: t => on_char c ++ scan r on_match on_char 0 (S i) (Some c) t
          end
      end
  end.

(** [s.replace(regex, f)] for a regex with the [g] flag. *)
Definition replace (r : regex) (f : rmatch_result -> jsstring) (s : jsstring)
  : jsstring :=
  scan r f (fun c => [c]) 0 0 None s.

(** [s.match(regex) || []] for a regex with the [g] flag, and the matches
    of [s.matchAll(regex)] when [lastIndex] is 0. *)
Definition match_all (r : regex) (s : jsstring) : list rmatch_result :=
  scan r (fun m => [m]) (fun _ => []) 0 0 None s.

(** The matches of [s.matchAll(regex)] for a regex object whose [lastIndex]
    is [li]: the scan starts there. *)
Definition match_all_from (r : regex) (li : nat) (s : jsstring)
  : list rmatch_result :=
  if length s <? li then []
  else scan r (fun m => [m]) (fun _ => []) 0 li (last_of None (firstn li s))
            (skipn li s).

(** [regex.test(s)] for a regex object with the [g] flag and
    [lastIndex = li]: the result and the new [lastIndex]. *)
Definition test_global (r : regex) (li : nat) (s : jsstring) : bool * nat :=
  if length s <? li then (false, 0)
  else match search_from r (last_of None (firstn li s)) (skipn li s) li with
       | Some m => (true, m_index m + length (m_text m))
       | None => (false, 0)
       end.

(** *** Pattern combinators *)

Definition ch (a : ascii) : regex := Char (N.eqb (code a)).
Definition chn (c : char) : regex := Char (N.eqb c).
(** A literal character under the [i] flag. *)
Definition chi (a : ascii) : regex :=
  Char (fun x => N.eqb (upper_ascii x) (upper_ascii (code a))).
Definition cat (l : list regex) : regex := fold_right Seq Empty l.
Definition alts (l : list regex) : regex :=
  match l with
  | [] => Empty
  | a :: t => fold_left Alt t a
  end.
Definition lit (s : string) : regex := cat (map ch (list_ascii_of_string s)).
Definition liti (s : string) : regex := cat (map chi (list_ascii_of_string s)).
Definition digit : regex := Char is_digit.
Definition space : regex := Char is_space.
Definition nonspace : regex := Char (fun c => negb (is_space c)).
Definition dot : regex := Char (fun c => negb (is_line_terminator c)).
Definition star (r : regex) : regex := Quant true 0 None r.
Definition plus (r : regex) : regex := Quant true 1 None r.
Definition opt (r : regex) : regex := Quant true 0 (Some 1) r.
Definition lazy_plus (r : regex) : regex := Quant false 1 None r.
Definition rep (lo hi : nat) (r : regex) : regex := Quant true lo (Some hi) r.
Definition at_least (lo : nat) (r : regex) : regex := Quant true lo None r.
(** [[...]] from a list of characters *)
Definition one_of (s : string) : regex :=
  Char (fun c => existsb (fun a => N.eqb c (code a)) (list_ascii_of_string s)).
Definition one_ofi (s : string) : regex :=
  Char (fun c => existsb (fun a => N.eqb (upper_ascii c) (upper_ascii (code a)))
                         (list_ascii_of_string s)).

End Regex.

Export Regex.

(* ================================================================= *)
(** ** JavaScript numbers *)

Module Number.

(** A finite number is an exact rational kept in lowest terms. *)
Inductive number : Type :=
| NaN
| Num (q : Q).

Definition of_Z (z : Z) : number := Num (inject_Z z).
Definition of_nat (n : nat) : number := of_Z (Z.of_nat n).

Definition lift2 (f : Q -> Q -> Q) (a b : number) : number :=
  match a, b with
  | Num x, Num y => Num (Qred (f x y))
  | _, _ => NaN
  end.

Definition add : number -> number -> number := lift2 Qplus.
Definition sub : number -> number -> number := lift2 Qminus.
Definition mul : number -> number -> number := lift2 Qmult.

(** [a / b]; the sources only divide behind a guard on the divisor, and a
    zero divisor (an infinity or [NaN] in JavaScript) is reported as [NaN]. *)
Definition div (a b : number) : number :=
  match a, b with
  | Num x, Num y => if Qeq_bool y 0 then NaN else Num (Qred (x / y))
  | _, _ => NaN
  end.

(** [Math.abs] *)
Definition abs (a : number) : number :=
  match a with
  | Num x => Num (Qred (Qabs x))
  | NaN => NaN
  end.

Definition Qltb (x y : Q) : bool := (Qnum x * QDen y <? Qnum y * QDen x)%Z.

(** [a < b], false when an operand is [NaN] *)
Definition lt (a b : number) : bool :=
  match a, b with
  | Num x, Num y => Qltb x y
  | _, _ => false
  end.

Definition gt (a b : number) : bool := lt b a.

(** [a === b] *)
Definition eq (a b : number) : bool :=
  match a, b with
  | Num x, Num y => Qeq_bool x y
  | _, _ => false
  end.

Definition isNaN (a : number) : bool :=
  match a with NaN => true | Num _ => false end.

Fixpoint span_digits (s : jsstring) : jsstring * jsstring :=
  match s with
  | c :: t =>
      if is_digit c then let '(d, r) := span_digits t in (c :: d, r)
      else ([], s)
  | [] => ([], [])
  end.

Definition digits_value (d : jsstring) : Z :=
  fold_left (fun acc c => (acc * 10 + Z.of_N (c - 48))%Z) d 0%Z.

(** [parseFloat]: leading white space, an optional sign, digits, an optional
    fraction; the longest such prefix is read and the rest ignored. At least
    one digit is required. *)
Definition parseFloat (s : jsstring) : number :=
  let s0 := trimStart s in
  let '(neg, s1) :=
    match s0 with
    | c :: t => if (c =? 45)%N then (true, t)
                else if (c =? 43)%N then (false, t) else (false, s0)
    | [] => (false, s0)
    end in
  let '(ip, s2) := span_digits s1 in
  let fp :=
    match s2 with
    | c :: t => if (c =? 46)%N then fst (span_digits t) else []
    | [] => []
    end in
  match ip ++ fp with
  | [] => NaN
  | ds =>
      let v := (inject_Z (digits_value ds) / inject_Z (10 ^ Z.of_nat (length fp)))%Q in
      Num (Qred (if neg then Qopp v else v))
  end.

(** A piece of a message built by a template literal: literal text, a number
    substituted by [${n}], or a number substituted by [${n.toFixed(2)}]. *)
Inductive frag : Type :=
| Txt (s : jsstring)
| Val (n : number)
| Fixed2 (n : number).

Definition message := list frag.

Definition txt (s : string) : frag := Txt (js s).

End Number.

Export Number.

(* ================================================================= *)
(** ** The pattern catalogue (constants/patterns) *)

Module PATTERNS.

(** [\d+(?:[.,]\d+)?] *)
Definition amount : regex :=
  cat [plus digit; opt (cat [one_of ".,"; plus digit])].

(** [/(\d{2,4})\s*v\b/gi] *)
Definition VOLTEO : regex :=
  cat [Group 1 (rep 2 4 digit); star space; chi "v"; WordBoundary].

(** [/(\d{1,2})\s*al\s*(\d{1,2})/gi] *)
Definition RANGO : regex :=
  cat [Group 1 (rep 1 2 digit); star space; liti "al"; star space;
       Group 2 (rep 1 2 digit)].

(** [/\bd\s*(\d{1,2})\b/gi] *)
Definition DECENA : regex :=
  cat [WordBoundary; chi "d"; star space; Group 1 (rep 1 2 digit); WordBoundary].

(** [/\bt\s*(\d{1,2})\b/gi] *)
Definition TERMINAL : regex :=
  cat [WordBoundary; chi "t"; star space; Group 1 (rep 1 2 digit); WordBoundary].

(** [/(\d{2,4})\s*pr\s*(\d{1,3})/gi] *)
Definition PARES_RELATIVOS : regex :=
  cat [Group 1 (rep 2 4 digit); star space; liti "pr"; star space;
       Group 2 (rep 1 3 digit)].

(** [/(.+?)\s*por\s*todas?\s*(?:las?\s* )?centenas?(?:\s+con\s+(\d+(?:[.,]\d+)?))?/gi]
    (in these comments a blank separates a star from a closing parenthesis) *)
Definition CENTENAS_TODAS : regex :=
  cat [Group 1 (lazy_plus dot); star space; liti "por"; star space;
       liti "toda"; opt (chi "s"); star space;
       opt (cat [liti "la"; opt (chi "s"); star space]);
       liti "centena"; opt (chi "s");
       opt (cat [plus space; liti "con"; plus space; Group 2 amount])].

(** [/(\d{2,4})\s*[*x]\s*(\d{2,4})/gi] *)
Definition PARLE_EXPLICITO : regex :=
  cat [Group 1 (rep 2 4 digit); star space; one_ofi "*x"; star space;
       Group 2 (rep 2 4 digit)].

(** [/\bcandado\s*(?:con\s* )?(\d+(?:[.,]\d+)?)/i] *)
Definition CANDADO : regex :=
  cat [WordBoundary; liti "candado"; star space;
       opt (cat [liti "con"; star space]); Group 1 amount].

(** [\d{2}(?:\s+\d{2})*], the number list of the bet patterns *)
Definition numeros2 : regex :=
  cat [rep 2 2 digit; star (cat [plus space; rep 2 2 digit])].

(** [APUESTA_PATTERNS.PARLE_COMPUESTO]:
    [/(\d{2}(?:\s+\d{2})* )\s+con\s+(\d+(?:[.,]\d+)?)\s+p\s*(\d+(?:[.,]\d+)?)/i] *)
Definition PARLE_COMPUESTO : regex :=
  cat [Group 1 numeros2; plus space; liti "con"; plus space; Group 2 amount;
       plus space; chi "p"; star space; Group 3 amount].

(** [APUESTA_PATTERNS.CANDADO]:
    [/(\d{2}(?:\s+\d{2})* )\s+con\s+(\d+(?:[.,]\d+)?)(?:\s+y\s+(\d+(?:[.,]\d+)?))?\s+candado\s+(?:con\s+)?(\d+(?:[.,]\d+)?)/i] *)
Definition APUESTA_CANDADO : regex :=
  cat [Group 1 numeros2; plus space; liti "con"; plus space; Group 2 amount;
       opt (cat [plus space; chi "y"; plus space; Group 3 amount]);
       plus space; liti "candado"; plus space;
       opt (cat [liti "con"; plus space]); Group 4 amount].

End PATTERNS.

(* ================================================================= *)
(** ** Data model (types.ts) *)

Module Types.

Record CacheConfig : Type := {
  enabled : bool;
  ttl : Z;
  maxSize : Z
}.

Record ParserConfig : Type := {
  strictMode : bool;
  autoExpand : bool;
  validateTotals : bool;
  maxJugadores : Z;
  currencySymbol : jsstring;
  decimalSeparator : jsstring;
  allowNegative : bool;
  maxMonto : number;
  defaultMontoFijo : number;
  defaultMontoCorrido : number;
  debug : bool;
  timeout : Z;
  cache : CacheConfig
}.

Inductive TipoApuesta : Type :=
| fijo | corrido | parle | centena | candado | especial | volteo | rango.

Definition tipo_eqb (a b : TipoApuesta) : bool :=
  match a, b with
  | fijo, fijo | corrido, corrido | parle, parle | centena, centena
  | candado, candado | especial, especial | volteo, volteo | rango, rango => true
  | _, _ => false
  end.

(** [expansion] is left out: only the special-patterns plugin fills it. *)
Record DetalleApuesta : Type := {
  tipo : TipoApuesta;
  numeros : list jsstring;
  monto : number;
  montoUnitario : number;
  combinaciones : option number;
  pares : option (list (jsstring * jsstring));
  lineaOriginal : jsstring;
  lineaNumero : option nat
}.

(** [metadata.timestamp] and [metadata.processingTime] are left out;
    [bloqueIndex] is the field added by [Parser.enrichJugada]. *)
Record JugadaMetadata : Type := {
  lineCount : nat;
  numberCount : nat;
  betTypes : list TipoApuesta;
  bloqueIndex : option nat
}.

Record Jugada : Type := {
  jugador : jsstring;
  totalCalculado : number;
  totalDeclarado : option number;
  lineas : list jsstring;
  detalles : list DetalleApuesta;
  isValid : bool;
  warnings : list message;
  errors : list message;
  metadata : JugadaMetadata
}.

Record PluginContext : Type := {
  ctx_config : ParserConfig;
  ctx_jugador : jsstring;
  ctx_totalDeclarado : option number;
  ctx_lineas : list jsstring
}.

(** [new Set(...)] keeps the first occurrence of each element, in order. *)
Fixpoint set_of (l : list TipoApuesta) (seen : list TipoApuesta) : list TipoApuesta :=
  match l with
  | [] => []
  | t :: r =>
      if existsb (tipo_eqb t) seen then set_of r seen
      else t :: set_of r (t :: seen)
  end.

(** Outcome of code that may [throw]: the message of the error, or a value. *)
Inductive result (A : Type) : Type :=
| Throw (msg : message)
| Ok (a : A).

Arguments Throw {A} msg.
Arguments Ok {A} a.

End Types.

Export Types.

(* ================================================================= *)
(** ** CacheManager (utils/cache.ts) *)

Module CacheManager.

Section Cache.

(** Type of the cached values ([any] in the source). *)
Variable V : Type.

Record CacheEntry : Type := {
  key : jsstring;
  value : V;
  timestamp : Z;
  entry_ttl : Z;
  entry_hits : Z
}.

Record Stats : Type := {
  hits : Z;
  misses : Z;
  size : Z;
  evictions : Z
}.

(** The [Map] is kept as the list of its entries in insertion order, one
    entry per key. *)
Record t : Type := {
  config : CacheConfig;
  cache : list CacheEntry;
  stats : Stats
}.

Definition create (c : CacheConfig) : t :=
  {| config := c; cache := []; stats := {| hits := 0; misses := 0; size := 0; evictions := 0 |} |}.

Definition map_get (k : jsstring) (m : list CacheEntry) : option CacheEntry :=
  find (fun e => JS.eqb (key e) k) m.

Definition map_delete (k : jsstring) (m : list CacheEntry) : list CacheEntry :=
  filter (fun e => negb (JS.eqb (key e) k)) m.

(** [Map.prototype.set]: an existing key keeps its position. *)
Fixpoint map_set (e : CacheEntry) (m : list CacheEntry) : list CacheEntry :=
  match m with
  | [] => [e]
  | x :: r => if JS.eqb (key x) (key e) then e :: r else x :: map_set e r
  end.

Definition map_size (m : list CacheEntry) : Z := Z.of_nat (length m).

Definition expired (now : Z) (e : CacheEntry) : bool :=
  (timestamp e + entry_ttl e <? now)%Z.

Definition with_stats (c : t) (s : Stats) : t :=
  {| config := config c; cache := cache c; stats := s |}.

Definition cleanupExpired (now : Z) (c : t) : t :=
  let gone := filter (expired now) (cache c) in
  {| config := config c;
     cache := filter (fun e => negb (expired now e)) (cache c);
     stats := {| hits := hits (stats c); misses := misses (stats c);
                 size := (size (stats c) - Z.of_nat (length gone))%Z;
                 evictions := evictions (stats c) |} |}.

Definition initialize (now : Z) (c : t) : t := cleanupExpired now c.

Definition get (now : Z) (k : jsstring) (c : t) : option V * t :=
  if negb (enabled (config c)) then (None, c)
  else
    let st := stats c in
    match map_get k (cache c) with
    | None =>
        (None, with_stats c {| hits := hits st; misses := (misses st + 1)%Z;
                                size := size st; evictions := evictions st |})
    | Some e =>
        if expired now e then
          (None, {| config := config c;
                    cache := map_delete k (cache c);
                    stats := {| hits := hits st; misses := (misses st + 1)%Z;
                                size := (size st - 1)%Z;
                                evictions := evictions st |} |})
        else
          (Some (value e),
           {| config := config c;
              cache := map_set {| key := key e; value := value e;
                                  timestamp := timestamp e;
                                  entry_ttl := entry_ttl e;
                                  entry_hits := (entry_hits e + 1)%Z |} (cache c);
              stats := {| hits := (hits st + 1)%Z; misses := misses st;
                          size := size st; evictions := evictions st |} |})
    end.

(** First entry with the least [hits], as the strict comparison of the loop
    selects it. *)
Fixpoint leastUsed (m : list CacheEntry) (best : option CacheEntry) : option CacheEntry :=
  match m with
  | [] => best
  | e :: r =>
      match best with
      | None => leastUsed r (Some e)
      | Some b => if (entry_hits e <? entry_hits b)%Z then leastUsed r (Some e)
                  else leastUsed r best
      end
  end.

(** The guard [if (leastUsedKey)] skips the eviction when the key is the
    empty string. *)
Definition evictLeastUsed (c : t) : t :=
  match leastUsed (cache c) None with
  | Some e =>
      match key e with
      | [] => c
      | _ :: _ =>
          let st := stats c in
          {| config := config c;
             cache := map_delete (key e) (cache c);
             stats := {| hits := hits st; misses := misses st;
                         size := (size st - 1)%Z;
                         evictions := (evictions st + 1)%Z |} |}
      end
  | None => c
  end.

(** [set(key, value, ttl?)]; [ttl || this.config.ttl] takes the configured
    value when the argument is missing or zero. *)
Definition set (now : Z) (k : jsstring) (v : V) (ttl_arg : option Z) (c : t) : t :=
  if negb (enabled (config c)) then c
  else
    let c1 := cleanupExpired now c in
    let c2 := if (maxSize (config c1) <=? map_size (cache c1))%Z
              then evictLeastUsed c1 else c1 in
    let e := {| key := k; value := v; timestamp := now;
                entry_ttl := match ttl_arg with
                             | Some z => if (z =? 0)%Z then ttl (config c) else z
                             | None => ttl (config c)
                             end;
                entry_hits := 0 |} in
    let m := map_set e (cache c2) in
    {| config := config c2; cache := m;
       stats := {| hits := hits (stats c2); misses := misses (stats c2);
                   size := map_size m; evictions := evictions (stats c2) |} |}.

Record StatsView : Type := {
  sv_hits : Z;
  sv_misses : Z;
  sv_size : Z;
  sv_evictions : Z;
  hitRate : number;
  currentSize : Z;
  sv_maxSize : Z
}.

Definition getStats (c : t) : StatsView :=
  let st := stats c in
  {| sv_hits := hits st; sv_misses := misses st; sv_size := size st;
     sv_evictions := evictions st;
     hitRate := if (0 <? hits st + misses st)%Z
                then Number.mul (Number.div (of_Z (hits st)) (of_Z (hits st + misses st)))
                                (of_Z 100)
                else of_Z 0;
     currentSize := map_size (cache c);
     sv_maxSize := maxSize (config c) |}.

(** A client of the cache: a sequence of [get] and [set] calls, each with
    the clock reading it observes. *)
Inductive op : Type :=
| OpGet (now : Z) (k : jsstring)
| OpSet (now : Z) (k : jsstring) (v : V) (ttl_arg : option Z).

Definition step (c : t) (o : op) : t :=
  match o with
  | OpGet now k => snd (get now k c)
  | OpSet now k v ttl_arg => set now k v ttl_arg c
  end.

Definition run (c : t) (ops : list op) : t := fold_left step ops c.



End Cache.

End CacheManager.

(* ================================================================= *)
(** ** BasePlugin (plugins/base-plugin) *)

Module BasePlugin.

(** The loop shared by the two number extractors: a match of length 2 or 3
    is kept, a match of length 4 is split in two, anything else is dropped. *)
Fixpoint collectNumbers (matches : list jsstring) : list jsstring :=
  match matches with
  | [] => []
  | m :: r =>
      if length m =? 2 then m :: collectNumbers r
      else if length m =? 3 then m :: collectNumbers r
      else if length m =? 4 then substring 0 2 m :: substring 2 4 m :: collectNumbers r
      else collectNumbers r
  end.

(** [/\b\d{1,4}\b/g] *)
Definition NUMERO : regex := cat [WordBoundary; rep 1 4 digit; WordBoundary].

Definition extractNumbers (text : jsstring) : list jsstring :=
  collectNumbers (map m_text (match_all NUMERO text)).

(** The fields a caller passes in [extras] to [createDetalle]. *)
Record DetalleExtras : Type := {
  x_monto : option number;
  x_combinaciones : option number;
  x_pares : option (list (jsstring * jsstring))
}.

Definition no_extras : DetalleExtras :=
  {| x_monto := None; x_combinaciones := None; x_pares := None |}.

Definition createDetalle (t : TipoApuesta) (nums : list jsstring)
  (unitario : number) (linea : jsstring) (lineaNum : option nat)
  (extras : DetalleExtras) : DetalleApuesta :=
  let m := Number.mul (of_nat (length nums)) unitario in
  {| tipo := t;
     numeros := nums;
     monto := match x_monto extras with Some v => v | None => m end;
     montoUnitario := unitario;
     combinaciones := x_combinaciones extras;
     pares := x_pares extras;
     lineaOriginal := linea;
     lineaNumero := lineaNum |}.

(** The fields a caller passes in [extras] to [createJugada]. *)
Record JugadaExtras : Type := {
  x_warnings : option (list message);
  x_errors : option (list message)
}.

Definition sum_montos (ds : list DetalleApuesta) : number :=
  fold_left (fun sum d => Number.add sum (monto d)) ds (of_Z 0).

Definition centavo : number := Num (1 # 100).

Definition createJugada (jug : jsstring) (ds : list DetalleApuesta)
  (declarado : option number) (lins : list jsstring) (extras : JugadaExtras)
  : Jugada :=
  let total := sum_montos ds in
  {| jugador := jug;
     totalCalculado := total;
     totalDeclarado := declarado;
     lineas := lins;
     detalles := ds;
     isValid := match declarado with
                | None => true
                | Some d => Number.lt (Number.abs (Number.sub total d)) centavo
                end;
     warnings := match x_warnings extras with Some w => w | None => [] end;
     errors := match x_errors extras with Some e => e | None => [] end;
     metadata := {| lineCount := length lins;
                    numberCount := fold_left (fun sum d => sum + length (numeros d)) ds 0;
                    betTypes := set_of (map tipo ds) [];
                    bloqueIndex := None |} |}.

(** [ensureInitialized]: the plugin holds its configuration once [init] has
    run. *)
Definition ensureInitialized (name : string) (cfg : option ParserConfig)
  : result ParserConfig :=
  match cfg with
  | Some c => Ok c
  | None => Throw [txt "Plugin "; txt name; txt " no está inicializado"]
  end.

(** [x || 1] on a number *)
Definition or_one (x : number) : number :=
  match x with
  | NaN => of_Z 1
  | Num q => if Qeq_bool q 0 then of_Z 1 else x
  end.

(** [parseFloat(s.replace(',', '.'))] *)
Definition parseMonto (s : jsstring) : number :=
  parseFloat (replaceFirstChar 44%N 46%N s).

End BasePlugin.

(* ================================================================= *)
(** ** ParlePlugin and CandadoPlugin (plugins/default-plugins) *)

Module ParlePlugin.

Import BasePlugin.

Definition name : string := "parle-plugin".
Definition priority : Z := 60.

(** [/parle\s+con\s+(\d+(?:[.,]\d+)?)/i] *)
Definition PARLE_CON_MONTO : regex :=
  cat [liti "parle"; plus space; liti "con"; plus space; Group 1 PATTERNS.amount].

(** [/\bp\s*(\d+(?:[.,]\d+)?)\s*$/i] *)
Definition INLINE : regex :=
  cat [WordBoundary; chi "p"; star space; Group 1 PATTERNS.amount; star space; InputEnd].

(** [/\bp\s*\d+\s*$/i] *)
Definition INLINE_TAIL : regex :=
  cat [WordBoundary; chi "p"; star space; plus digit; star space; InputEnd].

(** [canProcess(text)]; [li] is the [lastIndex] of the shared regex object
    [PATTERNS.PARLE_EXPLICITO], which [test] reads and updates. The other
    two patterns are [/parle\s+con/i] and [/\bp\s*\d+$/]. *)
Definition canProcess (li : nat) (text : jsstring) : bool * nat :=
  let '(found, li') := test_global PATTERNS.PARLE_EXPLICITO li text in
  if found then (true, li')
  else (test (cat [liti "parle"; plus space; liti "con"]) text
        || test (cat [WordBoundary; ch "p"; star space; plus digit; InputEnd]) text,
        li').

Definition calculateCombinations (n : nat) : number :=
  if n <? 2 then of_Z 0
  else Number.div (Number.mul (of_nat n) (Number.sub (of_nat n) (of_Z 1))) (of_Z 2).

(** [text.replace(regex, '')] for a regex without the [g] flag *)
Definition remove_first (r : regex) (text : jsstring) : jsstring :=
  match exec r text with
  | Some m => firstn (m_index m) text ++ skipn (m_index m + length (m_text m)) text
  | None => text
  end.

(** One explicit pair [a*b] found by [PARLE_EXPLICITO]. *)
Definition explicitDetalle (cfg : ParserConfig) (text : jsstring)
  (m : rmatch_result) : DetalleApuesta :=
  let n1 := padStart0 2 (group_str m 1) in
  let n2 := padStart0 2 (group_str m 2) in
  let unitario :=
    match exec PARLE_CON_MONTO text with
    | Some mm => parseMonto (group_str mm 1)
    | None => or_one (defaultMontoFijo cfg)
    end in
  createDetalle parle [n1; n2] unitario text None
    {| x_monto := None; x_combinaciones := Some (of_Z 1);
       x_pares := Some [(n1, n2)] |}.

(** [process(text, context)]. [li] is the [lastIndex] of the shared regex
    object [PATTERNS.PARLE_EXPLICITO] on entry (it carries the [g] flag, so
    [matchAll] starts there and [test] reads and updates it); the new value
    is returned with the jugada. *)
Definition process (cfg : option ParserConfig) (li : nat) (text : jsstring)
  (context : PluginContext) : result (Jugada * nat) :=
  match ensureInitialized name cfg with
  | Throw e => Throw e
  | Ok c =>
      let explicitos :=
        map (explicitDetalle c text) (match_all_from PATTERNS.PARLE_EXPLICITO li text) in
      let '(inline, li') :=
        match exec INLINE text with
        | Some im =>
            let '(found, li1) := test_global PATTERNS.PARLE_EXPLICITO li text in
            if negb found then
              let unitario := parseMonto (group_str im 1) in
              let nums := extractNumbers (remove_first INLINE_TAIL text) in
              if 2 <=? length nums then
                ([createDetalle parle nums unitario text None
                    {| x_monto := None;
                       x_combinaciones := Some (calculateCombinations (length nums));
                       x_pares := None |}], li1)
              else ([], li1)
            else ([], li1)
        | None => ([], li)
        end in
      let compuesto :=
        match exec PATTERNS.PARLE_COMPUESTO text with
        | Some cm =>
            let nums := extractNumbers (group_str cm 1) in
            let montoFijo := parseMonto (group_str cm 2) in
            let montoParle := parseMonto (group_str cm 3) in
            (if (0 <? length nums) && negb (isNaN montoFijo)
             then [createDetalle fijo nums montoFijo text None no_extras] else [])
            ++
            (if (2 <=? length nums) && negb (isNaN montoParle)
             then [createDetalle parle nums montoParle text None
                     {| x_monto := None;
                        x_combinaciones := Some (calculateCombinations (length nums));
                        x_pares := None |}]
             else [])
        | None => []
        end in
      Ok (createJugada (ctx_jugador context) (explicitos ++ inline ++ compuesto)
            (ctx_totalDeclarado context) (ctx_lineas context)
            {| x_warnings := Some []; x_errors := None |}, li')
  end.

End ParlePlugin.

Module CandadoPlugin.

Import BasePlugin.

Definition name : string := "candado-plugin".
Definition priority : Z := 80.

Definition canProcess (text : jsstring) : bool :=
  test PATTERNS.CANDADO text || test PATTERNS.APUESTA_CANDADO text.

Definition calculateCombinations (n : nat) : number :=
  if n <? 2 then of_Z 0
  else Number.div (Number.mul (of_nat n) (Number.sub (of_nat n) (of_Z 1))) (of_Z 2).

(** The details pushed for a line that matched [APUESTA_PATTERNS.CANDADO]. *)
Definition candadoDetalles (text : jsstring) (m : rmatch_result)
  : list DetalleApuesta :=
  let nums := extractNumbers (group_str m 1) in
  let montoFijo := parseMonto (group_str m 2) in
  let montoCorrido := option_map parseMonto (group m 3) in
  let montoCandado := parseMonto (group_str m 4) in
  if 2 <=? length nums then
    (if negb (isNaN montoFijo)
     then [createDetalle fijo nums montoFijo text None no_extras] else [])
    ++
    (match montoCorrido with
     | Some mc => if negb (isNaN mc)
                  then [createDetalle corrido nums mc text None no_extras] else []
     | None => []
     end)
    ++
    (let comb := calculateCombinations (length nums) in
     let unitario := if Number.gt comb (of_Z 0)
                     then Number.div montoCandado comb else of_Z 0 in
     [createDetalle candado nums unitario text None
        {| x_monto := Some montoCandado; x_combinaciones := Some comb;
           x_pares := None |}])
  else [].

Definition process (cfg : option ParserConfig) (text : jsstring)
  (context : PluginContext) : result Jugada :=
  match ensureInitialized name cfg with
  | Throw e => Throw e
  | Ok _ =>
      let ds := match exec PATTERNS.APUESTA_CANDADO text with
                | Some m => candadoDetalles text m
                | None => []
                end in
      Ok (createJugada (ctx_jugador context) ds (ctx_totalDeclarado context)
            (ctx_lineas context) {| x_warnings := None; x_errors := None |})
  end.

End CandadoPlugin.

(* ================================================================= *)
(** ** Preprocessor (preprocessor.ts) *)

Module Preprocessor.

Definition in_codes (l : list N) (c : char) : bool := existsb (N.eqb c) l.

(** [parseInt(s, 10)] on a string of digits *)
Definition parseInt (s : jsstring) : nat := Z.to_nat (digits_value s).

(** [i.toString().padStart(2, '0')] *)
Definition pad2 (i : nat) : jsstring := padStart0 2 (nat_to_string i).

Definition sp : jsstring := [SP].
Definition nl : jsstring := [LF].

(** [/\b(con|parle|candado|total|fijo|corrido|al|pr|v|d|t)\b/i] *)
Definition KEYWORDS : regex :=
  cat [WordBoundary;
       Group 1 (alts [liti "con"; liti "parle"; liti "candado"; liti "total";
                      liti "fijo"; liti "corrido"; liti "al"; liti "pr";
                      liti "v"; liti "d"; liti "t"]);
       WordBoundary].

(** [/^\d/] *)
Definition STARTS_WITH_DIGIT : regex := cat [InputStart; digit].

(** [[A-Za-zÁ-ÿ]]: the ASCII letters and U+00C1 to U+00FF *)
Definition is_letter (c : char) : bool :=
  is_upper_ascii c || is_lower_ascii c || between 193 255 c.

Definition letterCount (s : jsstring) : nat :=
  length (match_all (Char is_letter) s).

(** [letterCount / totalCount > 0.7] is decided on exact rationals; the
    two agree for every string short enough to pass the length test. *)
Definition isNombreJugador (line : jsstring) : bool :=
  let trimmed := trim line in
  if (length trimmed =? 0) || (length trimmed <? 2) || (35 <? length trimmed) then false
  else if test STARTS_WITH_DIGIT trimmed then false
  else if test KEYWORDS trimmed then false
  else 7 * length trimmed <? 10 * letterCount trimmed.

(** [/[ \u00A0\u2000-\u200F\u2028-\u202F\u205F\u3000]+/g] *)
Definition BLANKS : regex :=
  plus (Char (fun c => (c =? 32)%N || (c =? 160)%N || between 8192 8207 c
                       || between 8232 8239 c || (c =? 8287)%N || (c =? 12288)%N)).

(** [/\s*([*x×\-+.])\s*/g] *)
Definition OPERATOR : regex :=
  cat [star space; Group 1 (Char (in_codes [42; 120; 215; 45; 43; 46]%N)); star space].

Definition normalizeSpaces (text : jsstring) : jsstring :=
  let t1 := replace (cat [chn CR; chn LF]) (fun _ => nl) text in
  let t2 := replace (chn CR) (fun _ => nl) t1 in
  let t3 := replace (at_least 3 (chn LF)) (fun _ => nl ++ nl) t2 in
  let t4 := replace (chn TAB) (fun _ => sp) t3 in
  let t5 := replace BLANKS (fun _ => sp) t4 in
  let t6 := join nl (map trim (split LF t5)) in
  let t7 := replace OPERATOR (fun m => group_str m 1) t6 in
  replace (cat [ch ","; Group 1 nonspace]) (fun m => js ", " ++ group_str m 1) t7.

(** [line.toLowerCase()] for every line but a first line that is a name *)
Fixpoint lowerLines (index : nat) (lines : list jsstring) : list jsstring :=
  match lines with
  | [] => []
  | line :: r =>
      (if (index =? 0) && isNombreJugador line then line else toLowerCase line)
        :: lowerLines (S index) r
  end.

Definition normalizeSpecialCharacters (text : jsstring) : jsstring :=
  (* [oOøØοΟ] *)
  let t1 := replace (Char (in_codes [111; 79; 248; 216; 959; 927]%N)) (fun _ => js "0") text in
  (* [lI|] *)
  let t2 := replace (Char (in_codes [108; 73; 124]%N)) (fun _ => js "1") t1 in
  (* × *)
  let t3 := replace (chn 215%N) (fun _ => js "x") t2 in
  (* the two quotes, the backquote and the acute accent *)
  let t4 := replace (Char (in_codes [39; 34; 96; 180]%N)) (fun _ => []) t3 in
  join nl (lowerLines 0 (split LF t4)).

Definition expandVolteos (text : jsstring) : jsstring :=
  replace PATTERNS.VOLTEO
    (fun m => let normalized := padStart0 2 (group_str m 1) in
              normalized ++ sp ++ rev normalized) text.

Definition expandRanges (text : jsstring) : jsstring :=
  replace PATTERNS.RANGO
    (fun m => let inicio := parseInt (group_str m 1) in
              let fin := parseInt (group_str m 2) in
              if fin <? inicio then m_text m
              else join sp (map pad2 (seq inicio (S fin - inicio)))) text.

Definition expandDecenas (text : jsstring) : jsstring :=
  replace PATTERNS.DECENA
    (fun m => let unidad := parseInt (group_str m 1) mod 10 in
              join sp (map (fun decena =>
                              padStart0 2 (nat_to_string decena ++ nat_to_string unidad))
                           (seq 0 10))) text.

Definition expandTerminales (text : jsstring) : jsstring :=
  replace PATTERNS.TERMINAL
    (fun m => let decena := parseInt (group_str m 1) mod 10 in
              join sp (map (fun unidad =>
                              padStart0 2 (nat_to_string decena ++ nat_to_string unidad))
                           (seq 0 10))) text.

Definition expandParesRelativos (text : jsstring) : jsstring :=
  replace PATTERNS.PARES_RELATIVOS
    (fun m => let baseNormalized := padStart0 2 (group_str m 1) in
              let cantidad := Nat.min (parseInt (group_str m 2)) 100 in
              join sp (map (fun i => baseNormalized ++ pad2 i) (seq 1 cantidad))) text.

(** [extractNumbers]: the matches of [/\d{1,4}/g] through the shared loop *)
Definition extractNumbers (text : jsstring) : list jsstring :=
  BasePlugin.collectNumbers (map m_text (match_all (rep 1 4 digit) text)).

Definition expandCentenasTodas (text : jsstring) : jsstring :=
  replace PATTERNS.CENTENAS_TODAS
    (fun m => let nums := extractNumbers (group_str m 1) in
              let centenas :=
                flat_map (fun numero =>
                            if length numero =? 2
                            then map (fun c => nat_to_string c ++ numero) (seq 0 10)
                            else []) nums in
              let montoPart := match group m 2 with
                               | Some montoStr =>
                                   match montoStr with
                                   | [] => []
                                   | _ :: _ => js " con " ++ montoStr
                                   end
                               | None => []
                               end in
              join sp centenas ++ montoPart) text.

Definition expandPatterns (text : jsstring) : jsstring :=
  expandCentenasTodas
    (expandParesRelativos
       (expandTerminales (expandDecenas (expandRanges (expandVolteos text))))).

(** [/\b(\d+)\s*(?:pesos?|bs|bss?)\b/gi] *)
Definition PESOS : regex :=
  cat [WordBoundary; Group 1 (plus digit); star space;
       alts [cat [liti "peso"; opt (chi "s")]; liti "bs"; cat [liti "bs"; opt (chi "s")]];
       WordBoundary].

Definition normalizeAmounts (cfg : ParserConfig) (text : jsstring) : jsstring :=
  let t1 := replace (cat [Group 1 digit; ch ","; Group 2 digit])
              (fun m => group_str m 1 ++ decimalSeparator cfg ++ group_str m 2) text in
  let t2 := replace (cat [Group 1 (liti "con"); Group 2 digit])
              (fun m => group_str m 1 ++ sp ++ group_str m 2) t1 in
  let t3 := replace (cat [Group 1 digit; star space; Group 2 (chi "y"); star space; Group 3 digit])
              (fun m => group_str m 1 ++ sp ++ group_str m 2 ++ sp ++ group_str m 3) t2 in
  (* the dollar, euro and pound signs *)
  let t4 := replace (Char (in_codes [36; 8364; 163]%N)) (fun _ => []) t3 in
  replace PESOS (fun m => group_str m 1) t4.

(** [[\d\s\n.,a-záéíóúñüA-ZÁÉÍÓÚÑÜ\-*xconypdealtprv]], the characters kept
    by [cleanup] *)
Definition allowed (c : char) : bool :=
  is_digit c || is_space c || (c =? 10)%N || (c =? 46)%N || (c =? 44)%N
  || is_lower_ascii c || in_codes [225; 233; 237; 243; 250; 241; 252]%N c
  || is_upper_ascii c || in_codes [193; 201; 205; 211; 218; 209; 220]%N c
  || (c =? 45)%N || (c =? 42)%N
  || existsb (fun a => N.eqb c (code a)) (list_ascii_of_string "xconypdealtprv").

Definition cleanup (text : jsstring) : jsstring :=
  (* /^\n+|\n+$/g *)
  let t1 := replace (Alt (cat [InputStart; plus (chn LF)]) (cat [plus (chn LF); InputEnd]))
              (fun _ => []) text in
  (* / +\n/g *)
  let t2 := replace (cat [plus (chn SP); chn LF]) (fun _ => nl) t1 in
  let t3 := replace (Char (fun c => negb (allowed c))) (fun _ => []) t2 in
  join nl (filter (fun line => 0 <? length (trim line)) (split LF t3)).

Definition process (cfg : ParserConfig) (text : jsstring) : jsstring :=
  let p1 := normalizeSpaces text in
  let p2 := normalizeSpecialCharacters p1 in
  let p3 := if autoExpand cfg then expandPatterns p2 else p2 in
  let p4 := normalizeAmounts cfg p3 in
  cleanup p4.

End Preprocessor.

(* ================================================================= *)
(** ** Validator (validators) *)

Module Validator.

(** Only [valid] and [errors] of a syntax validation are modelled: the
    warnings depend on the [lastIndex] left in the shared global regex
    objects by earlier calls ([hasInvalidPatterns]), and the parser reads
    them for the confidence score only. *)
Record SyntaxValidation : Type := {
  sv_valid : bool;
  sv_errors : list message
}.

Record ValidationResult : Type := {
  valid : bool;
  v_errors : list message;
  v_warnings : list message
}.

Definition linea_msg (lineNumber : nat) (rest : list frag) : message :=
  txt "Línea " :: Val (of_nat lineNumber) :: rest.

(** [letterCount / totalCount > 0.6] is decided on exact rationals; the
    two agree for every string an engine can hold (a ratio other than 3/5
    differs from it by at least 1/(5 n)). *)
Definition isNombreJugador (line : jsstring) : bool :=
  let trimmed := trim line in
  if (length trimmed =? 0) || (length trimmed <? 2) then false
  else if test Preprocessor.STARTS_WITH_DIGIT trimmed then false
  else if test Preprocessor.KEYWORDS trimmed then false
  else 3 * length trimmed <? 5 * Preprocessor.letterCount trimmed.

(** [/^\s*total\b/i] *)
Definition isTotalLine (line : jsstring) : bool :=
  test (cat [InputStart; star space; liti "total"; WordBoundary]) (trim line).

(** [/\btotal\b[:\s]*\d+(?:[.,]\d+)?/i] *)
Definition validateTotalLine (line : jsstring) : bool :=
  test (cat [WordBoundary; liti "total"; WordBoundary;
             star (Char (fun c => (c =? 58)%N || is_space c)); PATTERNS.amount]) line.

Definition hasNumbers (line : jsstring) : bool := test digit line.

(** [/(?:con|de|a)\s*\d+(?:[.,]\d+)?/i] *)
Definition hasAmounts (line : jsstring) : bool :=
  test (cat [alts [liti "con"; liti "de"; liti "a"]; star space; PATTERNS.amount]) line.

Definition extractNumbers (line : jsstring) : list jsstring :=
  map (fun m => padStart0 2 (m_text m)) (match_all (rep 1 4 digit) line).

Definition extractAmounts (line : jsstring) : list number :=
  filter (fun a => negb (isNaN a))
         (map (fun m => BasePlugin.parseMonto (m_text m)) (match_all PATTERNS.amount line)).

(** [/^\d{2,4}$/] and the range test by length *)
Definition validateNumber (num : jsstring) : bool :=
  if negb (test (cat [InputStart; rep 2 4 digit; InputEnd]) num) then false
  else
    let n := digits_value num in
    if length num =? 2 then ((0 <=? n) && (n <=? 99))%Z
    else if length num =? 3 then ((0 <=? n) && (n <=? 999))%Z
    else if length num =? 4 then ((0 <=? n) && (n <=? 9999))%Z
    else false.

(** [/\b(parle|candado)\b/i] *)
Definition hasParleOrCandado (line : jsstring) : bool :=
  test (cat [WordBoundary; Group 1 (Alt (liti "parle") (liti "candado")); WordBoundary]) line.

(** The elements seen more than once, in the order of their second
    occurrence. *)
Fixpoint findDuplicates (l seen dups : list jsstring) : list jsstring :=
  match l with
  | [] => rev dups
  | x :: r =>
      if existsb (JS.eqb x) seen then
        if existsb (JS.eqb x) dups then findDuplicates r seen dups
        else findDuplicates r seen (x :: dups)
      else findDuplicates r (x :: seen) dups
  end.

Definition validateParleCandado_errors (line : jsstring) (lineNumber : nat) : list message :=
  if length (extractNumbers line) <? 2
  then [linea_msg lineNumber [txt ": Parle/candado requiere al menos 2 números"]]
  else [].

Definition validateBetLine_errors (cfg : ParserConfig) (line : jsstring)
  (lineNumber : nat) : list message :=
  (if negb (hasNumbers line)
   then [linea_msg lineNumber [txt ": No se encontraron números"]] else [])
  ++
  (if negb (hasAmounts line) then []
   else flat_map (fun a =>
                    if Number.lt a (of_Z 0) && negb (allowNegative cfg)
                    then [linea_msg lineNumber [txt ": Monto negativo no permitido: "; Val a]]
                    else []) (extractAmounts line))
  ++
  flat_map (fun num =>
              if negb (validateNumber num)
              then [linea_msg lineNumber [txt ": Número inválido: "; Txt num]]
              else []) (extractNumbers line)
  ++
  (if hasParleOrCandado line then validateParleCandado_errors line lineNumber else []).

Definition validateLine_errors (cfg : ParserConfig) (line : jsstring)
  (lineNumber : nat) : list message :=
  if length (trim line) =? 0 then []
  else if isTotalLine line then
    if negb (validateTotalLine line)
    then [linea_msg lineNumber [txt ": Formato de total inválido"]] else []
  else if isNombreJugador line then []
  else validateBetLine_errors cfg line lineNumber.

Fixpoint validateLines (cfg : ParserConfig) (lines : list jsstring) (i : nat)
  : list message :=
  match lines with
  | [] => []
  | line :: r => validateLine_errors cfg line (i + 1) ++ validateLines cfg r (S i)
  end.

Definition nonblank (l : jsstring) : bool := 0 <? length (trim l).

Definition validateGlobal_errors (cfg : ParserConfig) (text : jsstring) : list message :=
  let lines := filter nonblank (split LF text) in
  let jugadores := filter isNombreJugador lines in
  if length jugadores =? 0 then []
  else if (maxJugadores cfg <? Z.of_nat (length jugadores))%Z
  then [[txt "Demasiados jugadores: "; Val (of_nat (length jugadores));
         txt " (máximo: "; Val (of_Z (maxJugadores cfg)); txt ")"]]
  else [].

Definition validateSyntax (cfg : ParserConfig) (text : jsstring) : SyntaxValidation :=
  let lines := filter nonblank (split LF text) in
  match lines with
  | [] => {| sv_valid := false; sv_errors := [[txt "Texto vacío"]] |}
  | _ :: _ =>
      let errs := validateLines cfg lines 0 ++ validateGlobal_errors cfg text in
      {| sv_valid := (length errs =? 0); sv_errors := errs |}
  end.

Definition tipo_name (t : TipoApuesta) : frag :=
  match t with
  | fijo => txt "fijo" | corrido => txt "corrido" | parle => txt "parle"
  | centena => txt "centena" | candado => txt "candado"
  | especial => txt "especial" | volteo => txt "volteo" | rango => txt "rango"
  end.

Definition tipo_conocido (t : TipoApuesta) : bool :=
  match t with
  | fijo | corrido | parle | centena | candado | especial => true
  | volteo | rango => false
  end.

Definition validateDetalle (cfg : ParserConfig) (d : DetalleApuesta) : ValidationResult :=
  let e_tipo := if negb (tipo_conocido (tipo d))
                then [[txt "Tipo de apuesta inválido: "; tipo_name (tipo d)]] else [] in
  let e_nums :=
    match numeros d with
    | [] => [[txt "Sin números en la apuesta"]]
    | _ :: _ => flat_map (fun num => if negb (validateNumber num)
                                     then [[txt "Número inválido: "; Txt num]] else [])
                         (numeros d)
    end in
  let e_monto :=
    if isNaN (monto d) then [[txt "Monto inválido"]]
    else if Number.lt (monto d) (of_Z 0) && negb (allowNegative cfg)
    then [[txt "Monto negativo: "; Val (monto d)]] else [] in
  let w_monto :=
    if isNaN (monto d) then []
    else if Number.gt (monto d) (maxMonto cfg)
    then [[txt "Monto excesivo: "; Val (monto d)]] else [] in
  let e_unit := if isNaN (montoUnitario d) then [[txt "Monto unitario inválido"]] else [] in
  let e_kind :=
    match tipo d with
    | parle => match combinaciones d with
               | None => [[txt "Parle sin número de combinaciones"]]
               | Some _ => []
               end
    | candado => match combinaciones d with
                 | None => [[txt "Candado sin número de combinaciones"]]
                 | Some _ => []
                 end
    | centena =>
        let invalid := filter (fun n => negb (length n =? 3)) (numeros d) in
        match invalid with
        | [] => []
        | _ :: _ => [[txt "Centenas inválidas: "; Txt (join (js ", ") invalid)]]
        end
    | _ => []
    end in
  let w_kind :=
    match tipo d, combinaciones d with
    | parle, Some c => if Number.lt c (of_Z 1) then [[txt "Parle con 0 combinaciones"]] else []
    | _, _ => []
    end in
  let errs := e_tipo ++ e_nums ++ e_monto ++ e_unit ++ e_kind in
  {| valid := (length errs =? 0); v_errors := errs; v_warnings := w_monto ++ w_kind |}.

Definition lineaNumero_frag (d : DetalleApuesta) : frag :=
  match lineaNumero d with
  | Some n => Val (of_nat n)
  | None => txt "undefined"
  end.

Definition detalle_prefix (d : DetalleApuesta) (m : message) : message :=
  txt "Detalle línea " :: lineaNumero_frag d :: txt ": " :: m.

Definition validateJugada (cfg : ParserConfig) (j : Jugada) : ValidationResult :=
  let w_name := if (length (jugador j) =? 0) || JS.eqb (jugador j) (js "Desconocido")
                then [[txt "Nombre de jugador no identificado"]] else [] in
  let e_neg := if Number.lt (totalCalculado j) (of_Z 0) && negb (allowNegative cfg)
               then [[txt "Total calculado negativo"]] else [] in
  let w_max := if Number.gt (totalCalculado j) (maxMonto cfg)
               then [[txt "Total calculado ("; Val (totalCalculado j);
                      txt ") excede el máximo permitido ("; Val (maxMonto cfg); txt ")"]]
               else [] in
  let e_det := flat_map (fun d => let r := validateDetalle cfg d in
                                  if negb (valid r) then map (detalle_prefix d) (v_errors r)
                                  else []) (detalles j) in
  let w_det := flat_map (fun d => map (detalle_prefix d) (v_warnings (validateDetalle cfg d)))
                        (detalles j) in
  let '(e_tot, w_tot) :=
    match totalDeclarado j with
    | None => ([], [])
    | Some td =>
        let difference := Number.abs (Number.sub (totalCalculado j) td) in
        if Number.gt difference BasePlugin.centavo then
          let msg := [txt "Diferencia entre total calculado ("; Fixed2 (totalCalculado j);
                      txt ") y declarado ("; Fixed2 td; txt "): "; Fixed2 difference] in
          if validateTotals cfg then
            if Number.lt difference (of_Z 1) then ([], [msg]) else ([msg], [])
          else ([], [msg])
        else ([], [])
    end in
  let duplicates := findDuplicates (flat_map numeros (detalles j)) [] [] in
  let w_dup := match duplicates with
               | [] => []
               | _ :: _ => [[txt "Números duplicados encontrados: ";
                             Txt (join (js ", ") duplicates)]]
               end in
  let errs := e_neg ++ e_det ++ e_tot in
  {| valid := (length errs =? 0);
     v_errors := errs;
     v_warnings := w_name ++ w_max ++ w_det ++ w_tot ++ w_dup |}.

End Validator.

(* ================================================================= *)
(** ** Parser (parser.ts) *)

Module Parser.

Definition DEFAULT_CONFIG : ParserConfig :=
  {| strictMode := false;
     autoExpand := true;
     validateTotals := true;
     maxJugadores := 100;
     currencySymbol := js "$";
     decimalSeparator := js ".";
     allowNegative := false;
     maxMonto := of_Z 1000000;
     defaultMontoFijo := of_Z 1;
     defaultMontoCorrido := of_Z 0;
     debug := false;
     timeout := 5000;
     cache := {| enabled := true; ttl := 5 * 60 * 1000; maxSize := 1000 |} |}.

Record Summary : Type := {
  totalJugadas : nat;
  sum_totalCalculado : number;
  sum_totalDeclarado : number;
  difference : number;
  sum_isValid : bool
}.

Record Metadata : Type := {
  originalLength : nat;
  processedLength : nat;
  md_warnings : list message;
  md_errors : list message;
  cacheStats : CacheManager.StatsView
}.

Record ParseResult : Type := {
  success : bool;
  jugadas : list Jugada;
  summary : Summary;
  pr_metadata : Metadata
}.

(** A registered plugin, with [canProcess] and [process] as functions of
    their arguments; [process] may throw, or return [null]. *)
Record ProcessorPlugin : Type := {
  p_name : jsstring;
  p_priority : Z;
  p_canProcess : jsstring -> bool;
  p_process : jsstring -> PluginContext -> result (option Jugada)
}.

(** The parser object. [configJson] stands for [JSON.stringify(this.config)],
    a constant of the instance. *)
Record t : Type := {
  config : ParserConfig;
  cache : CacheManager.t ParseResult;
  plugins : list ProcessorPlugin;
  isInitialized : bool;
  configJson : jsstring
}.

(** [registerDefaultPlugins] registers nothing. *)
Definition registerDefaultPlugins (p : t) : t := p.

Definition create (cfg : ParserConfig) (json : jsstring) : t :=
  registerDefaultPlugins
    {| config := cfg;
       cache := CacheManager.create ParseResult (Types.cache cfg);
       plugins := [];
       isInitialized := false;
       configJson := json |}.

(** Stable insertion by descending priority, as [push] followed by [sort]
    on an already sorted array. *)
Fixpoint insertPlugin (x : ProcessorPlugin) (l : list ProcessorPlugin) : list ProcessorPlugin :=
  match l with
  | [] => [x]
  | y :: r => if (p_priority y <? p_priority x)%Z then x :: l else y :: insertPlugin x r
  end.

Definition registerPlugin (x : ProcessorPlugin) (p : t) : t :=
  {| config := config p; cache := cache p; plugins := insertPlugin x (plugins p);
     isInitialized := isInitialized p; configJson := configJson p |}.

(** The part of [initialize] that runs after its [await], in a later
    microtask. *)
Definition finishInitialize (p : t) : t :=
  {| config := config p; cache := cache p; plugins := plugins p;
     isInitialized := true; configJson := configJson p |}.

Definition toInt32 (z : Z) : Z := ((z + 2 ^ 31) mod 2 ^ 32 - 2 ^ 31)%Z.

Definition hashString (str : jsstring) : Z :=
  fold_left (fun hash c => toInt32 (toInt32 (hash * 32) - hash + Z.of_N c)%Z) str 0%Z.

Definition digit36 (d : Z) : char :=
  if (d <? 10)%Z then (48 + Z.to_N d)%N else (87 + Z.to_N d)%N.

Fixpoint toString36_fuel (fuel : nat) (z : Z) (acc : jsstring) : jsstring :=
  match fuel with
  | O => acc
  | S f =>
      let acc' := digit36 (z mod 36) :: acc in
      if (z <? 36)%Z then acc' else toString36_fuel f (z / 36) acc'
  end.

(** [n.toString(36)] for an integer of 32 bits *)
Definition toString36 (z : Z) : jsstring :=
  if (z <? 0)%Z then 45%N :: toString36_fuel 7 (- z) []
  else toString36_fuel 7 z [].

Definition cacheKey (p : t) (text : jsstring) : jsstring :=
  js "parse:" ++ toString36 (hashString text) ++ js ":" ++ configJson p.

Definition state := (list jsstring * list jsstring * bool)%type.

(** One turn of the loop of [extractBloques] over the state
    [(bloques, currentBloque, inBloque)]. *)
Definition extractBloques_step (st : state) (line : jsstring) : state :=
  let '(bloques, currentBloque, inBloque) := st in
  let trimmed := trim line in
  if length trimmed =? 0 then
    if inBloque && (0 <? length currentBloque)
    then (bloques ++ [join [LF] currentBloque], [], false)
    else st
  else if Validator.isNombreJugador trimmed && negb inBloque then
    ((if 0 <? length currentBloque then bloques ++ [join [LF] currentBloque] else bloques),
     [trimmed], true)
  else (bloques, currentBloque ++ [line], true).

Definition extractBloques (text : jsstring) : list jsstring :=
  let '(bloques, currentBloque, _) :=
    fold_left extractBloques_step (split LF text) ([], [], false) in
  let bloques' := if 0 <? length currentBloque
                  then bloques ++ [join [LF] currentBloque] else bloques in
  filter (fun b => 0 <? length (trim b)) bloques'.

Definition extractJugador (bloque : jsstring) : jsstring :=
  let firstLine := match split LF bloque with
                   | l :: _ => trim l
                   | [] => []
                   end in
  if Validator.isNombreJugador firstLine then firstLine else js "Desconocido".

(** [/total\s*[:=]?\s*\$?\s*([\d.,]+)/i] *)
Definition TOTAL_DECLARADO : regex :=
  cat [liti "total"; star space; opt (one_of ":="); star space; opt (ch "$");
       star space;
       Group 1 (plus (Char (fun c => is_digit c || (c =? 46)%N || (c =? 44)%N)))].

Definition extractTotalDeclarado (bloque : jsstring) : option number :=
  match exec TOTAL_DECLARADO bloque with
  | Some m => Some (BasePlugin.parseMonto (group_str m 1))
  | None => None
  end.

(** [parseLinea] returns an empty array for every line. *)
Definition parseLinea (linea : jsstring) (lineIndex : nat)
  (lastFijoMonto lastCorridoMonto : number) : result (list DetalleApuesta) :=
  Ok [].

(** [new Decimal(sum).plus(x).toNumber()] *)
Definition decimal_plus (sum x : number) : number := Number.add sum x.

Record loop_state : Type := {
  ls_detalles : list DetalleApuesta;
  ls_warnings : list message;
  ls_errors : list message;
  ls_totalDeclarado : option number;
  ls_betTypes : list TipoApuesta;
  ls_lastFijo : number;
  ls_lastCorrido : number
}.

Definition linea_error (i : nat) (e : message) : message :=
  txt "Línea " :: Val (of_nat (i + 1)) :: txt ": " :: e.

(** The loop of [parseBloqueStandard] over the lines from index [i]. *)
Fixpoint standardLoop (cfg : ParserConfig) (lineas : list jsstring) (i : nat)
  (st : loop_state) : result loop_state :=
  match lineas with
  | [] => Ok st
  | linea :: r =>
      if (i =? 0) && Validator.isNombreJugador linea then standardLoop cfg r (S i) st
      else
        match exec TOTAL_DECLARADO linea with
        | Some m =>
            standardLoop cfg r (S i)
              {| ls_detalles := ls_detalles st; ls_warnings := ls_warnings st;
                 ls_errors := ls_errors st;
                 ls_totalDeclarado := Some (BasePlugin.parseMonto (group_str m 1));
                 ls_betTypes := ls_betTypes st;
                 ls_lastFijo := ls_lastFijo st; ls_lastCorrido := ls_lastCorrido st |}
        | None =>
            match parseLinea linea i (ls_lastFijo st) (ls_lastCorrido st) with
            | Ok detallesLinea =>
                match rev detallesLinea with
                | [] => standardLoop cfg r (S i) st
                | ultimoDetalle :: _ =>
                    standardLoop cfg r (S i)
                      {| ls_detalles := ls_detalles st ++ detallesLinea;
                         ls_warnings := ls_warnings st;
                         ls_errors := ls_errors st;
                         ls_totalDeclarado := ls_totalDeclarado st;
                         ls_betTypes := ls_betTypes st ++
                                        set_of (map tipo detallesLinea) (ls_betTypes st);
                         ls_lastFijo := if tipo_eqb (tipo ultimoDetalle) fijo
                                        then montoUnitario ultimoDetalle
                                        else ls_lastFijo st;
                         ls_lastCorrido := if tipo_eqb (tipo ultimoDetalle) corrido
                                           then montoUnitario ultimoDetalle
                                           else ls_lastCorrido st |}
                end
            | Throw e =>
                let errorMsg := linea_error i e in
                if strictMode cfg then Throw errorMsg
                else standardLoop cfg r (S i)
                       {| ls_detalles := ls_detalles st;
                          ls_warnings := ls_warnings st ++ [errorMsg];
                          ls_errors := ls_errors st;
                          ls_totalDeclarado := ls_totalDeclarado st;
                          ls_betTypes := ls_betTypes st;
                          ls_lastFijo := ls_lastFijo st;
                          ls_lastCorrido := ls_lastCorrido st |}
            end
        end
  end.

Definition parseBloqueStandard (cfg : ParserConfig) (jug : jsstring)
  (lins : list jsstring) (bloqueIdx : nat) : result Jugada :=
  match standardLoop cfg lins 0
          {| ls_detalles := []; ls_warnings := []; ls_errors := [];
             ls_totalDeclarado := None; ls_betTypes := [];
             ls_lastFijo := defaultMontoFijo cfg;
             ls_lastCorrido := defaultMontoCorrido cfg |} with
  | Throw e => Throw e
  | Ok st =>
      let total := fold_left (fun sum d => decimal_plus sum (monto d))
                             (ls_detalles st) (of_Z 0) in
      Ok {| jugador := jug;
            totalCalculado := total;
            totalDeclarado := ls_totalDeclarado st;
            lineas := filter (fun l => negb (Validator.isTotalLine l)) lins;
            detalles := ls_detalles st;
            isValid := match ls_totalDeclarado st with
                       | None => true
                       | Some d => Number.lt (Number.abs (Number.sub total d))
                                             BasePlugin.centavo
                       end;
            warnings := ls_warnings st;
            errors := ls_errors st;
            metadata := {| lineCount := length lins;
                           numberCount := fold_left (fun sum d => sum + length (numeros d))
                                                    (ls_detalles st) 0;
                           betTypes := ls_betTypes st;
                           bloqueIndex := None |} |}
  end.

Definition enrichJugada (j : Jugada) (bloqueIdx : nat) : Jugada :=
  {| jugador := jugador j; totalCalculado := totalCalculado j;
     totalDeclarado := totalDeclarado j; lineas := lineas j;
     detalles := detalles j; isValid := isValid j;
     warnings := warnings j; errors := errors j;
     metadata := {| lineCount := lineCount (metadata j);
                    numberCount := numberCount (metadata j);
                    betTypes := betTypes (metadata j);
                    bloqueIndex := Some bloqueIdx |} |}.

(** The loop of [parseBloque] over the plugins: the first plugin that
    accepts the block and returns a jugada decides. *)
Fixpoint tryPlugins (ps : list ProcessorPlugin) (bloque : jsstring)
  (ctx : PluginContext) : result (option Jugada) :=
  match ps with
  | [] => Ok None
  | pl :: r =>
      if p_canProcess pl bloque then
        match p_process pl bloque ctx with
        | Throw e => Throw e
        | Ok (Some j) => Ok (Some j)
        | Ok None => tryPlugins r bloque ctx
        end
      else tryPlugins r bloque ctx
  end.

Definition parseBloque (p : t) (bloque : jsstring) (bloqueIdx : nat) : result Jugada :=
  let lins := filter (fun l => 0 <? length l) (map trim (split LF bloque)) in
  let jug := extractJugador bloque in
  let ctx := {| ctx_config := config p;
                ctx_jugador := jug;
                ctx_totalDeclarado := extractTotalDeclarado bloque;
                ctx_lineas := filter (fun l => negb (Validator.isNombreJugador l)
                                               && negb (Validator.isTotalLine l)) lins |} in
  match tryPlugins (plugins p) bloque ctx with
  | Throw e => Throw e
  | Ok (Some j) => Ok (enrichJugada j bloqueIdx)
  | Ok None => parseBloqueStandard (config p) jug lins bloqueIdx
  end.

Definition jugador_prefix (j : Jugada) (m : message) : message :=
  txt "[" :: Txt (jugador j) :: txt "] " :: m.

Record block_acc : Type := {
  acc_jugadas : list Jugada;
  acc_warnings : list message;
  acc_errors : list message
}.

(** [`Error procesando bloque ${index + 1}: ${error.message}`] *)
Definition bloque_error (index : nat) (e : message) : message :=
  txt "Error procesando bloque " :: Val (of_nat (index + 1)) :: txt ": " :: e.

(** The loop of [parse] over the blocks from index [index]. *)
Fixpoint parseBloques (p : t) (bloques : list jsstring) (index : nat)
  (acc : block_acc) : result block_acc :=
  match bloques with
  | [] => Ok acc
  | bloque :: r =>
      match parseBloque p bloque index with
      | Ok j =>
          let v := Validator.validateJugada (config p) j in
          let ws := if negb (Validator.valid v)
                    then map (jugador_prefix j) (Validator.v_warnings v) else [] in
          let es := if negb (Validator.valid v) && strictMode (config p)
                    then map (jugador_prefix j) (Validator.v_errors v) else [] in
          parseBloques p r (S index)
            {| acc_jugadas := acc_jugadas acc ++ [j];
               acc_warnings := acc_warnings acc ++ ws;
               acc_errors := acc_errors acc ++ es |}
      | Throw e =>
          let errorMsg := bloque_error index e in
          if strictMode (config p) then Throw errorMsg
          else parseBloques p r (S index)
                 {| acc_jugadas := acc_jugadas acc;
                    acc_warnings := acc_warnings acc;
                    acc_errors := acc_errors acc ++ [errorMsg] |}
      end
  end.

(** [x || 0] on an optional number *)
Definition or_zero (x : option number) : number :=
  match x with
  | Some (Num q) => Num q
  | _ => of_Z 0
  end.

(** The body of the [try] block of [parse] after the cache lookup. *)
Definition parseFresh (p : t) (text : jsstring) (st : CacheManager.StatsView)
  : result ParseResult :=
  let preprocessed := Preprocessor.process (config p) text in
  let validation := Validator.validateSyntax (config p) preprocessed in
  if negb (Validator.sv_valid validation) && strictMode (config p)
  then Throw [txt "Validación de sintaxis fallida"]
  else
    let bloques := extractBloques preprocessed in
    if (maxJugadores (config p) <? Z.of_nat (length bloques))%Z
    then Throw [txt "Número máximo de jugadores excedido: "; Val (of_nat (length bloques));
                txt " > "; Val (of_Z (maxJugadores (config p)))]
    else
      match parseBloques p bloques 0
              {| acc_jugadas := []; acc_warnings := []; acc_errors := [] |} with
      | Throw e => Throw e
      | Ok acc =>
          let js_ := acc_jugadas acc in
          let tc := fold_left (fun sum j => decimal_plus sum (totalCalculado j)) js_ (of_Z 0) in
          let td := fold_left (fun sum j => decimal_plus sum (or_zero (totalDeclarado j)))
                              js_ (of_Z 0) in
          let diff := Number.abs (Number.sub tc td) in
          Ok {| success := (length (acc_errors acc) =? 0);
                jugadas := js_;
                summary := {| totalJugadas := length js_;
                              sum_totalCalculado := tc;
                              sum_totalDeclarado := td;
                              difference := diff;
                              sum_isValid := Number.lt diff BasePlugin.centavo |};
                pr_metadata := {| originalLength := length text;
                                  processedLength := length preprocessed;
                                  md_warnings := acc_warnings acc;
                                  md_errors := acc_errors acc;
                                  cacheStats := st |} |}
      end.

(** The result built by the [catch] clause of [parse]. *)
Definition failure (text : jsstring) (e : message) (st : CacheManager.StatsView)
  : ParseResult :=
  {| success := false;
     jugadas := [];
     summary := {| totalJugadas := 0; sum_totalCalculado := of_Z 0;
                   sum_totalDeclarado := of_Z 0; difference := of_Z 0;
                   sum_isValid := false |};
     pr_metadata := {| originalLength := length text; processedLength := 0;
                       md_warnings := []; md_errors := [e]; cacheStats := st |} |}.

Definition with_cache (p : t) (c : CacheManager.t ParseResult) : t :=
  {| config := config p; cache := c; plugins := plugins p;
     isInitialized := isInitialized p; configJson := configJson p |}.

(** The start of [parse(text)] at clock reading [now]: the first part of
    [initialize] when the parser is not initialised yet, then the cache
    lookup. *)
Definition lookup (now : Z) (text : jsstring) (p : t)
  : option ParseResult * CacheManager.t ParseResult :=
  let c0 := if isInitialized p then cache p
            else CacheManager.initialize now (cache p) in
  if enabled (Types.cache (config p))
  then CacheManager.get now (cacheKey p text) c0
  else (None, c0).

(** [parse(text)] at clock reading [now]: the result and the parser after
    the call. The timer armed by [setTimeout] fires after the call has
    returned and is outside the model. *)
Definition parse (now : Z) (text : jsstring) (p : t) : ParseResult * t :=
  let '(cached, c1) := lookup now text p in
  match cached with
  | Some r => (r, with_cache p c1)
  | None =>
      match parseFresh p text (CacheManager.getStats c1) with
      | Ok r =>
          let c2 := if enabled (Types.cache (config p)) && success r
                    then CacheManager.set now (cacheKey p text) r None c1 else c1 in
          (r, with_cache p c2)
      | Throw e => (failure text e (CacheManager.getStats c1), with_cache p c1)
      end
  end.

End Parser.

(* ================================================================= *)
(** ** CacheManager: deletion, clearing and clean-up (utils/cache.ts) *)

Module CacheAdmin.

Section Admin.

Variable V : Type.

(** [delete(key)]: the size counter is refreshed only when an entry was
    removed; unlike [get] and [set], the call does not look at
    [config.enabled]. *)
Definition delete (k : jsstring) (c : CacheManager.t V) : bool * CacheManager.t V :=
  match CacheManager.map_get k (CacheManager.cache c) with
  | Some _ =>
      let m := CacheManager.map_delete k (CacheManager.cache c) in
      let st := CacheManager.stats c in
      (true,
       {| CacheManager.config := CacheManager.config c;
          CacheManager.cache := m;
          CacheManager.stats :=
            {| CacheManager.hits := CacheManager.hits st;
               CacheManager.misses := CacheManager.misses st;
               CacheManager.size := CacheManager.map_size m;
               CacheManager.evictions := CacheManager.evictions st |} |})
  | None => (false, c)
  end.

Definition clear (c : CacheManager.t V) : CacheManager.t V :=
  let st := CacheManager.stats c in
  {| CacheManager.config := CacheManager.config c;
     CacheManager.cache := [];
     CacheManager.stats :=
       {| CacheManager.hits := CacheManager.hits st;
          CacheManager.misses := CacheManager.misses st;
          CacheManager.size := 0;
          CacheManager.evictions := 0 |} |}.

Definition cleanup (now : Z) (c : CacheManager.t V) : CacheManager.t V :=
  CacheManager.cleanupExpired now c.

(** The calls a client can make on a cache, each with the clock reading it
    observes. *)
Inductive call : Type :=
| Get (now : Z) (k : jsstring)
| Put (now : Z) (k : jsstring) (v : V) (ttl_arg : option Z)
| Delete (k : jsstring)
| Clear
| Cleanup (now : Z)
| Initialize (now : Z).

Definition step (c : CacheManager.t V) (o : call) : CacheManager.t V :=
  match o with
  | Get now k => snd (CacheManager.get now k c)
  | Put now k v ttl_arg => CacheManager.set now k v ttl_arg c
  | Delete k => snd (delete k c)
  | Clear => clear c
  | Cleanup now => cleanup now c
  | Initialize now => CacheManager.initialize now c
  end.

Definition run (c : CacheManager.t V) (ops : list call) : CacheManager.t V :=
  fold_left step ops c.

End Admin.

End CacheAdmin.

(* ================================================================= *)
(** ** PatternExpander (pattern-expander.ts)

    The expansions of single patterns. Numeric arguments are the
    non-negative integers a caller obtains from [parseInt]. *)

Module PatternExpander.


Definition expandRango (inicio fin : nat) : list jsstring :=
  let '(inicio, fin) := if fin <? inicio then (fin, inicio) else (inicio, fin) in
  map Preprocessor.pad2 (seq inicio (S fin - inicio)).

Definition expandDecena (unidad : nat) : list jsstring :=
  let u := unidad mod 10 in
  map (fun decena => padStart0 2 (nat_to_string decena ++ nat_to_string u)) (seq 0 10).

Definition expandTerminal (decena : nat) : list jsstring :=
  let d := decena mod 10 in
  map (fun unidad => padStart0 2 (nat_to_string d ++ nat_to_string unidad)) (seq 0 10).

Definition expandParesRelativos (base : jsstring) (cantidad : nat) : list jsstring :=
  let baseNormalized := padStart0 2 base in
  let maxCantidad := Nat.min cantidad 100 in
  map (fun i => baseNormalized ++ Preprocessor.pad2 i) (seq 1 maxCantidad).

Definition expandTodasLasCentenasParaNumero (numero : jsstring) : list jsstring :=
  let base := padStart0 2 numero in
  map (fun centena => nat_to_string centena ++ base) (seq 0 10).

Definition expandRepeticiones (cantidad : nat) (numero : jsstring) : list jsstring :=
  repeat (padStart0 2 numero) cantidad.

(** The loop of [formatExpandedNumbers]: one line per slice of [maxPerLine]
    numbers. With [maxPerLine = 0] the index never advances and the loop of
    the source does not end; [fuel] bounds the turns. *)
Fixpoint chunks (fuel maxPerLine : nat) (numbers : list jsstring) : option (list jsstring) :=
  match numbers with
  | [] => Some []
  | _ :: _ =>
      match fuel with
      | O => None
      | S f =>
          match chunks f maxPerLine (skipn maxPerLine numbers) with
          | Some lines => Some (join Preprocessor.sp (firstn maxPerLine numbers) :: lines)
          | None => None
          end
      end
  end.

Definition formatExpandedNumbers (fuel : nat) (numbers : list jsstring) (maxPerLine : nat)
  : option jsstring :=
  if length numbers <=? maxPerLine then Some (join Preprocessor.sp numbers)
  else match chunks fuel maxPerLine numbers with
       | Some lines => Some (join Preprocessor.nl lines)
       | None => None
       end.

End PatternExpander.

(* ================================================================= *)
(** * Definitions used by the statements *)

(** The context the parser builds for the one-line block [text] when no
    name and no total are present. *)
Definition ctx_of (lins : list jsstring) : PluginContext :=
  {| ctx_config := Parser.DEFAULT_CONFIG;
     ctx_jugador := js "Desconocido";
     ctx_totalDeclarado := None;
     ctx_lineas := lins |}.

Definition STRICT_CONFIG : ParserConfig :=
  {| strictMode := true;
     autoExpand := autoExpand Parser.DEFAULT_CONFIG;
     validateTotals := validateTotals Parser.DEFAULT_CONFIG;
     maxJugadores := maxJugadores Parser.DEFAULT_CONFIG;
     currencySymbol := currencySymbol Parser.DEFAULT_CONFIG;
     decimalSeparator := decimalSeparator Parser.DEFAULT_CONFIG;
     allowNegative := allowNegative Parser.DEFAULT_CONFIG;
     maxMonto := maxMonto Parser.DEFAULT_CONFIG;
     defaultMontoFijo := defaultMontoFijo Parser.DEFAULT_CONFIG;
     defaultMontoCorrido := defaultMontoCorrido Parser.DEFAULT_CONFIG;
     debug := debug Parser.DEFAULT_CONFIG;
     timeout := timeout Parser.DEFAULT_CONFIG;
     cache := Types.cache Parser.DEFAULT_CONFIG |}.

(** The unordered pairs of a list: the combinations a parle or a candado
    bets on. *)
Fixpoint pairs_of (A : Type) (l : list A) : list (A * A) :=
  match l with
  | [] => []
  | x :: r => map (pair x) r ++ pairs_of r
  end.



(** The parser objects a client can obtain: a new parser, then calls of
    [parse] and [registerPlugin], and the completion of [initialize]. *)
Inductive reachable : Parser.t -> Prop :=
| reach_create (cfg : ParserConfig) (json : jsstring) :
    reachable (Parser.create cfg json)
| reach_parse (now : Z) (text : jsstring) (p : Parser.t) :
    reachable p -> reachable (snd (Parser.parse now text p))
| reach_init (p : Parser.t) :
    reachable p -> reachable (Parser.finishInitialize p)
| reach_register (x : Parser.ProcessorPlugin) (p : Parser.t) :
    reachable p -> reachable (Parser.registerPlugin x p).

(** Every cached value satisfies [P]. *)
Definition cached_all (V : Type) (P : V -> Prop) (c : CacheManager.t V) : Prop :=
  Forall (fun e => P (CacheManager.value e)) (CacheManager.cache c).



(** Number of digits at the start of a string. *)
Fixpoint lead (s : jsstring) : nat :=
  match s with
  | c :: t => if is_digit c then S (lead t) else 0
  | [] => 0
  end.

(** A token boundary for a separator class [sep]: the text before a token
    is empty or ends with a separator, the text after it is empty or starts
    with one. *)
Fixpoint ends_with (sep : char -> bool) (pre : jsstring) : Prop :=
  match pre with
  | [] => True
  | [c] => sep c = true
  | _ :: t => ends_with sep t
  end.

Definition starts_with (sep : char -> bool) (post : jsstring) : Prop :=
  match post with
  | [] => True
  | c :: _ => sep c = true
  end.

Definition sep_opt (sep : char -> bool) (p : option char) : Prop :=
  match p with
  | None => True
  | Some c => sep c = true
  end.

Definition not_digit (c : char) : bool := negb (is_digit c).
Definition not_word (c : char) : bool := negb (is_word c).

(** The matched texts of a global scan, as [match] returns them. *)
Definition texts (r : regex) (skip i : nat) (p : option char) (s : jsstring)
  : list jsstring :=
  map m_text (scan r (fun m => [m]) (fun _ => []) skip i p s).

(** The name-line rule in the words of the specification, for a trimmed
    line: length in [2, 35], no leading digit, no reserved token, and more
    than six letters in ten characters. *)
Definition starts_with_digit (s : jsstring) : bool :=
  match s with
  | c :: _ => is_digit c
  | [] => false
  end.

Definition name_line_spec (s : jsstring) : bool :=
  (2 <=? length s) && (length s <=? 35)
  && negb (starts_with_digit s)
  && negb (test Preprocessor.KEYWORDS s)
  && (3 * length s <? 5 * length (filter Preprocessor.is_letter s)).

(** ** Definitions used by the further properties *)

(** The keys of a cache, in insertion order. *)
Definition cache_keys (V : Type) (c : CacheManager.t V) : list jsstring :=
  map (@CacheManager.key V) (CacheManager.cache c).

(** Consistency of a cache object: one entry per key, no entry under the
    empty key, a size counter that agrees with the map, and no more
    entries than the configured maximum (one entry at least fits). *)
Record cache_consistent (V : Type) (c : CacheManager.t V) : Prop := {
  keys_unique : NoDup (cache_keys c);
  keys_nonempty : Forall (fun k => k <> []) (cache_keys c);
  size_counter : CacheManager.size (CacheManager.stats c)
                 = CacheManager.map_size (CacheManager.cache c);
  size_bound : (CacheManager.map_size (CacheManager.cache c)
                <= Z.max 1 (maxSize (CacheManager.config c)))%Z
}.

(** A call that stores nothing under the empty key. *)
Definition proper_call (V : Type) (o : CacheAdmin.call V) : Prop :=
  match o with
  | CacheAdmin.Put _ k _ _ => k <> []
  | _ => True
  end.

(** The time to live [set] gives an entry. *)
Definition ttl_of (cfg : CacheConfig) (ttl_arg : option Z) : Z :=
  match ttl_arg with
  | Some z => if (z =? 0)%Z then ttl cfg else z
  | None => ttl cfg
  end.

(** A text whose lines all hold something other than white space. *)
Definition no_blank_line (text : jsstring) : Prop :=
  Forall (fun l => trim l <> []) (split LF text).

(** A list of priorities in the order [sort((a, b) => b.priority - a.priority)]
    leaves it: never increasing. *)
Fixpoint descending (l : list Z) : Prop :=
  match l with
  | [] => True
  | a :: r => Forall (fun b => (b <= a)%Z) r /\ descending r
  end.

(** A jugada without bets. *)
Definition no_bets (j : Jugada) : Prop :=
  detalles j = [] /\ totalCalculado j = of_Z 0 /\ warnings j = [] /\ errors j = [].

(** What every detail returned by the parle plugin satisfies for the line
    [text] it was read from. *)
Definition parle_detalle_ok (text : jsstring) (d : DetalleApuesta) : Prop :=
  (tipo d = parle \/ tipo d = fijo) /\
  lineaOriginal d = text /\
  numeros d <> [] /\
  monto d = Number.mul (of_nat (length (numeros d))) (montoUnitario d) /\
  (tipo d = parle -> 2 <= length (numeros d) /\ combinaciones d <> None).

(** An element at two positions of a list. *)
Definition occurs_twice (A : Type) (x : A) (l : list A) : Prop :=
  exists l1 l2, l = l1 ++ x :: l2 /\ In x l1.

(** The character of a decimal digit. *)
Definition digit_char (d : nat) : char := (48 + N.of_nat d)%N.

(** A string that holds neither a blank nor a line feed, as a number does. *)
Definition one_word (s : jsstring) : Prop := ~ In SP s /\ ~ In LF s.

(** A finite number that is 1 or more. *)
Definition one_or_more (x : number) : Prop :=
  match x with
  | Num q => (1 <= q)%Q
  | NaN => False
  end.

(* ================================================================= *)
(** * Properties *)

(** ** Evaluations of the pipeline on the documented examples *)

(** C1. On a new parser with the default configuration, [parse] of
    "05 10 con 20" succeeds with one jugada of player "Desconocido", but the
    jugada has no detail at all and a calculated total of 0: the
    preprocessor has turned "con" into "c0n", no plugin is registered, and
    [parseLinea] returns an empty array. The claimed Fijo detail of amount
    40 is not produced. *)
Theorem parse_simple_fijo_yields_no_detalle :
  forall (now : Z) (json : jsstring),
    let r := fst (Parser.parse now (js "05 10 con 20")
                    (Parser.create Parser.DEFAULT_CONFIG json)) in
    Parser.success r = true /\
    exists j,
      Parser.jugadas r = [j] /\
      jugador j = js "Desconocido" /\
      lineas j = [js "05 10 c0n 20"] /\
      detalles j = [] /\
      totalCalculado j = of_Z 0 /\
      isValid j = true.
Proof.
  intros now json r. subst r. split.
  - vm_compute. reflexivity.
  - eexists. split; [vm_compute; reflexivity|].
    repeat split; vm_compute; reflexivity.
Qed.

(** C3. [ParlePlugin.process] on "25*33 parle con 5" (regex object at
    [lastIndex] 0) emits one parle detail with the pair ("25","33"),
    one combination and unit amount 5, but its amount is 10:
    [createDetalle] multiplies the unit amount by the two numbers of the
    pair, and the extras of the parle plugin do not override [monto]. The
    same holds for every explicit pair: the amount is twice the unit
    amount. *)
Theorem parle_explicito_amount_is_doubled :
  (exists j d,
     ParlePlugin.process (Some Parser.DEFAULT_CONFIG) 0 (js "25*33 parle con 5")
       (ctx_of [js "25*33 parle con 5"]) = Ok (j, 0) /\
     detalles j = [d] /\
     tipo d = parle /\
     numeros d = [js "25"; js "33"] /\
     pares d = Some [(js "25", js "33")] /\
     combinaciones d = Some (of_Z 1) /\
     montoUnitario d = of_Z 5 /\
     monto d = of_Z 10 /\
     totalCalculado j = of_Z 10) /\
  (forall cfg text m,
     let d := ParlePlugin.explicitDetalle cfg text m in
     combinaciones d = Some (of_Z 1) /\
     monto d = Number.mul (of_nat 2) (montoUnitario d)).
Proof.
  split.
  - do 2 eexists. split; [vm_compute; reflexivity|].
    repeat split; vm_compute; reflexivity.
  - intros cfg text m d. subst d. split; reflexivity.
Qed.

(** C6. On a new parser with the default configuration, [parse] of the
    empty string returns [success = true] with no error and no jugada: the
    failed syntax validation is only raised in strict mode. In strict mode
    the result has [success = false], and its single error is the message of
    the [ValidationError], not the "Texto vacío" of the validator. *)
Theorem parse_empty_text_default_succeeds :
  forall (now : Z) (json : jsstring),
    let r := fst (Parser.parse now [] (Parser.create Parser.DEFAULT_CONFIG json)) in
    let s := fst (Parser.parse now [] (Parser.create STRICT_CONFIG json)) in
    Validator.sv_errors (Validator.validateSyntax Parser.DEFAULT_CONFIG
                           (Preprocessor.process Parser.DEFAULT_CONFIG []))
      = [[txt "Texto vacío"]] /\
    Parser.success r = true /\
    Parser.md_errors (Parser.pr_metadata r) = [] /\
    Parser.jugadas r = [] /\
    Parser.success s = false /\
    Parser.md_errors (Parser.pr_metadata s) = [[txt "Validación de sintaxis fallida"]] /\
    Parser.jugadas s = [].
Proof.
  intros now json r s. subst r s.
  repeat split; vm_compute; reflexivity.
Qed.

(** C7. The preprocessor is not idempotent: "L5" is lowered to "l5" after
    the confusable characters have been replaced, and a second pass turns
    the remaining "l" into "1". *)
Theorem preprocess_not_idempotent_on_L5 :
  Preprocessor.process Parser.DEFAULT_CONFIG (js "L5") = js "l5" /\
  Preprocessor.process Parser.DEFAULT_CONFIG
    (Preprocessor.process Parser.DEFAULT_CONFIG (js "L5")) = js "15" /\
  Preprocessor.process Parser.DEFAULT_CONFIG
    (Preprocessor.process Parser.DEFAULT_CONFIG (js "L5"))
    <> Preprocessor.process Parser.DEFAULT_CONFIG (js "L5").
Proof.
  repeat split; try (vm_compute; reflexivity).
  vm_compute. discriminate.
Qed.

(** C8. The name-line test of the block segmenter,
    [Validator.isNombreJugador], has no upper bound on the length: a line of
    36 letters is classified as a name, while the sibling test of the
    preprocessor rejects it. *)
Theorem validator_accepts_name_of_36_letters :
  let line := repeat (code "A") 36 in
  length (trim line) = 36 /\
  name_line_spec (trim line) = false /\
  Validator.isNombreJugador line = true /\
  Preprocessor.isNombreJugador line = false /\
  Parser.extractJugador line = line.
Proof.
  repeat split; vm_compute; reflexivity.
Qed.

(** ** The cache statistics *)

Section CacheFacts.

Variable V : Type.

Lemma cleanupExpired_counters (now : Z) (c : CacheManager.t V) :
  CacheManager.config (CacheManager.cleanupExpired now c) = CacheManager.config c /\
  CacheManager.hits (CacheManager.stats (CacheManager.cleanupExpired now c))
    = CacheManager.hits (CacheManager.stats c) /\
  CacheManager.misses (CacheManager.stats (CacheManager.cleanupExpired now c))
    = CacheManager.misses (CacheManager.stats c).
Proof. repeat split. Qed.

Lemma evictLeastUsed_counters (c : CacheManager.t V) :
  CacheManager.config (CacheManager.evictLeastUsed c) = CacheManager.config c /\
  CacheManager.hits (CacheManager.stats (CacheManager.evictLeastUsed c))
    = CacheManager.hits (CacheManager.stats c) /\
  CacheManager.misses (CacheManager.stats (CacheManager.evictLeastUsed c))
    = CacheManager.misses (CacheManager.stats c).
Proof.
  unfold CacheManager.evictLeastUsed.
  destruct (CacheManager.leastUsed (CacheManager.cache c) None) as [e|]; [|repeat split].
  destruct (CacheManager.key e); repeat split.
Qed.

Lemma set_counters (now : Z) (k : jsstring) (v : V) (ttl_arg : option Z) (c : CacheManager.t V) :
  CacheManager.config (CacheManager.set now k v ttl_arg c) = CacheManager.config c /\
  CacheManager.hits (CacheManager.stats (CacheManager.set now k v ttl_arg c))
    = CacheManager.hits (CacheManager.stats c) /\
  CacheManager.misses (CacheManager.stats (CacheManager.set now k v ttl_arg c))
    = CacheManager.misses (CacheManager.stats c).
Proof.
  unfold CacheManager.set.
  destruct (enabled (CacheManager.config c)); cbn [negb]; [|repeat split].
  destruct (maxSize _ <=? _)%Z; cbn [CacheManager.config CacheManager.stats
    CacheManager.hits CacheManager.misses].
  - destruct (evictLeastUsed_counters (CacheManager.cleanupExpired now c)) as (H1 & H2 & H3).
    rewrite H1, H2, H3. repeat split.
  - repeat split.
Qed.

Lemma get_counters (now : Z) (k : jsstring) (c : CacheManager.t V) :
  let c' := snd (CacheManager.get now k c) in
  CacheManager.config c' = CacheManager.config c /\
  (CacheManager.hits (CacheManager.stats c) <= CacheManager.hits (CacheManager.stats c'))%Z /\
  (CacheManager.misses (CacheManager.stats c) <= CacheManager.misses (CacheManager.stats c'))%Z /\
  (CacheManager.hits (CacheManager.stats c') + CacheManager.misses (CacheManager.stats c')
   = CacheManager.hits (CacheManager.stats c) + CacheManager.misses (CacheManager.stats c)
     + (if enabled (CacheManager.config c) then 1 else 0))%Z.
Proof.
  unfold CacheManager.get.
  destruct (enabled (CacheManager.config c)); cbn [negb snd].
  - destruct (CacheManager.map_get k (CacheManager.cache c)) as [e|].
    + destruct (CacheManager.expired now e); cbn; repeat split; lia.
    + cbn. repeat split; lia.
  - repeat split; lia.
Qed.


End CacheFacts.




(** ** Numbers *)

Lemma Qred_inject_Z (z : Z) : Qred (inject_Z z) = inject_Z z.
Proof. apply Qcanon.Qred_identity. cbn. apply Z.gcd_1_r. Qed.

Lemma Qred_eq_inject_Z (q : Q) (z : Z) : (q == inject_Z z)%Q -> Qred q = inject_Z z.
Proof.
  intros H. rewrite <- (Qred_inject_Z z). apply Qred_complete. exact H.
Qed.

Lemma Qltb_lt (x y : Q) : Number.Qltb x y = true <-> (x < y)%Q.
Proof. unfold Number.Qltb, Qlt. apply Z.ltb_lt. Qed.


(** ** Combinations *)

Lemma twice_triangular (n : nat) : exists k, n * (n - 1) = 2 * k.
Proof.
  induction n as [|n [k Hk]].
  - exists 0. reflexivity.
  - destruct n as [|n'].
    + exists 0. reflexivity.
    + exists (k + S n'). cbn [Nat.sub] in *. rewrite Nat.sub_0_r in *. lia.
Qed.

Lemma half_triangular (n : nat) : 2 * (n * (n - 1) / 2) = n * (n - 1).
Proof.
  destruct (twice_triangular n) as [k Hk]. rewrite Hk.
  rewrite (Nat.mul_comm 2 k), Nat.div_mul by discriminate. lia.
Qed.

Lemma length_pairs_of (A : Type) (l : list A) :
  length (pairs_of l) = length l * (length l - 1) / 2.
Proof.
  induction l as [|x r IH].
  - reflexivity.
  - cbn [pairs_of length]. rewrite length_app, length_map, IH.
    apply Nat.mul_cancel_l with (p := 2); [discriminate|].
    rewrite Nat.mul_add_distr_l, !half_triangular.
    cbn [Nat.sub]. rewrite Nat.sub_0_r.
    destruct (length r) as [|m]; [reflexivity|].
    cbn [Nat.sub]. rewrite Nat.sub_0_r. lia.
Qed.

Lemma calculateCombinations_value (n : nat) :
  2 <= n ->
  CandadoPlugin.calculateCombinations n = of_nat (n * (n - 1) / 2).
Proof.
  intros Hn. unfold CandadoPlugin.calculateCombinations.
  destruct (n <? 2) eqn:E; [apply Nat.ltb_lt in E; lia|].
  unfold Number.div, Number.mul, Number.sub, Number.lift2, of_nat, of_Z.
  assert (H2 : Qeq_bool (inject_Z 2) 0 = false) by reflexivity.
  rewrite H2. f_equal. apply Qred_eq_inject_Z.
  rewrite !Qred_correct.
  pose proof (half_triangular n) as Hh.
  set (k := n * (n - 1) / 2) in *.
  assert (Hz : (Z.of_nat n * (Z.of_nat n - 1) = 2 * Z.of_nat k)%Z).
  { rewrite <- Nat2Z.inj_mul with (n := 2). rewrite Hh.
    rewrite Nat2Z.inj_mul, Nat2Z.inj_sub by lia. reflexivity. }
  clearbody k.
  unfold Qeq, Qdiv, Qmult, Qminus, Qplus, Qopp, Qinv, inject_Z. cbn.
  rewrite !Z.mul_1_r. change (Z.of_nat n + -1)%Z with (Z.of_nat n - 1)%Z.
  rewrite Hz. lia.
Qed.

Lemma combinations_positive (n : nat) :
  2 <= n -> Number.gt (of_nat (n * (n - 1) / 2)) (of_Z 0) = true.
Proof.
  intros Hn. unfold Number.gt, Number.lt, of_nat, of_Z. apply Qltb_lt.
  pose proof (half_triangular n) as Hh.
  assert (2 * 1 <= n * (n - 1)) by (apply Nat.mul_le_mono; lia).
  set (k := n * (n - 1) / 2) in *. clearbody k.
  unfold Qlt, inject_Z. cbn. lia.
Qed.

(** C4. When a line matches the candado pattern with [n >= 2] base numbers
    and candado total [total], [CandadoPlugin.process] returns a jugada
    whose last detail is the only candado detail: it is over the base
    numbers, its [combinaciones] is the number of unordered pairs
    [n (n - 1) / 2], its unit amount is [total / combinaciones], and its
    amount is [total]. *)
Theorem candado_detalle_amounts :
  forall (cfg : ParserConfig) (text : jsstring) (context : PluginContext)
         (m : rmatch_result),
    exec PATTERNS.APUESTA_CANDADO text = Some m ->
    let nums := BasePlugin.extractNumbers (group_str m 1) in
    let n := length nums in
    let total := BasePlugin.parseMonto (group_str m 4) in
    2 <= n ->
    exists j d others,
      CandadoPlugin.process (Some cfg) text context = Ok j /\
      detalles j = others ++ [d] /\
      Forall (fun x => tipo x <> candado) others /\
      tipo d = candado /\
      numeros d = nums /\
      combinaciones d = Some (of_nat (length (pairs_of nums))) /\
      length (pairs_of nums) = n * (n - 1) / 2 /\
      montoUnitario d = Number.div total (of_nat (n * (n - 1) / 2)) /\
      monto d = total.
Proof.
  intros cfg text context m Hm nums n total Hn.
  unfold CandadoPlugin.process. cbn [BasePlugin.ensureInitialized]. rewrite Hm.
  unfold CandadoPlugin.candadoDetalles. fold nums. fold n.
  destruct (2 <=? n) eqn:E; [|apply Nat.leb_gt in E; lia].
  rewrite (calculateCombinations_value Hn), (combinations_positive Hn).
  fold total.
  eexists. eexists. eexists.
  split; [reflexivity|].
  cbn [detalles BasePlugin.createJugada].
  split; [rewrite app_assoc; reflexivity|].
  split.
  - apply Forall_app. split.
    + destruct (negb (isNaN _)); repeat constructor; discriminate.
    + destruct (option_map _ _) as [mc|]; [|constructor].
      destruct (negb (isNaN mc)); repeat constructor; discriminate.
  - cbn. rewrite length_pairs_of. fold n. repeat split.
Qed.

(** C4, an instance: the candado line of the test fixtures. *)
Lemma candado_detalle_amounts_witness :
  let text := js "26 78 98 45 con 1 y 3 candado con 50" in
  exists m,
    exec PATTERNS.APUESTA_CANDADO text = Some m /\
    2 <= length (BasePlugin.extractNumbers (group_str m 1)) /\
    exists j d others,
      CandadoPlugin.process (Some Parser.DEFAULT_CONFIG) text (ctx_of [text]) = Ok j /\
      detalles j = others ++ [d] /\
      Forall (fun x => tipo x <> candado) others /\
      tipo d = candado /\
      numeros d = BasePlugin.extractNumbers (group_str m 1) /\
      combinaciones d
        = Some (of_nat (length (pairs_of (BasePlugin.extractNumbers (group_str m 1))))) /\
      length (pairs_of (BasePlugin.extractNumbers (group_str m 1)))
        = length (BasePlugin.extractNumbers (group_str m 1))
          * (length (BasePlugin.extractNumbers (group_str m 1)) - 1) / 2 /\
      montoUnitario d
        = Number.div (BasePlugin.parseMonto (group_str m 4))
            (of_nat (length (BasePlugin.extractNumbers (group_str m 1))
                     * (length (BasePlugin.extractNumbers (group_str m 1)) - 1) / 2)) /\
      monto d = BasePlugin.parseMonto (group_str m 4).
Proof.
  intros text. eexists.
  split; [vm_compute; reflexivity|].
  split; [vm_compute; lia|].
  apply (@candado_detalle_amounts Parser.DEFAULT_CONFIG text (ctx_of [text])).
  - vm_compute. reflexivity.
  - vm_compute. lia.
Defined.

(** ** Cached values *)

Section CachedValues.

Variable V : Type.
Variable P : V -> Prop.

Lemma Forall_filter_keep (A : Type) (Q : A -> Prop) (f : A -> bool) (l : list A) :
  Forall Q l -> Forall Q (filter f l).
Proof.
  induction 1 as [|x l Hx Hl IH]; cbn; [constructor|].
  destruct (f x); [constructor; assumption|assumption].
Qed.

Lemma map_set_ok (e : CacheManager.CacheEntry V) (m : list (CacheManager.CacheEntry V)) :
  P (CacheManager.value e) ->
  Forall (fun x => P (CacheManager.value x)) m ->
  Forall (fun x => P (CacheManager.value x)) (CacheManager.map_set e m).
Proof.
  intros He. induction 1 as [|x l Hx Hl IH]; cbn.
  - constructor; [exact He|constructor].
  - destruct (JS.eqb (CacheManager.key x) (CacheManager.key e));
      constructor; assumption.
Qed.

Lemma cleanupExpired_ok (now : Z) (c : CacheManager.t V) :
  cached_all P c -> cached_all P (CacheManager.cleanupExpired now c).
Proof. unfold cached_all. cbn. apply Forall_filter_keep. Qed.

Lemma evictLeastUsed_ok (c : CacheManager.t V) :
  cached_all P c -> cached_all P (CacheManager.evictLeastUsed c).
Proof.
  unfold cached_all, CacheManager.evictLeastUsed. intros H.
  destruct (CacheManager.leastUsed (CacheManager.cache c) None) as [e|]; [|exact H].
  destruct (CacheManager.key e); [exact H|].
  cbn. apply Forall_filter_keep. exact H.
Qed.

Lemma set_ok (now : Z) (k : jsstring) (v : V) (ttl_arg : option Z) (c : CacheManager.t V) :
  P v -> cached_all P c -> cached_all P (CacheManager.set now k v ttl_arg c).
Proof.
  intros Hv Hc. unfold CacheManager.set.
  destruct (negb (enabled (CacheManager.config c))); [exact Hc|].
  unfold cached_all. cbn [CacheManager.cache].
  apply map_set_ok; [exact Hv|].
  destruct (maxSize _ <=? _)%Z.
  - apply evictLeastUsed_ok, cleanupExpired_ok, Hc.
  - apply cleanupExpired_ok, Hc.
Qed.

Lemma get_ok (now : Z) (k : jsstring) (c : CacheManager.t V) :
  cached_all P c ->
  cached_all P (snd (CacheManager.get now k c)) /\
  forall v, fst (CacheManager.get now k c) = Some v -> P v.
Proof.
  intros Hc. unfold CacheManager.get.
  destruct (negb (enabled (CacheManager.config c))).
  { split; [exact Hc|discriminate]. }
  destruct (CacheManager.map_get k (CacheManager.cache c)) as [e|] eqn:E.
  - assert (He : P (CacheManager.value e)).
    { unfold CacheManager.map_get in E. apply find_some in E. destruct E as [Hin _].
      unfold cached_all in Hc. rewrite Forall_forall in Hc. apply Hc, Hin. }
    destruct (CacheManager.expired now e); cbn [fst snd].
    + split; [|discriminate]. unfold cached_all. cbn. apply Forall_filter_keep, Hc.
    + split.
      * unfold cached_all. cbn [CacheManager.cache]. apply map_set_ok; [exact He|exact Hc].
      * intros v [= <-]. exact He.
  - cbn [fst snd]. split; [exact Hc|discriminate].
Qed.

End CachedValues.

(** ** The parser: results and cached results *)

Lemma lookup_ok (P : Parser.ParseResult -> Prop) (now : Z) (text : jsstring) (p : Parser.t) :
  cached_all P (Parser.cache p) ->
  cached_all P (snd (Parser.lookup now text p)) /\
  forall r, fst (Parser.lookup now text p) = Some r -> P r.
Proof.
  intros Hc. unfold Parser.lookup.
  assert (H0 : cached_all P (if Parser.isInitialized p then Parser.cache p
                             else CacheManager.initialize now (Parser.cache p))).
  { destruct (Parser.isInitialized p); [exact Hc|apply cleanupExpired_ok, Hc]. }
  destruct (enabled (Types.cache (Parser.config p))).
  - apply get_ok, H0.
  - split; [exact H0|discriminate].
Qed.

(** The three ways [parse] returns: a cached result, a fresh result, or the
    result of the [catch] clause. *)
Lemma parse_cases (now : Z) (text : jsstring) (p : Parser.t) :
  let r := fst (Parser.parse now text p) in
  let c1 := snd (Parser.lookup now text p) in
  fst (Parser.lookup now text p) = Some r \/
  (fst (Parser.lookup now text p) = None /\
   Parser.parseFresh p text (CacheManager.getStats c1) = Ok r) \/
  (fst (Parser.lookup now text p) = None /\
   exists e, Parser.parseFresh p text (CacheManager.getStats c1) = Throw e /\
             r = Parser.failure text e (CacheManager.getStats c1)).
Proof.
  unfold Parser.parse.
  destruct (Parser.lookup now text p) as [[r0|] c1]; cbn [fst snd].
  - left. reflexivity.
  - right. destruct (Parser.parseFresh p text (CacheManager.getStats c1)) as [e|r0];
      cbn [fst].
    + right. split; [reflexivity|]. exists e. split; reflexivity.
    + left. split; reflexivity.
Qed.

Lemma parse_keeps_cached (P : Parser.ParseResult -> Prop) (now : Z) (text : jsstring)
  (p : Parser.t) :
  cached_all P (Parser.cache p) ->
  (forall st r, Parser.parseFresh p text st = Ok r -> Parser.success r = true -> P r) ->
  cached_all P (Parser.cache (snd (Parser.parse now text p))).
Proof.
  intros Hc Hfresh. unfold Parser.parse.
  destruct (lookup_ok now text p Hc) as [H1 _].
  destruct (Parser.lookup now text p) as [[r0|] c1]; cbn [fst snd] in *.
  - exact H1.
  - destruct (Parser.parseFresh p text (CacheManager.getStats c1)) as [e|r0] eqn:E;
      cbn [snd Parser.with_cache Parser.cache].
    + exact H1.
    + destruct (enabled _ && Parser.success r0) eqn:Es; [|exact H1].
      apply andb_prop in Es. destruct Es as [_ Es].
      apply set_ok; [|exact H1]. eapply Hfresh; eassumption.
Qed.

Lemma parse_keeps_plugins (now : Z) (text : jsstring) (p : Parser.t) :
  Parser.plugins (snd (Parser.parse now text p)) = Parser.plugins p.
Proof.
  unfold Parser.parse.
  destruct (Parser.lookup now text p) as [[r0|] c1]; [reflexivity|].
  destruct (Parser.parseFresh p text (CacheManager.getStats c1)); reflexivity.
Qed.











(** ** The validity rule of a jugada *)













(** ** Scanning with a regex that matches inside a run of digits *)

Lemma lead_le_length (s : jsstring) : lead s <= List.length s.
Proof.
  induction s as [|c t IH]; cbn; [lia|]. destruct (is_digit c); lia.
Qed.

Section ScanLocality.

Variable r : regex.
Variable sep : char -> bool.

Hypothesis sep_not_digit : forall c, sep c = true -> is_digit c = false.

Hypothesis match_local :
  forall p pre rest, pre <> [] -> ends_with sep pre ->
    match_here r p (pre ++ rest) = match_here r p pre.

Hypothesis match_in_run :
  forall p s len cs, match_here r p s = Some (len, cs) -> 1 <= len /\ len <= lead s.

Hypothesis match_token :
  forall p tok post,
    sep_opt sep p -> forallb is_digit tok = true ->
    1 <= List.length tok -> List.length tok <= 4 -> starts_with sep post ->
    exists cs, match_here r p (tok ++ post) = Some (List.length tok, cs).

Lemma texts_index (s : jsstring) :
  forall skip i i' p, texts r skip i p s = texts r skip i' p s.
Proof.
  unfold texts. induction s as [|c t IH]; intros skip i i' p.
  - destruct skip; cbn; [|reflexivity].
    destruct (match_here r p []) as [[len cs]|]; reflexivity.
  - destruct skip as [|n]; cbn.
    + destruct (match_here r p (c :: t)) as [[len cs]|].
      * cbn. f_equal. destruct (len =? 0); cbn; apply IH.
      * cbn. apply IH.
    + apply IH.
Qed.

Lemma ends_with_tail (c : char) (t : jsstring) :
  ends_with sep (c :: t) -> t <> [] -> ends_with sep t.
Proof. destruct t; [congruence|]. cbn. auto. Qed.

Lemma ends_with_digit_head (c : char) (t : jsstring) :
  ends_with sep (c :: t) -> is_digit c = true -> ends_with sep t /\ t <> [].
Proof.
  intros H Hd. destruct t as [|c' t'].
  - cbn in H. apply sep_not_digit in H. congruence.
  - split; [exact H|discriminate].
Qed.

Lemma ends_with_last_nonempty (pre : jsstring) :
  pre <> [] -> ends_with sep pre -> forall p, sep_opt sep (last_of p pre).
Proof.
  induction pre as [|c t IH]; intros Hne H p; [congruence|].
  cbn [last_of]. destruct t as [|c' t'].
  - exact H.
  - apply IH; [discriminate|exact H].
Qed.

Lemma ends_with_last (pre : jsstring) (p : option char) :
  sep_opt sep p -> ends_with sep pre -> sep_opt sep (last_of p pre).
Proof.
  intros Hp H. destruct pre as [|c t]; [exact Hp|].
  apply ends_with_last_nonempty; [discriminate|exact H].
Qed.

Lemma match_here_nil (p : option char) : match_here r p [] = None.
Proof.
  destruct (match_here r p []) as [[len cs]|] eqn:E; [|reflexivity].
  apply match_in_run in E. cbn in E. lia.
Qed.

Lemma match_here_sep (p : option char) (c : char) (s : jsstring) :
  sep c = true -> match_here r p (c :: s) = None.
Proof.
  intros Hc. destruct (match_here r p (c :: s)) as [[len cs]|] eqn:E; [|reflexivity].
  apply match_in_run in E. cbn in E. rewrite (@sep_not_digit _ Hc) in E. lia.
Qed.

(** Skipping over the rest of a match. *)
Lemma texts_skip (a : jsstring) :
  forall i p b, texts r (List.length a) i p (a ++ b) = texts r 0 i (last_of p a) b.
Proof.
  induction a as [|c t IH]; intros i p b; [reflexivity|].
  cbn [List.length app last_of]. unfold texts at 1. cbn [scan]. fold (texts r (List.length t) (S i) (Some c) (t ++ b)).
  rewrite IH. apply texts_index.
Qed.

(** The matches found before a boundary do not depend on what follows. *)
Lemma texts_prefix (pre : jsstring) :
  forall skip i p rest,
    ends_with sep pre -> skip <= lead pre ->
    texts r skip i p (pre ++ rest)
    = texts r skip i p pre ++ texts r 0 i (last_of p pre) rest.
Proof.
  induction pre as [|c t IH]; intros skip i p rest Hend Hskip.
  - cbn in Hskip. assert (skip = 0) by lia. subst skip. cbn [app last_of].
    unfold texts at 2. cbn [scan]. rewrite match_here_nil. reflexivity.
  - cbn [last_of]. destruct skip as [|n].
    + unfold texts at 1 2. cbn [app scan].
      change (c :: t ++ rest) with ((c :: t) ++ rest).
      rewrite match_local by (discriminate || exact Hend).
      destruct (match_here r p (c :: t)) as [[len cs]|] eqn:E.
      * destruct (@match_in_run _ _ _ _ E) as [H1 H2].
        assert (Hd : is_digit c = true).
        { cbn in H2. destruct (is_digit c); [reflexivity|lia]. }
        destruct (@ends_with_digit_head _ _ Hend Hd) as [Hend' Hne].
        assert (Hlen : len <= List.length (c :: t)).
        { etransitivity; [exact H2|apply lead_le_length]. }
        rewrite firstn_app.
        replace (len - List.length (c :: t)) with 0 by lia.
        cbn [firstn]. rewrite app_nil_r.
        destruct (len =? 0) eqn:E0; [apply Nat.eqb_eq in E0; lia|].
        cbn [map app]. f_equal.
        fold (texts r (len - 1) (S i) (Some c) (t ++ rest)).
        fold (texts r (len - 1) (S i) (Some c) t).
        rewrite IH; [|exact Hend'|cbn in H2; rewrite Hd in H2; lia].
        f_equal. apply texts_index.
      * cbn [app map].
        fold (texts r 0 (S i) (Some c) (t ++ rest)).
        fold (texts r 0 (S i) (Some c) t).
        destruct t as [|c' t'].
        -- cbn [app last_of]. unfold texts at 2. cbn [scan].
           rewrite match_here_nil. cbn [map app]. apply texts_index.
        -- rewrite IH; [|exact Hend|lia]. f_equal. apply texts_index.
    + unfold texts at 1 2. cbn [app scan].
      fold (texts r n (S i) (Some c) (t ++ rest)).
      fold (texts r n (S i) (Some c) t).
      assert (Hd : is_digit c = true).
      { cbn in Hskip. destruct (is_digit c); [reflexivity|lia]. }
      destruct (@ends_with_digit_head _ _ Hend Hd) as [Hend' Hne].
      rewrite IH; [|exact Hend'|cbn in Hskip; rewrite Hd in Hskip; lia].
      f_equal. apply texts_index.
Qed.

(** What follows a boundary is scanned as if it stood alone. *)
Lemma texts_fresh_start (post : jsstring) (i : nat) (p : option char) :
  starts_with sep post -> texts r 0 i p post = texts r 0 0 None post.
Proof.
  intros H. destruct post as [|c s].
  - unfold texts. cbn [scan]. rewrite !match_here_nil. reflexivity.
  - unfold texts. cbn [scan]. cbn in H. rewrite !match_here_sep by exact H.
    cbn [app map]. apply texts_index.
Qed.

(** A token of one to four digits between two boundaries is one match. *)
Lemma texts_token (pre tok post : jsstring) :
  ends_with sep pre -> starts_with sep post ->
  forallb is_digit tok = true -> 1 <= List.length tok -> List.length tok <= 4 ->
  texts r 0 0 None (pre ++ tok ++ post)
  = texts r 0 0 None pre ++ [tok] ++ texts r 0 0 None post.
Proof.
  intros Hpre Hpost Hdig H1 H4.
  rewrite texts_prefix; [|exact Hpre|lia]. f_equal.
  assert (Hp : sep_opt sep (last_of None pre)) by (apply ends_with_last; [exact I|exact Hpre]).
  destruct (@match_token _ _ _ Hp Hdig H1 H4 Hpost) as [cs Hm].
  destruct tok as [|d tok']; [cbn in H1; lia|].
  unfold texts at 1. cbn [app scan].
  change (d :: tok' ++ post) with ((d :: tok') ++ post). rewrite Hm.
  rewrite firstn_app, Nat.sub_diag, firstn_all. cbn [firstn]. rewrite app_nil_r.
  cbn [List.length Nat.eqb Nat.sub]. rewrite Nat.sub_0_r.
  cbn [app map]. f_equal.
  fold (texts r (List.length tok') 1 (Some d) (tok' ++ post)).
  rewrite texts_skip. apply texts_fresh_start. exact Hpost.
Qed.

End ScanLocality.

(** ** The two number patterns *)

Lemma digit_is_word (c : char) : is_digit c = true -> is_word c = true.
Proof. unfold is_word. intros ->. reflexivity. Qed.

Lemma not_word_not_digit (c : char) : not_word c = true -> is_digit c = false.
Proof.
  unfold not_word. intros H. apply negb_true_iff in H.
  destruct (is_digit c) eqn:E; [|reflexivity].
  rewrite (digit_is_word _ E) in H. discriminate.
Qed.

Lemma not_digit_not_digit (c : char) : not_digit c = true -> is_digit c = false.
Proof. unfold not_digit. apply negb_true_iff. Qed.

(** [/\d{1,4}/] matches the longest run of at most four digits. *)
Lemma digits_1_4_spec (p : option char) (s : jsstring) :
  match_here (rep 1 4 digit) p s =
  match Nat.min 4 (lead s) with
  | 0 => None
  | n => Some (n, [])
  end.
Proof.
  unfold match_here, rep, digit.
  destruct s as [|c1 [|c2 [|c3 [|c4 s]]]]; cbn;
    repeat match goal with
           | |- context [is_digit ?c] => destruct (is_digit c) eqn:?; cbn
           end; reflexivity.
Qed.

Ltac case_char c :=
  let Hd := fresh "Hd" in
  let Hw := fresh "Hw" in
  destruct (is_digit c) eqn:Hd;
  [ pose proof (digit_is_word _ Hd) as Hw | destruct (is_word c) eqn:Hw ].

Ltac use_char_facts :=
  repeat match goal with
         | H : is_digit ?c = _ |- context [is_digit ?c] => rewrite H
         | H : is_word ?c = _ |- context [is_word ?c] => rewrite H
         end.

(** [/\b\d{1,4}\b/] matches a whole run of one to four digits that is not
    next to a word character. *)
Lemma NUMERO_spec (p : option char) (s : jsstring) :
  match_here BasePlugin.NUMERO p s =
  if is_word_opt p then None
  else
    let n := lead s in
    if (1 <=? n) && (n <=? 4) && negb (is_word_opt (nth_error s n))
    then Some (n, []) else None.
Proof.
  unfold match_here, BasePlugin.NUMERO, rep, digit.
  destruct p as [pc|]; [destruct (is_word pc) eqn:Hp|];
  (destruct s as [|c1 [|c2 [|c3 [|c4 [|c5 s]]]]];
   try case_char c1; try case_char c2; try case_char c3; try case_char c4;
   try case_char c5;
   cbn; use_char_facts; cbn; use_char_facts; cbn; use_char_facts; cbn;
   use_char_facts; cbn; use_char_facts; cbn; try reflexivity).
Qed.

Section Runs.

Variable sep : char -> bool.
Hypothesis sep_not_digit : forall c, sep c = true -> is_digit c = false.

Lemma lead_app_boundary (pre rest : jsstring) :
  pre <> [] -> ends_with sep pre ->
  lead (pre ++ rest) = lead pre /\ lead pre < List.length pre.
Proof.
  induction pre as [|c t IH]; intros Hne H; [congruence|].
  cbn [app lead List.length]. destruct t as [|c' t'].
  - cbn in H. rewrite (@sep_not_digit _ H). cbn. lia.
  - destruct (is_digit c); [|cbn; lia].
    destruct IH as [IH1 IH2]; [discriminate|exact H|].
    rewrite IH1. cbn [List.length] in *. lia.
Qed.

Lemma lead_token (tok post : jsstring) :
  forallb is_digit tok = true -> starts_with sep post ->
  lead (tok ++ post) = List.length tok.
Proof.
  induction tok as [|c t IH]; cbn; intros Ht Hp.
  - destruct post as [|c s]; cbn in *; [reflexivity|].
    rewrite (@sep_not_digit _ Hp). reflexivity.
  - apply andb_prop in Ht. destruct Ht as [Hc Ht]. rewrite Hc, IH; auto.
Qed.

End Runs.

Lemma digits_1_4_local (p : option char) (pre rest : jsstring) :
  pre <> [] -> ends_with not_digit pre ->
  match_here (rep 1 4 digit) p (pre ++ rest) = match_here (rep 1 4 digit) p pre.
Proof.
  intros Hne H. rewrite !digits_1_4_spec.
  destruct (@lead_app_boundary not_digit not_digit_not_digit pre rest Hne H) as [-> _]. reflexivity.
Qed.

Lemma digits_1_4_in_run (p : option char) (s : jsstring) (len : nat)
  (cs : list (nat * jsstring)) :
  match_here (rep 1 4 digit) p s = Some (len, cs) -> 1 <= len /\ len <= lead s.
Proof.
  rewrite digits_1_4_spec.
  destruct (Nat.min 4 (lead s)) as [|n] eqn:E; [discriminate|].
  intros [= <- _]. lia.
Qed.

Lemma digits_1_4_token (p : option char) (tok post : jsstring) :
  sep_opt not_digit p -> forallb is_digit tok = true ->
  1 <= List.length tok -> List.length tok <= 4 -> starts_with not_digit post ->
  exists cs, match_here (rep 1 4 digit) p (tok ++ post) = Some (List.length tok, cs).
Proof.
  intros _ Hd H1 H4 Hpost. exists []. rewrite digits_1_4_spec.
  rewrite (@lead_token not_digit not_digit_not_digit tok post Hd Hpost).
  rewrite Nat.min_r by exact H4.
  destruct (List.length tok); [lia|reflexivity].
Qed.

Lemma NUMERO_local (p : option char) (pre rest : jsstring) :
  pre <> [] -> ends_with not_word pre ->
  match_here BasePlugin.NUMERO p (pre ++ rest) = match_here BasePlugin.NUMERO p pre.
Proof.
  intros Hne H. rewrite !NUMERO_spec.
  destruct (@lead_app_boundary not_word not_word_not_digit pre rest Hne H) as [-> Hlt].
  cbn zeta. rewrite nth_error_app1 by exact Hlt. reflexivity.
Qed.

Lemma NUMERO_in_run (p : option char) (s : jsstring) (len : nat)
  (cs : list (nat * jsstring)) :
  match_here BasePlugin.NUMERO p s = Some (len, cs) -> 1 <= len /\ len <= lead s.
Proof.
  rewrite NUMERO_spec. destruct (is_word_opt p); [discriminate|]. cbn zeta.
  destruct ((1 <=? lead s) && (lead s <=? 4) && _) eqn:E; [|discriminate].
  intros [= <- _]. apply andb_prop in E. destruct E as [E _].
  apply andb_prop in E. destruct E as [E _]. apply Nat.leb_le in E. lia.
Qed.

Lemma NUMERO_token (p : option char) (tok post : jsstring) :
  sep_opt not_word p -> forallb is_digit tok = true ->
  1 <= List.length tok -> List.length tok <= 4 -> starts_with not_word post ->
  exists cs, match_here BasePlugin.NUMERO p (tok ++ post) = Some (List.length tok, cs).
Proof.
  intros Hp Hd H1 H4 Hpost. exists []. rewrite NUMERO_spec.
  assert (Hpw : is_word_opt p = false).
  { destruct p as [c|]; [|reflexivity]. cbn in *. unfold not_word in Hp.
    apply negb_true_iff. exact Hp. }
  rewrite Hpw. cbn zeta.
  rewrite (@lead_token not_word not_word_not_digit tok post Hd Hpost).
  rewrite nth_error_app2, Nat.sub_diag by lia.
  assert (Hq : is_word_opt (nth_error post 0) = false).
  { destruct post as [|c s]; [reflexivity|]. cbn in *. unfold not_word in Hpost.
    apply negb_true_iff. exact Hpost. }
  rewrite Hq.
  destruct (Nat.leb_spec 1 (List.length tok)); [|lia].
  destruct (Nat.leb_spec (List.length tok) 4); [|lia].
  reflexivity.
Qed.

(** ** The number extractors *)

Lemma collectNumbers_app (a b : list jsstring) :
  BasePlugin.collectNumbers (a ++ b)
  = BasePlugin.collectNumbers a ++ BasePlugin.collectNumbers b.
Proof.
  induction a as [|m r IH]; [reflexivity|].
  cbn [app BasePlugin.collectNumbers].
  destruct (List.length m =? 2); [cbn; f_equal; exact IH|].
  destruct (List.length m =? 3); [cbn; f_equal; exact IH|].
  destruct (List.length m =? 4); [cbn; do 2 f_equal; exact IH|exact IH].
Qed.

Lemma collectNumbers_lengths (ms : list jsstring) (s : jsstring) :
  In s (BasePlugin.collectNumbers ms) -> List.length s = 2 \/ List.length s = 3.
Proof.
  induction ms as [|m r IH]; cbn [BasePlugin.collectNumbers]; [intros []|].
  destruct (List.length m =? 2) eqn:E2.
  { intros [<- | H]; [left; apply Nat.eqb_eq, E2|apply IH, H]. }
  destruct (List.length m =? 3) eqn:E3.
  { intros [<- | H]; [right; apply Nat.eqb_eq, E3|apply IH, H]. }
  destruct (List.length m =? 4) eqn:E4; [|exact IH].
  apply Nat.eqb_eq in E4.
  intros [<- | [<- | H]]; [left|left|apply IH, H];
    unfold substring; rewrite length_firstn, length_skipn; lia.
Qed.

(** C10. Both number extractors ([Preprocessor.extractNumbers], on
    [/\d{1,4}/g], and [BasePlugin.extractNumbers], on [/\b\d{1,4}\b/g])
    return only strings of length 2 or 3; a token of one digit between two
    boundaries contributes nothing to the output; and a token of four
    digits between two boundaries contributes its first two digits and then
    its last two digits, at its place in the output. A boundary is an end
    of the input or a character that is not a digit (for the preprocessor)
    or not a word character (for the plugins). *)
Theorem extractNumbers_lengths_and_tokens :
  (forall text s,
     In s (Preprocessor.extractNumbers text) \/ In s (BasePlugin.extractNumbers text) ->
     length s = 2 \/ length s = 3) /\
  (forall pre post d,
     is_digit d = true ->
     (ends_with not_digit pre -> starts_with not_digit post ->
      Preprocessor.extractNumbers (pre ++ [d] ++ post)
      = Preprocessor.extractNumbers pre ++ Preprocessor.extractNumbers post) /\
     (ends_with not_word pre -> starts_with not_word post ->
      BasePlugin.extractNumbers (pre ++ [d] ++ post)
      = BasePlugin.extractNumbers pre ++ BasePlugin.extractNumbers post)) /\
  (forall pre post a b c d,
     is_digit a = true -> is_digit b = true -> is_digit c = true -> is_digit d = true ->
     (ends_with not_digit pre -> starts_with not_digit post ->
      Preprocessor.extractNumbers (pre ++ [a; b; c; d] ++ post)
      = Preprocessor.extractNumbers pre ++ [[a; b]; [c; d]]
        ++ Preprocessor.extractNumbers post) /\
     (ends_with not_word pre -> starts_with not_word post ->
      BasePlugin.extractNumbers (pre ++ [a; b; c; d] ++ post)
      = BasePlugin.extractNumbers pre ++ [[a; b]; [c; d]]
        ++ BasePlugin.extractNumbers post)).
Proof.
  assert (HP : forall pre tok post,
             ends_with not_digit pre -> starts_with not_digit post ->
             forallb is_digit tok = true -> 1 <= length tok -> length tok <= 4 ->
             Preprocessor.extractNumbers (pre ++ tok ++ post)
             = Preprocessor.extractNumbers pre ++ BasePlugin.collectNumbers [tok]
               ++ Preprocessor.extractNumbers post).
  { intros pre tok post Hpre Hpost Hd H1 H4.
    unfold Preprocessor.extractNumbers, match_all.
    change (map m_text (scan (rep 1 4 digit) (fun m => [m]) (fun _ => []) 0 0 None
                          (pre ++ tok ++ post)))
      with (texts (rep 1 4 digit) 0 0 None (pre ++ tok ++ post)).
    rewrite (@texts_token (rep 1 4 digit) not_digit not_digit_not_digit
               digits_1_4_local digits_1_4_in_run digits_1_4_token
               pre tok post Hpre Hpost Hd H1 H4).
    rewrite !collectNumbers_app. reflexivity. }
  assert (HB : forall pre tok post,
             ends_with not_word pre -> starts_with not_word post ->
             forallb is_digit tok = true -> 1 <= length tok -> length tok <= 4 ->
             BasePlugin.extractNumbers (pre ++ tok ++ post)
             = BasePlugin.extractNumbers pre ++ BasePlugin.collectNumbers [tok]
               ++ BasePlugin.extractNumbers post).
  { intros pre tok post Hpre Hpost Hd H1 H4.
    unfold BasePlugin.extractNumbers, match_all.
    change (map m_text (scan BasePlugin.NUMERO (fun m => [m]) (fun _ => []) 0 0 None
                          (pre ++ tok ++ post)))
      with (texts BasePlugin.NUMERO 0 0 None (pre ++ tok ++ post)).
    rewrite (@texts_token BasePlugin.NUMERO not_word not_word_not_digit
               NUMERO_local NUMERO_in_run NUMERO_token
               pre tok post Hpre Hpost Hd H1 H4).
    rewrite !collectNumbers_app. reflexivity. }
  split; [|split].
  - intros text s [H | H]; eapply collectNumbers_lengths; exact H.
  - intros pre post d Hd. split; intros Hpre Hpost.
    + rewrite (HP pre [d] post Hpre Hpost); cbn; [reflexivity|rewrite Hd; reflexivity|lia|lia].
    + rewrite (HB pre [d] post Hpre Hpost); cbn; [reflexivity|rewrite Hd; reflexivity|lia|lia].
  - intros pre post a b c d Ha Hb Hc Hd. split; intros Hpre Hpost.
    + rewrite (HP pre [a; b; c; d] post Hpre Hpost); cbn;
        [reflexivity|rewrite Ha, Hb, Hc, Hd; reflexivity|lia|lia].
    + rewrite (HB pre [a; b; c; d] post Hpre Hpost); cbn;
        [reflexivity|rewrite Ha, Hb, Hc, Hd; reflexivity|lia|lia].
Qed.

(** C10, an instance: the tokens "7" and "1001" between "05 " and " 20". *)
Lemma extractNumbers_lengths_and_tokens_witness :
  (is_digit (code "7") = true /\
   ends_with not_word (js "05 ") /\ starts_with not_word (js " 20") /\
   BasePlugin.extractNumbers (js "05 " ++ [code "7"] ++ js " 20")
   = BasePlugin.extractNumbers (js "05 ") ++ BasePlugin.extractNumbers (js " 20")) /\
  (is_digit (code "1") = true /\ is_digit (code "0") = true /\
   ends_with not_digit (js "05 ") /\ starts_with not_digit (js " 20") /\
   Preprocessor.extractNumbers
     (js "05 " ++ [code "1"; code "0"; code "0"; code "1"] ++ js " 20")
   = Preprocessor.extractNumbers (js "05 ") ++ [[code "1"; code "0"]; [code "0"; code "1"]]
     ++ Preprocessor.extractNumbers (js " 20")).
Proof.
  destruct extractNumbers_lengths_and_tokens as [_ [H1 H4]].
  split.
  - split; [reflexivity|]. split; [reflexivity|]. split; [reflexivity|].
    apply (proj2 (H1 (js "05 ") (js " 20") (code "7") eq_refl)); reflexivity.
  - split; [reflexivity|]. split; [reflexivity|]. split; [reflexivity|].
    split; [reflexivity|].
    apply (proj1 (H4 (js "05 ") (js " 20") (code "1") (code "0") (code "0") (code "1")
                     eq_refl eq_refl eq_refl eq_refl)); reflexivity.
Defined.

(** ** The name-line test *)

Lemma search_after_start (r : regex) (s : jsstring) :
  forall c i, search_from (Seq InputStart r) (Some c) s i = None.
Proof.
  induction s as [|d t IH]; intros c i; cbn; [reflexivity|apply IH].
Qed.

Lemma starts_with_digit_test (s : jsstring) :
  test Preprocessor.STARTS_WITH_DIGIT s = starts_with_digit s.
Proof.
  unfold test, exec, Preprocessor.STARTS_WITH_DIGIT, cat, digit. cbn [fold_right].
  destruct s as [|c t]; [reflexivity|].
  cbn [search_from]. unfold match_here. cbn.
  destruct (is_digit c); [reflexivity|].
  rewrite search_after_start. reflexivity.
Qed.

Lemma scan_class_length (p : char -> bool) (s : jsstring) :
  forall i q, length (scan (Char p) (fun m => [m]) (fun _ => []) 0 i q s)
              = length (filter p s).
Proof.
  induction s as [|c t IH]; intros i q; [reflexivity|].
  cbn [scan filter]. unfold match_here. cbn.
  destruct (p c); cbn; rewrite IH; reflexivity.
Qed.

Lemma letterCount_filter (s : jsstring) :
  Preprocessor.letterCount s = length (filter Preprocessor.is_letter s).
Proof. apply scan_class_length. Qed.

(** Below 36 characters the test of the validator is the rule of the
    specification; the rule rejects every longer line. *)
Lemma validator_name_line_up_to_35 (line : jsstring) :
  length (trim line) <= 35 ->
  Validator.isNombreJugador line = name_line_spec (trim line).
Proof.
  intros H. unfold Validator.isNombreJugador, name_line_spec.
  rewrite starts_with_digit_test, letterCount_filter.
  destruct (Nat.leb_spec (length (trim line)) 35) as [_|]; [|lia].
  destruct (length (trim line)) as [|[|n]] eqn:E; try reflexivity.
  cbn [Nat.eqb Nat.ltb Nat.leb orb andb].
  destruct (starts_with_digit (trim line)); [reflexivity|].
  destruct (test Preprocessor.KEYWORDS (trim line)); reflexivity.
Qed.

(** ** A declared total in the standard block parser *)

(** [parseBloqueStandard] on a block with a total line that does not match:
    the declared total is read and the jugada is not valid. *)
Example parseBloqueStandard_declared_total :
  exists j,
    Parser.parseBloqueStandard Parser.DEFAULT_CONFIG (js "Desconocido")
      [js "05 10 con 20"; js "Total: 100"] 0 = Ok j /\
    totalDeclarado j = Some (of_Z 100) /\
    totalCalculado j = of_Z 0 /\
    isValid j = false.
Proof.
  eexists. split; [vm_compute; reflexivity|].
  repeat split; vm_compute; reflexivity.
Qed.

(** ** The shared regex object of the parle plugin *)

(** When [canProcess] has accepted "25*33 parle con 5", the regex object is
    left at [lastIndex] 5, and a call of [process] in that state finds no
    explicit pair at all. *)
Example parle_process_after_canProcess :
  ParlePlugin.canProcess 0 (js "25*33 parle con 5") = (true, 5) /\
  exists j,
    ParlePlugin.process (Some Parser.DEFAULT_CONFIG) 5 (js "25*33 parle con 5")
      (ctx_of [js "25*33 parle con 5"]) = Ok (j, 5) /\
    detalles j = [].
Proof.
  split; [vm_compute; reflexivity|].
  eexists. split; vm_compute; reflexivity.
Qed.

(* ================================================================= *)
(** * Further properties *)

(** ** The cache as a map *)

Lemma js_eqb_eq (a b : jsstring) : JS.eqb a b = true <-> a = b.
Proof.
  revert b. induction a as [|x a IH]; intros [|y b]; cbn; split; try easy.
  - intros H. apply andb_true_iff in H. destruct H as [H1 H2].
    apply N.eqb_eq in H1. apply IH in H2. congruence.
  - intros [= -> ->]. rewrite N.eqb_refl. apply IH. reflexivity.
Qed.

Lemma js_eqb_refl (a : jsstring) : JS.eqb a a = true.
Proof. apply js_eqb_eq. reflexivity. Qed.

Lemma js_eqb_neq (a b : jsstring) : JS.eqb a b = false <-> a <> b.
Proof.
  split.
  - intros H E. apply js_eqb_eq in E. congruence.
  - intros H. destruct (JS.eqb a b) eqn:E; [|reflexivity].
    apply js_eqb_eq in E. contradiction.
Qed.

Section CacheMap.

Variable V : Type.


Lemma map_get_some (k : jsstring) (m : list (CacheManager.CacheEntry V)) (e : CacheManager.CacheEntry V) :
  CacheManager.map_get k m = Some e -> In e m /\ CacheManager.key e = k.
Proof.
  unfold CacheManager.map_get. intros H. apply find_some in H.
  destruct H as [H1 H2]. split; [exact H1|apply js_eqb_eq, H2].
Qed.

Lemma map_get_none (k : jsstring) (m : list (CacheManager.CacheEntry V)) :
  CacheManager.map_get k m = None <-> ~ In k (map (@CacheManager.key V) m).
Proof.
  unfold CacheManager.map_get. induction m as [|x m IH]; cbn.
  - split; [intros _ []|reflexivity].
  - destruct (JS.eqb (CacheManager.key x) k) eqn:E.
    + apply js_eqb_eq in E. split; [discriminate|]. intros H. exfalso. apply H. left. exact E.
    + apply js_eqb_neq in E. rewrite IH. split.
      * intros H [H1|H1]; [contradiction|apply H, H1].
      * intros H H1. apply H. right. exact H1.
Qed.

Lemma keys_filter_incl (f : CacheManager.CacheEntry V -> bool) (m : list (CacheManager.CacheEntry V)) (k : jsstring) :
  In k (map (@CacheManager.key V) (filter f m)) -> In k (map (@CacheManager.key V) m).
Proof.
  rewrite !in_map_iff. intros [e [H1 H2]]. apply filter_In in H2.
  exists e. split; [exact H1|apply H2].
Qed.

Lemma keys_filter_NoDup (f : CacheManager.CacheEntry V -> bool) (m : list (CacheManager.CacheEntry V)) :
  NoDup (map (@CacheManager.key V) m) -> NoDup (map (@CacheManager.key V) (filter f m)).
Proof.
  induction m as [|x m IH]; cbn; [trivial|].
  intros H. inversion H as [|? ? Hx Hm]; subst.
  destruct (f x); cbn; [|apply IH, Hm].
  constructor; [|apply IH, Hm].
  intros Hin. apply Hx. eapply keys_filter_incl, Hin.
Qed.

Lemma length_filter_split (A : Type) (f : A -> bool) (l : list A) :
  length (filter f l) + length (filter (fun x => negb (f x)) l) = length l.
Proof.
  induction l as [|x l IH]; cbn; [reflexivity|].
  destruct (f x); cbn; lia.
Qed.

Lemma map_delete_absent (k : jsstring) (m : list (CacheManager.CacheEntry V)) :
  ~ In k (map (@CacheManager.key V) m) -> CacheManager.map_delete k m = m.
Proof.
  unfold CacheManager.map_delete. induction m as [|x m IH]; cbn; [reflexivity|].
  intros H. destruct (JS.eqb (CacheManager.key x) k) eqn:E.
  - apply js_eqb_eq in E. exfalso. apply H. left. exact E.
  - cbn. f_equal. apply IH. intros H1. apply H. right. exact H1.
Qed.

Lemma length_map_delete (k : jsstring) (m : list (CacheManager.CacheEntry V)) :
  NoDup (map (@CacheManager.key V) m) -> In k (map (@CacheManager.key V) m) ->
  S (length (CacheManager.map_delete k m)) = length m.
Proof.
  unfold CacheManager.map_delete. induction m as [|x m IH]; cbn; [intros _ []|].
  intros H Hin. inversion H as [|? ? Hx Hm]; subst.
  destruct (JS.eqb (CacheManager.key x) k) eqn:E; cbn.
  - apply js_eqb_eq in E. subst k.
    fold (CacheManager.map_delete (CacheManager.key x) m).
    rewrite map_delete_absent; [reflexivity|exact Hx].
  - apply js_eqb_neq in E. destruct Hin as [Hin|Hin]; [contradiction|].
    f_equal. apply IH; assumption.
Qed.

Lemma map_delete_get (k : jsstring) (m : list (CacheManager.CacheEntry V)) :
  CacheManager.map_get k (CacheManager.map_delete k m) = None.
Proof.
  apply map_get_none. intros H. apply in_map_iff in H. destruct H as [e [H1 H2]].
  unfold CacheManager.map_delete in H2. apply filter_In in H2. destruct H2 as [_ H2].
  apply negb_true_iff, js_eqb_neq in H2. contradiction.
Qed.

Lemma keys_map_set (e : CacheManager.CacheEntry V) (m : list (CacheManager.CacheEntry V)) :
  map (@CacheManager.key V) (CacheManager.map_set e m)
  = match CacheManager.map_get (CacheManager.key e) m with
    | Some _ => map (@CacheManager.key V) m
    | None => map (@CacheManager.key V) m ++ [CacheManager.key e]
    end.
Proof.
  unfold CacheManager.map_get. induction m as [|x m IH]; cbn; [reflexivity|].
  destruct (JS.eqb (CacheManager.key x) (CacheManager.key e)) eqn:E; cbn.
  - apply js_eqb_eq in E. rewrite E. reflexivity.
  - rewrite IH. destruct (find _ m); reflexivity.
Qed.

Lemma map_set_get (e : CacheManager.CacheEntry V) (m : list (CacheManager.CacheEntry V)) :
  CacheManager.map_get (CacheManager.key e) (CacheManager.map_set e m) = Some e.
Proof.
  unfold CacheManager.map_get. induction m as [|x m IH]; cbn.
  - rewrite js_eqb_refl. reflexivity.
  - destruct (JS.eqb (CacheManager.key x) (CacheManager.key e)) eqn:E; cbn.
    + rewrite js_eqb_refl. reflexivity.
    + rewrite E. exact IH.
Qed.

Lemma map_set_NoDup (e : CacheManager.CacheEntry V) (m : list (CacheManager.CacheEntry V)) :
  NoDup (map (@CacheManager.key V) m) -> NoDup (map (@CacheManager.key V) (CacheManager.map_set e m)).
Proof.
  intros H. rewrite keys_map_set.
  destruct (CacheManager.map_get (CacheManager.key e) m) eqn:E; [exact H|].
  apply map_get_none in E.
  apply NoDup_app; [exact H|repeat constructor; intros []|].
  intros k Hk [<-|[]]. contradiction.
Qed.

Lemma map_set_length (e : CacheManager.CacheEntry V) (m : list (CacheManager.CacheEntry V)) :
  length (CacheManager.map_set e m)
  = match CacheManager.map_get (CacheManager.key e) m with
    | Some _ => length m
    | None => S (length m)
    end.
Proof.
  rewrite <- (length_map (@CacheManager.key V)), keys_map_set.
  destruct (CacheManager.map_get _ m); rewrite ?length_app, length_map; cbn; lia.
Qed.

Lemma leastUsed_in (m : list (CacheManager.CacheEntry V)) (b : option (CacheManager.CacheEntry V)) (e : CacheManager.CacheEntry V) :
  CacheManager.leastUsed m b = Some e -> In e m \/ b = Some e.
Proof.
  revert b. induction m as [|x m IH]; cbn; intros b H; [right; exact H|].
  destruct b as [b|].
  - destruct (CacheManager.entry_hits x <? CacheManager.entry_hits b)%Z.
    + apply IH in H. destruct H as [H|[= <-]]; left; [right|left]; trivial.
    + apply IH in H. destruct H as [H|H]; [left; right; exact H|right; exact H].
  - apply IH in H. destruct H as [H|[= <-]]; left; [right|left]; trivial.
Qed.

Lemma leastUsed_some (m : list (CacheManager.CacheEntry V)) (b : CacheManager.CacheEntry V) :
  CacheManager.leastUsed m (Some b) <> None.
Proof.
  revert b. induction m as [|x m IH]; cbn; intros b; [discriminate|].
  destruct (_ <? _)%Z; apply IH.
Qed.

End CacheMap.

(** ** Consistency of the cache under every call *)

Section CacheConsistency.

Variable V : Type.

Lemma create_consistent (cfg : CacheConfig) :
  cache_consistent (CacheManager.create V cfg).
Proof.
  constructor; cbn; [constructor|constructor|reflexivity|lia].
Qed.

Lemma cleanupExpired_consistent (now : Z) (c : CacheManager.t V) :
  cache_consistent c -> cache_consistent (CacheManager.cleanupExpired now c).
Proof.
  intros [H1 H2 H3 H4]. unfold cache_keys in *.
  pose proof (length_filter_split (CacheManager.expired now) (CacheManager.cache c)) as HL.
  constructor; unfold cache_keys; cbn.
  - apply keys_filter_NoDup, H1.
  - rewrite Forall_forall in *. intros k Hk. apply H2. eapply keys_filter_incl, Hk.
  - rewrite H3. unfold CacheManager.map_size. lia.
  - unfold CacheManager.map_size in *. lia.
Qed.

Lemma delete_entry_consistent (k : jsstring) (c : CacheManager.t V) (st : CacheManager.Stats) :
  cache_consistent c ->
  CacheManager.size st
  = CacheManager.map_size (CacheManager.map_delete k (CacheManager.cache c)) ->
  cache_consistent {| CacheManager.config := CacheManager.config c;
                      CacheManager.cache := CacheManager.map_delete k (CacheManager.cache c);
                      CacheManager.stats := st |}.
Proof.
  intros [H1 H2 H3 H4] Hst. unfold cache_keys in *.
  pose proof (length_filter_split (fun e => JS.eqb (CacheManager.key e) k)
                (CacheManager.cache c)) as HL.
  constructor; unfold cache_keys; cbn.
  - apply keys_filter_NoDup, H1.
  - rewrite Forall_forall in *. intros x Hx. apply H2. eapply keys_filter_incl, Hx.
  - exact Hst.
  - unfold CacheManager.map_size, CacheManager.map_delete in *. lia.
Qed.

Lemma evictLeastUsed_consistent (c : CacheManager.t V) :
  cache_consistent c -> cache_consistent (CacheManager.evictLeastUsed c).
Proof.
  intros H. unfold CacheManager.evictLeastUsed.
  destruct (CacheManager.leastUsed (CacheManager.cache c) None) as [e|] eqn:E; [|exact H].
  destruct (CacheManager.key e) as [|a k] eqn:Ek; [exact H|].
  apply delete_entry_consistent; [exact H|]. cbn.
  apply leastUsed_in in E. destruct E as [E|E]; [|discriminate].
  destruct H as [H1 _ H3 _]. rewrite H3. unfold CacheManager.map_size.
  rewrite <- (@length_map_delete V (a :: k) (CacheManager.cache c) H1).
  - lia.
  - rewrite <- Ek. apply in_map, E.
Qed.

(** An eviction from a non-empty consistent cache removes one entry. *)
Lemma evictLeastUsed_size (c : CacheManager.t V) :
  cache_consistent c -> CacheManager.cache c <> [] ->
  (CacheManager.map_size (CacheManager.cache (CacheManager.evictLeastUsed c)) + 1
   = CacheManager.map_size (CacheManager.cache c))%Z.
Proof.
  intros [H1 H2 _ _] Hne. unfold CacheManager.evictLeastUsed.
  destruct (CacheManager.cache c) as [|x m] eqn:Em; [contradiction|].
  cbn [CacheManager.leastUsed].
  destruct (CacheManager.leastUsed m (Some x)) as [e|] eqn:E;
    [|exfalso; exact (leastUsed_some _ _ E)].
  assert (Hin : In e (x :: m)).
  { apply leastUsed_in in E. destruct E as [E|[= <-]]; [right; exact E|left; reflexivity]. }
  unfold cache_keys in *. rewrite Em in H1, H2.
  assert (Hk : In (CacheManager.key e) (map (@CacheManager.key V) (x :: m))).
  { apply in_map, Hin. }
  destruct (CacheManager.key e) as [|a k] eqn:Ek.
  { rewrite Forall_forall in H2. exfalso. exact (H2 _ Hk eq_refl). }
  cbn [CacheManager.cache]. rewrite ?Em. unfold CacheManager.map_size.
  rewrite <- (@length_map_delete V (a :: k) (x :: m) H1 Hk). lia.
Qed.

Lemma evictLeastUsed_empty (c : CacheManager.t V) :
  CacheManager.cache c = [] -> CacheManager.evictLeastUsed c = c.
Proof. intros E. unfold CacheManager.evictLeastUsed. rewrite E. reflexivity. Qed.

Lemma set_consistent (now : Z) (k : jsstring) (v : V) (ttl_arg : option Z)
  (c : CacheManager.t V) :
  k <> [] -> cache_consistent c -> cache_consistent (CacheManager.set now k v ttl_arg c).
Proof.
  intros Hk H. unfold CacheManager.set.
  destruct (negb (enabled (CacheManager.config c))); [exact H|].
  apply (cleanupExpired_consistent now) in H.
  set (c1 := CacheManager.cleanupExpired now c) in *.
  set (e := {| CacheManager.key := k |}).
  assert (Hc2 : let c2 := if (maxSize (CacheManager.config c1)
                              <=? CacheManager.map_size (CacheManager.cache c1))%Z
                          then CacheManager.evictLeastUsed c1 else c1 in
                cache_consistent c2 /\
                CacheManager.config c2 = CacheManager.config c1 /\
                (CacheManager.map_size (CacheManager.cache c2) + 1
                 <= Z.max 1 (maxSize (CacheManager.config c1)))%Z).
  { cbn zeta. destruct (_ <=? _)%Z eqn:E.
    - apply Z.leb_le in E. split; [apply evictLeastUsed_consistent, H|].
      split; [apply evictLeastUsed_counters|].
      destruct (CacheManager.cache c1) as [|x m] eqn:Em.
      + rewrite (evictLeastUsed_empty c1 Em), Em. cbn. lia.
      + rewrite (@evictLeastUsed_size c1 H); [apply H|]. rewrite Em. discriminate.
    - apply Z.leb_gt in E. split; [exact H|]. split; [reflexivity|]. lia. }
  cbn zeta in Hc2.
  set (c2 := if (_ <=? _)%Z then _ else _) in *.
  destruct Hc2 as [[H1 H2 H3 H4] [Hcfg Hsz]]. unfold cache_keys in *.
  constructor; unfold cache_keys; cbn [CacheManager.cache CacheManager.stats
                                         CacheManager.config CacheManager.size].
  - apply map_set_NoDup, H1.
  - rewrite keys_map_set. destruct (CacheManager.map_get _ _); [exact H2|].
    apply Forall_app. split; [exact H2|]. constructor; [exact Hk|constructor].
  - reflexivity.
  - unfold CacheManager.map_size in *. rewrite map_set_length. rewrite Hcfg.
    destruct (CacheManager.map_get _ _); lia.
Qed.

Lemma get_consistent (now : Z) (k : jsstring) (c : CacheManager.t V) :
  cache_consistent c -> cache_consistent (snd (CacheManager.get now k c)).
Proof.
  intros H. unfold CacheManager.get.
  destruct (negb (enabled (CacheManager.config c))); [exact H|].
  destruct (CacheManager.map_get k (CacheManager.cache c)) as [e|] eqn:E.
  - apply map_get_some in E. destruct E as [Hin Hkey].
    destruct (CacheManager.expired now e); cbn [snd].
    + apply delete_entry_consistent; [exact H|]. cbn.
      destruct H as [H1 _ H3 _]. rewrite H3. unfold CacheManager.map_size.
      rewrite <- (@length_map_delete V k (CacheManager.cache c) H1).
      * lia.
      * rewrite <- Hkey. apply in_map, Hin.
    + destruct H as [H1 H2 H3 H4]. unfold cache_keys in *.
      assert (Hg : CacheManager.map_get (CacheManager.key e) (CacheManager.cache c) <> None).
      { intros Hn. apply map_get_none in Hn. apply Hn, in_map, Hin. }
      constructor; unfold cache_keys; cbn.
      * apply map_set_NoDup, H1.
      * rewrite keys_map_set. cbn.
        destruct (CacheManager.map_get _ _); [exact H2|contradiction].
      * rewrite H3. unfold CacheManager.map_size. rewrite map_set_length. cbn.
        destruct (CacheManager.map_get _ _); [reflexivity|contradiction].
      * unfold CacheManager.map_size in *. rewrite map_set_length. cbn.
        destruct (CacheManager.map_get _ _); [exact H4|contradiction].
  - cbn [snd]. destruct H as [H1 H2 H3 H4]. constructor; assumption.
Qed.

Lemma delete_consistent (k : jsstring) (c : CacheManager.t V) :
  cache_consistent c -> cache_consistent (snd (CacheAdmin.delete k c)).
Proof.
  intros H. unfold CacheAdmin.delete.
  destruct (CacheManager.map_get k (CacheManager.cache c)); [|exact H].
  cbn [snd]. apply delete_entry_consistent; [exact H|reflexivity].
Qed.

Lemma clear_consistent (c : CacheManager.t V) : cache_consistent (CacheAdmin.clear c).
Proof. constructor; cbn; [constructor|constructor|reflexivity|lia]. Qed.

Lemma step_consistent (c : CacheManager.t V) (o : CacheAdmin.call V) :
  proper_call o -> cache_consistent c -> cache_consistent (CacheAdmin.step c o).
Proof.
  destruct o; cbn; intros Ho H.
  - apply get_consistent, H.
  - apply set_consistent; assumption.
  - apply delete_consistent, H.
  - apply clear_consistent.
  - apply cleanupExpired_consistent, H.
  - apply cleanupExpired_consistent, H.
Qed.

End CacheConsistency.

(** X1. A cache that is never given the empty key stays consistent under
    every sequence of [get], [set], [delete], [clear], [cleanup] and
    [initialize] calls: one entry per key, [stats.size] equal to the number
    of entries, and never more entries than [max(1, maxSize)]. *)
Theorem cache_stays_consistent (V : Type) (cfg : CacheConfig) (ops : list (CacheAdmin.call V)) :
  Forall (@proper_call V) ops ->
  cache_consistent (CacheAdmin.run (CacheManager.create V cfg) ops).
Proof.
  intros H. unfold CacheAdmin.run.
  generalize (create_consistent V cfg).
  generalize (CacheManager.create V cfg) as c.
  induction H as [|o ops Ho _ IH]; intros c Hc; cbn; [exact Hc|].
  apply IH, step_consistent; assumption.
Qed.

Lemma cache_stays_consistent_witness :
  cache_consistent
    (CacheAdmin.run (CacheManager.create nat {| enabled := true; ttl := 10; maxSize := 1 |})
       [CacheAdmin.Put 0%Z (js "a") 1 None; CacheAdmin.Put 1%Z (js "b") 2 None;
        CacheAdmin.Get nat 2%Z (js "b"); CacheAdmin.Delete nat (js "a")]).
Proof.
  apply cache_stays_consistent.
  repeat constructor; cbn; discriminate.
Defined.

(** X2. The empty key defeats the size bound: its entry is never evicted,
    so a cache with room for one entry holds two after a value is stored
    under the empty key and then another one under a different key. *)
Theorem empty_key_is_never_evicted (V : Type) (cfg : CacheConfig) (now1 now2 : Z)
  (k : jsstring) (v1 v2 : V) :
  enabled cfg = true ->
  (maxSize cfg <= 1)%Z ->
  (now2 <= now1 + ttl cfg)%Z ->
  k <> [] ->
  let c := CacheAdmin.run (CacheManager.create V cfg)
             [CacheAdmin.Put now1 [] v1 None; CacheAdmin.Put now2 k v2 None] in
  CacheManager.map_size (CacheManager.cache c) = 2%Z /\
  CacheManager.evictions (CacheManager.stats c) = 0%Z.
Proof.
  intros He Hm Ht Hk. cbn zeta. unfold CacheAdmin.run. cbn [fold_left CacheAdmin.step].
  assert (H1 : CacheManager.set now1 [] v1 None (CacheManager.create V cfg)
               = {| CacheManager.config := cfg;
                    CacheManager.cache :=
                      [{| CacheManager.key := []; CacheManager.value := v1;
                          CacheManager.timestamp := now1;
                          CacheManager.entry_ttl := ttl cfg;
                          CacheManager.entry_hits := 0 |}];
                    CacheManager.stats :=
                      {| CacheManager.hits := 0; CacheManager.misses := 0;
                         CacheManager.size := 1; CacheManager.evictions := 0 |} |}).
  { unfold CacheManager.set, CacheManager.create. cbn [CacheManager.config]. rewrite He.
    cbn [negb].
    match goal with |- context [if ?b then _ else _] => destruct b end; reflexivity. }
  rewrite H1. clear H1.
  assert (E2 : (now1 + ttl cfg <? now2)%Z = false) by (apply Z.ltb_ge; lia).
  assert (E3 : (maxSize cfg <=? Z.of_nat 1)%Z = true) by (apply Z.leb_le; lia).
  unfold CacheManager.set, CacheManager.cleanupExpired, CacheManager.expired.
  cbn [CacheManager.config CacheManager.cache CacheManager.stats CacheManager.timestamp
       CacheManager.entry_ttl filter].
  rewrite He, !E2.
  cbn [negb filter length CacheManager.map_size CacheManager.config CacheManager.cache].
  unfold CacheManager.map_size. cbn [length].
  rewrite !E3. unfold CacheManager.evictLeastUsed.
  cbn [CacheManager.cache CacheManager.leastUsed CacheManager.key CacheManager.map_set
       CacheManager.stats CacheManager.evictions].
  destruct k as [|a k]; [contradiction|]. cbn. split; reflexivity.
Qed.

Lemma empty_key_is_never_evicted_witness :
  let c := CacheAdmin.run (CacheManager.create nat {| enabled := true; ttl := 10; maxSize := 1 |})
             [CacheAdmin.Put 0%Z [] 1 None; CacheAdmin.Put 5%Z (js "k") 2 None] in
  CacheManager.map_size (CacheManager.cache c) = 2%Z /\
  CacheManager.evictions (CacheManager.stats c) = 0%Z.
Proof.
  apply (@empty_key_is_never_evicted nat {| enabled := true; ttl := 10; maxSize := 1 |}
           0%Z 5%Z (js "k") 1 2); cbn; try reflexivity; try lia; discriminate.
Defined.

Section CacheReads.

Variable V : Type.

Lemma set_config (now : Z) (k : jsstring) (v : V) (ttl_arg : option Z) (c : CacheManager.t V) :
  CacheManager.config (CacheManager.set now k v ttl_arg c) = CacheManager.config c.
Proof. apply set_counters. Qed.

Lemma set_stores (now : Z) (k : jsstring) (v : V) (ttl_arg : option Z) (c : CacheManager.t V) :
  enabled (CacheManager.config c) = true ->
  CacheManager.map_get k (CacheManager.cache (CacheManager.set now k v ttl_arg c))
  = Some {| CacheManager.key := k; CacheManager.value := v;
            CacheManager.timestamp := now;
            CacheManager.entry_ttl := ttl_of (CacheManager.config c) ttl_arg;
            CacheManager.entry_hits := 0 |}.
Proof.
  intros He. unfold CacheManager.set. rewrite He. cbn [negb CacheManager.cache].
  match goal with
  | |- CacheManager.map_get k (CacheManager.map_set ?e ?m) = _ =>
      exact (map_set_get e m)
  end.
Qed.

Lemma get_live (now : Z) (k : jsstring) (c : CacheManager.t V) (e : CacheManager.CacheEntry V) :
  enabled (CacheManager.config c) = true ->
  CacheManager.map_get k (CacheManager.cache c) = Some e ->
  (now <= CacheManager.timestamp e + CacheManager.entry_ttl e)%Z ->
  fst (CacheManager.get now k c) = Some (CacheManager.value e) /\
  CacheManager.hits (CacheManager.stats (snd (CacheManager.get now k c)))
  = (CacheManager.hits (CacheManager.stats c) + 1)%Z.
Proof.
  intros He Hg Ht. unfold CacheManager.get. rewrite He, Hg. cbn [negb].
  unfold CacheManager.expired.
  assert (E : (CacheManager.timestamp e + CacheManager.entry_ttl e <? now)%Z = false)
    by (apply Z.ltb_ge; lia).
  rewrite E. split; reflexivity.
Qed.

End CacheReads.

(** X3. A value stored with [set] is returned by a [get] of the same key
    until its time to live has passed, and that [get] counts as one hit;
    the time to live is the argument of [set], or the configured one when
    the argument is absent or zero. *)
Theorem cache_set_then_get (V : Type) (now now' : Z) (k : jsstring) (v : V)
  (ttl_arg : option Z) (c : CacheManager.t V) :
  enabled (CacheManager.config c) = true ->
  (now' <= now + ttl_of (CacheManager.config c) ttl_arg)%Z ->
  let c' := CacheManager.set now k v ttl_arg c in
  fst (CacheManager.get now' k c') = Some v /\
  CacheManager.hits (CacheManager.stats (snd (CacheManager.get now' k c')))
  = (CacheManager.hits (CacheManager.stats c) + 1)%Z.
Proof.
  intros He Ht. cbn zeta.
  pose proof (@set_stores V now k v ttl_arg c He) as Hs.
  assert (He' : enabled (CacheManager.config (CacheManager.set now k v ttl_arg c)) = true)
    by (rewrite set_config; exact He).
  destruct (@get_live V now' k _ _ He' Hs) as [H1 H2]; [exact Ht|].
  split; [exact H1|]. rewrite H2. f_equal.
  apply (set_counters now k v ttl_arg c).
Qed.

Lemma cache_set_then_get_witness :
  let c := CacheManager.create nat {| enabled := true; ttl := 10; maxSize := 4 |} in
  let c' := CacheManager.set 0%Z (js "k") 7 (Some 0%Z) c in
  fst (CacheManager.get 10%Z (js "k") c') = Some 7 /\
  CacheManager.hits (CacheManager.stats (snd (CacheManager.get 10%Z (js "k") c')))
  = (CacheManager.hits (CacheManager.stats c) + 1)%Z.
Proof.
  apply (@cache_set_then_get nat 0%Z 10%Z (js "k") 7 (Some 0%Z)
           (CacheManager.create nat {| enabled := true; ttl := 10; maxSize := 4 |}));
    cbn; [reflexivity|lia].
Defined.

(** X4. [get] never returns a stale value: what it returns is the value of
    an entry stored under that key whose time to live has not passed; and
    when an enabled cache answers [null], the key is absent afterwards. *)
Theorem cache_get_is_never_stale (V : Type) (now : Z) (k : jsstring) (c : CacheManager.t V) :
  (forall v, fst (CacheManager.get now k c) = Some v ->
     exists e, In e (CacheManager.cache c) /\ CacheManager.key e = k /\
               CacheManager.value e = v /\
               (now <= CacheManager.timestamp e + CacheManager.entry_ttl e)%Z) /\
  (enabled (CacheManager.config c) = true ->
   fst (CacheManager.get now k c) = None ->
   CacheManager.map_get k (CacheManager.cache (snd (CacheManager.get now k c))) = None).
Proof.
  unfold CacheManager.get.
  destruct (enabled (CacheManager.config c)); cbn [negb]; [|split; [discriminate|discriminate]].
  destruct (CacheManager.map_get k (CacheManager.cache c)) as [e|] eqn:E.
  - destruct (CacheManager.expired now e) eqn:Ex; cbn [fst snd].
    + split; [discriminate|]. intros _ _. cbn [CacheManager.cache]. apply map_delete_get.
    + split; [|discriminate]. intros v [= <-].
      apply map_get_some in E. destruct E as [Hin Hk].
      exists e. repeat split; trivial.
      unfold CacheManager.expired in Ex. apply Z.ltb_ge in Ex. exact Ex.
  - cbn [fst snd]. split; [discriminate|]. intros _ _. exact E.
Qed.

(** X5. A disabled cache is inert under [get] and [set]: every [get]
    answers [null] and no call changes the cache or its counters. *)
Theorem disabled_cache_is_inert (V : Type) (c : CacheManager.t V)
  (ops : list (CacheManager.op V)) :
  enabled (CacheManager.config c) = false ->
  CacheManager.run c ops = c /\
  forall now k, fst (CacheManager.get now k c) = None.
Proof.
  intros He. split.
  - unfold CacheManager.run. induction ops as [|o ops IH]; cbn; [reflexivity|].
    assert (E : CacheManager.step c o = c).
    { destruct o; cbn; [unfold CacheManager.get|unfold CacheManager.set];
        rewrite He; reflexivity. }
    rewrite E. exact IH.
  - intros now k. unfold CacheManager.get. rewrite He. reflexivity.
Qed.

Lemma disabled_cache_is_inert_witness :
  let c := CacheManager.create nat {| enabled := false; ttl := 10; maxSize := 4 |} in
  CacheManager.run c [CacheManager.OpSet 0%Z (js "k") 7 None; CacheManager.OpGet nat 1%Z (js "k")] = c /\
  forall now k, fst (CacheManager.get now k c) = None.
Proof.
  apply (@disabled_cache_is_inert nat
           (CacheManager.create nat {| enabled := false; ttl := 10; maxSize := 4 |})).
  reflexivity.
Defined.

(** ** Lines, blocks and the preprocessed text *)

Lemma split_app_sep (sep : char) (x t : jsstring) :
  ~ In sep x -> split sep (x ++ sep :: t) = x :: split sep t.
Proof.
  induction x as [|c x IH]; cbn; intros H.
  - rewrite N.eqb_refl. reflexivity.
  - destruct (c =? sep)%N eqn:E.
    + apply N.eqb_eq in E. exfalso. apply H. left. exact E.
    + rewrite IH; [reflexivity|]. intros Hx. apply H. right. exact Hx.
Qed.

Lemma split_no_sep (sep : char) (x : jsstring) :
  ~ In sep x -> split sep x = [x].
Proof.
  induction x as [|c x IH]; cbn; intros H; [reflexivity|].
  destruct (c =? sep)%N eqn:E.
  - apply N.eqb_eq in E. exfalso. apply H. left. exact E.
  - rewrite IH; [reflexivity|]. intros Hx. apply H. right. exact Hx.
Qed.

Lemma split_pieces (sep : char) (s : jsstring) :
  Forall (fun l => ~ In sep l) (split sep s).
Proof.
  induction s as [|c s IH]; cbn.
  - constructor; [intros []|constructor].
  - destruct (c =? sep)%N eqn:E.
    + constructor; [intros []|exact IH].
    + apply N.eqb_neq in E. destruct (split sep s) as [|l ls].
      * constructor; [|constructor]. intros [H|[]]. congruence.
      * inversion IH; subst. constructor; [|assumption].
        intros [H|H]; [congruence|contradiction].
Qed.

Lemma split_join (sep : char) (ls : list jsstring) :
  ls <> [] -> Forall (fun l => ~ In sep l) ls -> split sep (join [sep] ls) = ls.
Proof.
  induction ls as [|x r IH]; [contradiction|].
  intros _ H. inversion H as [|? ? Hx Hr]; subst.
  destruct r as [|y r].
  - cbn. apply split_no_sep, Hx.
  - change (join [sep] (x :: y :: r)) with (x ++ sep :: join [sep] (y :: r)).
    rewrite split_app_sep by exact Hx. f_equal. apply IH; [discriminate|exact Hr].
Qed.

Lemma length_zero_iff (s : jsstring) : (0 <? length s) = true <-> s <> [].
Proof.
  destruct s; cbn; split; easy.
Qed.

(** The last step of [cleanup] leaves the empty text or a text without
    blank lines. *)
Lemma join_nonblank_lines (t : jsstring) :
  let out := join Preprocessor.nl (filter (fun line => 0 <? length (trim line)) (split LF t)) in
  out = [] \/ no_blank_line out.
Proof.
  cbn zeta. set (ls := filter _ (split LF t)).
  destruct ls as [|x r] eqn:E; [left; reflexivity|right].
  unfold no_blank_line, Preprocessor.nl. rewrite <- E.
  assert (Hp : Forall (fun l => ~ In LF l) ls /\ Forall (fun l => trim l <> []) ls).
  { split; apply Forall_forall; intros l Hl; apply filter_In in Hl; destruct Hl as [H1 H2].
    - pose proof (split_pieces LF t) as Hs. rewrite Forall_forall in Hs. apply Hs, H1.
    - apply length_zero_iff, H2. }
  destruct Hp as [Hp1 Hp2]. rewrite split_join; [exact Hp2| |exact Hp1].
  rewrite E. discriminate.
Qed.

Lemma cleanup_no_blank_line (t : jsstring) :
  Preprocessor.cleanup t = [] \/ no_blank_line (Preprocessor.cleanup t).
Proof. unfold Preprocessor.cleanup. apply join_nonblank_lines. Qed.

Lemma extractBloques_fold (ls : list jsstring) :
  Forall (fun l => trim l <> []) ls ->
  forall b cur inB, inB = true \/ cur = [] ->
    fst (fst (fold_left Parser.extractBloques_step ls (b, cur, inB))) = b.
Proof.
  induction 1 as [|l ls Hl _ IH]; intros b cur inB Hst; [reflexivity|].
  cbn [fold_left]. unfold Parser.extractBloques_step at 2.
  destruct (trim l) as [|c tl] eqn:Et; [contradiction|].
  cbn [length Nat.eqb].
  destruct (Validator.isNombreJugador (c :: tl) && negb inB) eqn:E.
  - apply andb_prop in E. destruct E as [_ E]. apply negb_true_iff in E. subst inB.
    destruct Hst as [Hst|Hst]; [discriminate|]. subst cur. cbn [length Nat.ltb Nat.leb].
    apply IH. left. reflexivity.
  - apply IH. left. reflexivity.
Qed.

Lemma extractBloques_one_block (text : jsstring) :
  no_blank_line text -> length (Parser.extractBloques text) <= 1.
Proof.
  intros H. unfold Parser.extractBloques.
  pose proof (@extractBloques_fold (split LF text) H [] [] false (or_intror eq_refl)) as Hb.
  destruct (fold_left Parser.extractBloques_step (split LF text) ([], [], false))
    as [[b cur] inB].
  cbn [fst] in Hb. subst b.
  destruct (0 <? length cur); cbn [app filter].
  - destruct (0 <? length (trim (join [LF] cur))); cbn; lia.
  - cbn. lia.
Qed.

Lemma extractBloques_process (cfg : ParserConfig) (text : jsstring) :
  length (Parser.extractBloques (Preprocessor.process cfg text)) <= 1.
Proof.
  unfold Preprocessor.process.
  destruct (cleanup_no_blank_line
              (Preprocessor.normalizeAmounts cfg
                 (if autoExpand cfg
                  then Preprocessor.expandPatterns
                         (Preprocessor.normalizeSpecialCharacters
                            (Preprocessor.normalizeSpaces text))
                  else Preprocessor.normalizeSpecialCharacters
                         (Preprocessor.normalizeSpaces text)))) as [E|E].
  - rewrite E. cbn. lia.
  - apply extractBloques_one_block, E.
Qed.

Lemma parseBloques_length (p : Parser.t) (bloques : list jsstring) :
  forall index acc acc',
    Parser.parseBloques p bloques index acc = Ok acc' ->
    length (Parser.acc_jugadas acc')
    <= length (Parser.acc_jugadas acc) + length bloques.
Proof.
  induction bloques as [|b r IH]; cbn [Parser.parseBloques]; intros index acc acc' H.
  - injection H as <-. cbn. lia.
  - destruct (Parser.parseBloque p b index) as [e|j].
    + destruct (strictMode (Parser.config p)); [discriminate|].
      apply IH in H. cbn in *. lia.
    + apply IH in H. cbn [Parser.acc_jugadas] in H. rewrite length_app in H. cbn in *. lia.
Qed.

Lemma parseFresh_one_jugada (p : Parser.t) (text : jsstring) (st : CacheManager.StatsView)
  (r : Parser.ParseResult) :
  Parser.parseFresh p text st = Ok r -> length (Parser.jugadas r) <= 1.
Proof.
  unfold Parser.parseFresh.
  destruct (negb _ && strictMode _); [discriminate|].
  destruct (maxJugadores _ <? _)%Z; [discriminate|].
  destruct (Parser.parseBloques _ _ _ _) as [e|acc] eqn:E; [discriminate|].
  intros [= <-]. cbn [Parser.jugadas].
  apply parseBloques_length in E. cbn [Parser.acc_jugadas length] in E.
  pose proof (extractBloques_process (Parser.config p) text). lia.
Qed.

Lemma reachable_cached_one_jugada (p : Parser.t) :
  reachable p ->
  cached_all (fun r => length (Parser.jugadas r) <= 1) (Parser.cache p).
Proof.
  induction 1 as [cfg json | now text p Hp IH | p Hp IH | x p Hp IH].
  - constructor.
  - apply parse_keeps_cached; [exact IH|].
    intros st r Hr _. eapply parseFresh_one_jugada, Hr.
  - exact IH.
  - exact IH.
Qed.

(** X6. After preprocessing a text is a single block: [cleanup] removes
    every blank line, and [extractBloques] starts a new block only after
    one. *)
Theorem preprocessed_text_is_one_block (cfg : ParserConfig) (text : jsstring) :
  let preprocessed := Preprocessor.process cfg text in
  (preprocessed = [] \/ no_blank_line preprocessed) /\
  length (Parser.extractBloques preprocessed) <= 1.
Proof.
  cbn zeta. split; [|apply extractBloques_process].
  unfold Preprocessor.process. apply cleanup_no_blank_line.
Qed.

(** X7. [parse] never returns more than one jugada, whatever the text and
    whatever was parsed before: the players of a text with several blocks
    are merged into one. *)
Theorem parse_returns_at_most_one_jugada (p : Parser.t) (now : Z) (text : jsstring) :
  reachable p ->
  length (Parser.jugadas (fst (Parser.parse now text p))) <= 1.
Proof.
  intros Hp.
  pose proof (reachable_cached_one_jugada Hp) as Hc.
  destruct (lookup_ok now text p Hc) as [_ Hhit].
  destruct (parse_cases now text p) as [Hcached | [[_ Hfresh] | [_ (e & _ & Hr)]]].
  - apply Hhit, Hcached.
  - eapply parseFresh_one_jugada, Hfresh.
  - rewrite Hr. cbn. lia.
Qed.

Lemma parse_returns_at_most_one_jugada_witness :
  length (Parser.jugadas
            (fst (Parser.parse 0%Z (js "Ana
05 con 1

Luis
10 con 2") (Parser.create Parser.DEFAULT_CONFIG (js "{}"))))) <= 1.
Proof.
  apply parse_returns_at_most_one_jugada. apply reach_create.
Defined.

(** ** The parser and its cache *)

Lemma cacheKey_nonempty (p : Parser.t) (text : jsstring) : Parser.cacheKey p text <> [].
Proof.
  unfold Parser.cacheKey. destruct (js "parse:") as [|c r] eqn:E.
  - vm_compute in E. discriminate E.
  - discriminate.
Qed.

Lemma lookup_consistent (now : Z) (text : jsstring) (p : Parser.t) :
  cache_consistent (Parser.cache p) ->
  cache_consistent (snd (Parser.lookup now text p)).
Proof.
  intros H. unfold Parser.lookup.
  assert (H0 : cache_consistent (if Parser.isInitialized p then Parser.cache p
                                 else CacheManager.initialize now (Parser.cache p))).
  { destruct (Parser.isInitialized p); [exact H|apply cleanupExpired_consistent, H]. }
  destruct (enabled (Types.cache (Parser.config p))); [|exact H0].
  apply get_consistent, H0.
Qed.

Lemma lookup_config (now : Z) (text : jsstring) (p : Parser.t) :
  CacheManager.config (snd (Parser.lookup now text p)) = CacheManager.config (Parser.cache p).
Proof.
  unfold Parser.lookup.
  assert (H0 : CacheManager.config (if Parser.isInitialized p then Parser.cache p
                                    else CacheManager.initialize now (Parser.cache p))
               = CacheManager.config (Parser.cache p)).
  { destruct (Parser.isInitialized p); reflexivity. }
  destruct (enabled (Types.cache (Parser.config p))); [|exact H0].
  rewrite <- H0. apply get_counters.
Qed.

Lemma parse_config (now : Z) (text : jsstring) (p : Parser.t) :
  Parser.config (snd (Parser.parse now text p)) = Parser.config p /\
  Parser.configJson (snd (Parser.parse now text p)) = Parser.configJson p /\
  Parser.isInitialized (snd (Parser.parse now text p)) = Parser.isInitialized p /\
  CacheManager.config (Parser.cache (snd (Parser.parse now text p)))
  = CacheManager.config (Parser.cache p).
Proof.
  pose proof (lookup_config now text p) as Hl. unfold Parser.parse.
  destruct (Parser.lookup now text p) as [[r0|] c1]; cbn [snd] in *.
  - repeat split. exact Hl.
  - destruct (Parser.parseFresh p text (CacheManager.getStats c1)) as [e|r0];
      cbn [snd Parser.with_cache Parser.config Parser.configJson Parser.isInitialized
           Parser.cache].
    + repeat split. exact Hl.
    + repeat split. destruct (enabled _ && Parser.success r0); [|exact Hl].
      rewrite <- Hl. apply set_counters.
Qed.

Lemma reachable_cache_config (p : Parser.t) :
  reachable p -> CacheManager.config (Parser.cache p) = Types.cache (Parser.config p).
Proof.
  induction 1 as [cfg json | now text p Hp IH | p Hp IH | x p Hp IH].
  - reflexivity.
  - destruct (parse_config now text p) as (H1 & _ & _ & H4). rewrite H1, H4. exact IH.
  - exact IH.
  - exact IH.
Qed.

(** X8. For every parser a client can obtain, the cache is consistent: one
    entry per key, [stats.size] equal to the number of entries, and never
    more than [max(1, maxSize)] cached results. *)
Theorem parser_cache_is_consistent (p : Parser.t) :
  reachable p -> cache_consistent (Parser.cache p).
Proof.
  induction 1 as [cfg json | now text p Hp IH | p Hp IH | x p Hp IH].
  - apply create_consistent.
  - pose proof (lookup_consistent now text p IH) as Hl. unfold Parser.parse.
    destruct (Parser.lookup now text p) as [[r0|] c1]; cbn [snd] in *; [exact Hl|].
    destruct (Parser.parseFresh p text (CacheManager.getStats c1)) as [e|r0];
      cbn [snd Parser.with_cache Parser.cache]; [exact Hl|].
    destruct (enabled _ && Parser.success r0); [|exact Hl].
    apply set_consistent; [apply cacheKey_nonempty|exact Hl].
  - exact IH.
  - exact IH.
Qed.

Lemma parser_cache_is_consistent_witness :
  cache_consistent
    (Parser.cache (snd (Parser.parse 0%Z (js "05 10 con 20")
                          (Parser.create Parser.DEFAULT_CONFIG (js "{}"))))).
Proof.
  apply parser_cache_is_consistent. apply reach_parse, reach_create.
Defined.

Lemma map_get_filter (V : Type) (f : CacheManager.CacheEntry V -> bool) (k : jsstring)
  (m : list (CacheManager.CacheEntry V)) (e : CacheManager.CacheEntry V) :
  CacheManager.map_get k m = Some e -> f e = true ->
  CacheManager.map_get k (filter f m) = Some e.
Proof.
  unfold CacheManager.map_get. induction m as [|x m IH]; cbn; [discriminate|].
  destruct (JS.eqb (CacheManager.key x) k) eqn:E.
  - intros [= ->] Hf. rewrite Hf. cbn. rewrite E. reflexivity.
  - intros H Hf. destruct (f x); cbn; [rewrite E|]; apply IH; assumption.
Qed.

Lemma cacheKey_by_hash (p p' : Parser.t) (text1 text2 : jsstring) :
  Parser.hashString text1 = Parser.hashString text2 ->
  Parser.configJson p' = Parser.configJson p ->
  Parser.cacheKey p' text2 = Parser.cacheKey p text1.
Proof. intros H1 H2. unfold Parser.cacheKey. rewrite H1, H2. reflexivity. Qed.

(** X9. The cache is keyed by the 32-bit hash of the text and not by the
    text: once a parse has computed and stored a successful result, a parse
    of any text with the same hash, made before the time to live has
    passed, returns that stored result. *)
Theorem parse_answers_by_hash (p : Parser.t) (now now' : Z) (text1 text2 : jsstring) :
  reachable p ->
  enabled (Types.cache (Parser.config p)) = true ->
  Parser.hashString text1 = Parser.hashString text2 ->
  fst (Parser.lookup now text1 p) = None ->
  Parser.success (fst (Parser.parse now text1 p)) = true ->
  (now' <= now + ttl (Types.cache (Parser.config p)))%Z ->
  fst (Parser.parse now' text2 (snd (Parser.parse now text1 p)))
  = fst (Parser.parse now text1 p).
Proof.
  intros Hp He Hh Hmiss Hs Ht.
  pose proof (reachable_cache_config Hp) as Hcfg.
  pose proof (lookup_config now text1 p) as Hlc.
  destruct (parse_config now text1 p) as (P1 & P2 & P3 & P4).
  set (p' := snd (Parser.parse now text1 p)) in *.
  set (r := fst (Parser.parse now text1 p)) in *.
  set (k := Parser.cacheKey p text1).
  assert (Hstored : exists e,
            CacheManager.map_get k (CacheManager.cache (Parser.cache p')) = Some e /\
            CacheManager.value e = r /\
            (CacheManager.timestamp e + CacheManager.entry_ttl e
             = now + ttl (Types.cache (Parser.config p)))%Z).
  { subst p' r k. unfold Parser.parse in *.
    destruct (Parser.lookup now text1 p) as [[r0|] c1]; cbn [fst snd] in *; [discriminate|].
    destruct (Parser.parseFresh p text1 (CacheManager.getStats c1)) as [e|r0];
      cbn [fst snd] in *; [discriminate|].
    rewrite He, Hs. cbn [andb Parser.with_cache Parser.cache].
    assert (He1 : enabled (CacheManager.config c1) = true) by (rewrite Hlc, Hcfg; exact He).
    rewrite (@set_stores _ now (Parser.cacheKey p text1) r0 None c1 He1).
    eexists. split; [reflexivity|]. split; [reflexivity|].
    cbn. rewrite Hlc, Hcfg. reflexivity. }
  destruct Hstored as (e & Hget & Hval & Htime).
  assert (Hk : Parser.cacheKey p' text2 = k).
  { apply cacheKey_by_hash; [exact Hh|exact P2]. }
  assert (Hlook : fst (Parser.lookup now' text2 p') = Some r).
  { unfold Parser.lookup. rewrite P1, He, Hk.
    assert (Hlive : CacheManager.expired now' e = false).
    { unfold CacheManager.expired. apply Z.ltb_ge. lia. }
    set (c0 := if Parser.isInitialized p' then Parser.cache p'
               else CacheManager.initialize now' (Parser.cache p')).
    assert (H0 : CacheManager.map_get k (CacheManager.cache c0) = Some e /\
                 CacheManager.config c0 = CacheManager.config (Parser.cache p')).
    { subst c0. destruct (Parser.isInitialized p'); [split; [exact Hget|reflexivity]|].
      split; [|reflexivity]. cbn. apply map_get_filter; [exact Hget|].
      rewrite Hlive. reflexivity. }
    destruct H0 as [H0 H0c].
    assert (He0 : enabled (CacheManager.config c0) = true).
    { rewrite H0c, P4, Hcfg. exact He. }
    destruct (@get_live _ now' k c0 e He0 H0) as [Hg _].
    - unfold CacheManager.expired in Hlive. apply Z.ltb_ge in Hlive. exact Hlive.
    - rewrite Hg, Hval. reflexivity. }
  unfold Parser.parse.
  destruct (Parser.lookup now' text2 p') as [[r0|] c1]; cbn [fst] in *; [|discriminate].
  injection Hlook as ->. reflexivity.
Qed.

(** Two texts with one hash, and a parse of the second answered with the
    result of the first. *)
Lemma parse_answers_by_hash_witness :
  let p := Parser.create Parser.DEFAULT_CONFIG (js "{}") in
  js "Aa" <> js "BB" /\
  fst (Parser.parse 1%Z (js "BB") (snd (Parser.parse 0%Z (js "Aa") p)))
  = fst (Parser.parse 0%Z (js "Aa") p).
Proof.
  cbn zeta. split; [discriminate|].
  apply parse_answers_by_hash.
  - apply reach_create.
  - reflexivity.
  - vm_compute. reflexivity.
  - vm_compute. reflexivity.
  - vm_compute. reflexivity.
  - vm_compute. discriminate.
Defined.

(** ** Registered plugins *)

Lemma insertPlugin_priorities (x : Parser.ProcessorPlugin) (l : list Parser.ProcessorPlugin)
  (a : Z) :
  (Parser.p_priority x <= a)%Z ->
  Forall (fun b => (b <= a)%Z) (map Parser.p_priority l) ->
  Forall (fun b => (b <= a)%Z) (map Parser.p_priority (Parser.insertPlugin x l)).
Proof.
  intros Hx. induction l as [|y r IH]; cbn; intros H.
  - constructor; [exact Hx|constructor].
  - inversion H; subst.
    destruct (Parser.p_priority y <? Parser.p_priority x)%Z; cbn.
    + constructor; [exact Hx|]. constructor; assumption.
    + constructor; [assumption|]. apply IH. assumption.
Qed.

Lemma insertPlugin_descending (x : Parser.ProcessorPlugin) (l : list Parser.ProcessorPlugin) :
  descending (map Parser.p_priority l) ->
  descending (map Parser.p_priority (Parser.insertPlugin x l)).
Proof.
  induction l as [|y r IH]; cbn [Parser.insertPlugin map descending].
  - intros _. split; [constructor|exact I].
  - intros [H1 H2].
    destruct (Parser.p_priority y <? Parser.p_priority x)%Z eqn:E;
      cbn [map descending].
    + apply Z.ltb_lt in E. split; [|split; assumption].
      constructor; [lia|]. eapply Forall_impl; [|exact H1]. cbn. intros b Hb. lia.
    + apply Z.ltb_ge in E. split; [|apply IH, H2].
      apply insertPlugin_priorities; assumption.
Qed.

Lemma insertPlugin_position (x : Parser.ProcessorPlugin) (l : list Parser.ProcessorPlugin) :
  exists l1 l2,
    l = l1 ++ l2 /\ Parser.insertPlugin x l = l1 ++ x :: l2 /\
    Forall (fun y => (Parser.p_priority x <= Parser.p_priority y)%Z) l1 /\
    match l2 with
    | [] => True
    | y :: _ => (Parser.p_priority y < Parser.p_priority x)%Z
    end.
Proof.
  induction l as [|y r IH]; cbn [Parser.insertPlugin].
  - exists [], []. repeat split. constructor.
  - destruct (Parser.p_priority y <? Parser.p_priority x)%Z eqn:E.
    + apply Z.ltb_lt in E. exists [], (y :: r). repeat split; [constructor|exact E].
    + apply Z.ltb_ge in E. destruct IH as (l1 & l2 & H1 & H2 & H3 & H4).
      exists (y :: l1), l2. rewrite H1 at 1. rewrite H2. repeat split; [|exact H4].
      constructor; assumption.
Qed.

(** X10. The plugins of a parser are always in order of decreasing
    priority, and [registerPlugin] places a plugin after the registered ones
    of the same or a higher priority and before the first one of a lower
    priority, keeping the others in their order. *)
Theorem plugins_stay_sorted (p : Parser.t) :
  reachable p ->
  descending (map Parser.p_priority (Parser.plugins p)) /\
  forall x, exists l1 l2,
    Parser.plugins p = l1 ++ l2 /\
    Parser.plugins (Parser.registerPlugin x p) = l1 ++ x :: l2 /\
    Forall (fun y => (Parser.p_priority x <= Parser.p_priority y)%Z) l1 /\
    Forall (fun y => (Parser.p_priority y < Parser.p_priority x)%Z) l2.
Proof.
  intros Hp.
  assert (Hd : descending (map Parser.p_priority (Parser.plugins p))).
  { induction Hp as [cfg json | now text p Hp IH | p Hp IH | x p Hp IH].
    - exact I.
    - rewrite parse_keeps_plugins. exact IH.
    - exact IH.
    - cbn [Parser.registerPlugin Parser.plugins]. apply insertPlugin_descending, IH. }
  split; [exact Hd|]. intros x. cbn [Parser.registerPlugin Parser.plugins].
  destruct (insertPlugin_position x (Parser.plugins p)) as (l1 & l2 & H1 & H2 & H3 & H4).
  exists l1, l2. repeat split; try assumption.
  rewrite H1, map_app in Hd. clear H1 H2 H3.
  induction l1 as [|a l1 IH]; cbn [app map descending] in Hd.
  - destruct l2 as [|y l2]; [constructor|]. cbn [map descending] in Hd.
    destruct Hd as [Hd _]. constructor; [exact H4|].
    rewrite Forall_map in Hd. eapply Forall_impl; [|exact Hd]. cbn. intros b Hb. lia.
  - apply IH, Hd.
Qed.

Lemma plugins_stay_sorted_witness :
  let p := Parser.create Parser.DEFAULT_CONFIG (js "{}") in
  descending (map Parser.p_priority (Parser.plugins p)) /\
  forall x, exists l1 l2,
    Parser.plugins p = l1 ++ l2 /\
    Parser.plugins (Parser.registerPlugin x p) = l1 ++ x :: l2 /\
    Forall (fun y => (Parser.p_priority x <= Parser.p_priority y)%Z) l1 /\
    Forall (fun y => (Parser.p_priority y < Parser.p_priority x)%Z) l2.
Proof.
  apply plugins_stay_sorted. apply reach_create.
Defined.

(** ** The standard block parser *)

Lemma standardLoop_keeps (cfg : ParserConfig) (lins : list jsstring) :
  forall i st, exists st',
    Parser.standardLoop cfg lins i st = Ok st' /\
    Parser.ls_detalles st' = Parser.ls_detalles st /\
    Parser.ls_warnings st' = Parser.ls_warnings st /\
    Parser.ls_errors st' = Parser.ls_errors st /\
    Parser.ls_betTypes st' = Parser.ls_betTypes st.
Proof.
  induction lins as [|l r IH]; intros i st; cbn [Parser.standardLoop].
  - exists st. repeat split.
  - destruct ((i =? 0) && Validator.isNombreJugador l); [apply IH|].
    destruct (exec Parser.TOTAL_DECLARADO l) as [m|].
    + match goal with |- context [Parser.standardLoop cfg r (S i) ?s] =>
        destruct (IH (S i) s) as (st' & H1 & H2 & H3 & H4 & H5) end.
      exists st'. repeat split; assumption.
    + cbn [Parser.parseLinea rev]. apply IH.
Qed.

Lemma parseBloqueStandard_no_bets (cfg : ParserConfig) (jug : jsstring)
  (lins : list jsstring) (bloqueIdx : nat) :
  exists j, Parser.parseBloqueStandard cfg jug lins bloqueIdx = Ok j /\
            no_bets j /\ jugador j = jug.
Proof.
  unfold Parser.parseBloqueStandard.
  match goal with |- context [Parser.standardLoop cfg lins 0 ?s] =>
    destruct (standardLoop_keeps cfg lins 0 s) as (st' & H1 & H2 & H3 & H4 & H5) end.
  rewrite H1. eexists. split; [reflexivity|]. cbn in *.
  unfold no_bets. cbn. rewrite H2, H3, H4. cbn. repeat split.
Qed.

Lemma parseBloques_no_bets (p : Parser.t) (bloques : list jsstring) :
  Parser.plugins p = [] ->
  forall index acc, Forall no_bets (Parser.acc_jugadas acc) ->
    exists acc', Parser.parseBloques p bloques index acc = Ok acc' /\
                 Forall no_bets (Parser.acc_jugadas acc').
Proof.
  intros Hpl. induction bloques as [|b r IH]; intros index acc Hacc;
    cbn [Parser.parseBloques].
  - exists acc. split; [reflexivity|exact Hacc].
  - unfold Parser.parseBloque. rewrite Hpl. cbn [Parser.tryPlugins].
    match goal with |- context [Parser.parseBloqueStandard ?c ?j ?l ?i] =>
      destruct (parseBloqueStandard_no_bets c j l i) as (j0 & Hj & Hn & _) end.
    rewrite Hj. apply IH. cbn [Parser.acc_jugadas].
    apply Forall_app. split; [exact Hacc|]. constructor; [exact Hn|constructor].
Qed.

Lemma sum_no_bets (js : list Jugada) :
  Forall no_bets js ->
  fold_left (fun sum j => Parser.decimal_plus sum (totalCalculado j)) js (of_Z 0) = of_Z 0.
Proof.
  induction 1 as [|j js Hj _ IH]; cbn [fold_left]; [reflexivity|].
  destruct Hj as (_ & Ht & _). rewrite Ht.
  change (Parser.decimal_plus (of_Z 0) (of_Z 0)) with (of_Z 0). exact IH.
Qed.

Lemma parseFresh_no_bets (p : Parser.t) (text : jsstring) (st : CacheManager.StatsView)
  (r : Parser.ParseResult) :
  Parser.plugins p = [] ->
  Parser.parseFresh p text st = Ok r ->
  Forall no_bets (Parser.jugadas r) /\
  Parser.sum_totalCalculado (Parser.summary r) = of_Z 0.
Proof.
  intros Hpl. unfold Parser.parseFresh.
  destruct (negb _ && strictMode _); [discriminate|].
  destruct (maxJugadores _ <? _)%Z; [discriminate|].
  match goal with |- context [Parser.parseBloques p ?b 0 ?a] =>
    destruct (@parseBloques_no_bets p b Hpl 0 a) as (acc & Ha & Hn); [constructor|] end.
  rewrite Ha. intros [= <-]. cbn [Parser.jugadas Parser.summary Parser.sum_totalCalculado].
  split; [exact Hn|apply sum_no_bets, Hn].
Qed.

Lemma insertPlugin_not_nil (x : Parser.ProcessorPlugin) (l : list Parser.ProcessorPlugin) :
  Parser.insertPlugin x l <> [].
Proof.
  destruct l as [|y r]; cbn; [discriminate|].
  destruct (_ <? _)%Z; discriminate.
Qed.

Lemma reachable_cached_no_bets (p : Parser.t) :
  reachable p -> Parser.plugins p = [] ->
  cached_all (fun r => Forall no_bets (Parser.jugadas r) /\
                       Parser.sum_totalCalculado (Parser.summary r) = of_Z 0)
             (Parser.cache p).
Proof.
  induction 1 as [cfg json | now text p Hp IH | p Hp IH | x p Hp IH]; intros Hpl.
  - constructor.
  - rewrite parse_keeps_plugins in Hpl.
    apply parse_keeps_cached; [apply IH, Hpl|].
    intros st r Hr _. eapply parseFresh_no_bets; eassumption.
  - apply IH, Hpl.
  - exfalso. cbn in Hpl. exact (insertPlugin_not_nil _ _ Hpl).
Qed.

(** X11. A parser on which no plugin has been registered (the state the
    constructor leaves it in) reports no bet for any text: [parseLinea]
    yields no detail, so every jugada of every result has no details, no
    warnings and no errors, and a total of 0, as has the summary. *)
Theorem parser_without_plugins_reports_no_bets (p : Parser.t) (now : Z) (text : jsstring) :
  reachable p ->
  Parser.plugins p = [] ->
  let r := fst (Parser.parse now text p) in
  Forall no_bets (Parser.jugadas r) /\
  Parser.sum_totalCalculado (Parser.summary r) = of_Z 0.
Proof.
  intros Hp Hpl r.
  pose proof (reachable_cached_no_bets Hp Hpl) as Hc.
  destruct (lookup_ok now text p Hc) as [_ Hhit].
  destruct (parse_cases now text p) as [Hcached | [[_ Hfresh] | [_ (e & _ & Hr)]]];
    fold r in Hcached || fold r in Hfresh || fold r in Hr.
  - apply Hhit, Hcached.
  - eapply parseFresh_no_bets; eassumption.
  - rewrite Hr. cbn. split; [constructor|reflexivity].
Qed.

Lemma parser_without_plugins_reports_no_bets_witness :
  let r := fst (Parser.parse 0%Z (js "Ana
05 10 con 20
25*33 parle con 5
total 45") (Parser.create Parser.DEFAULT_CONFIG (js "{}"))) in
  Forall no_bets (Parser.jugadas r) /\
  Parser.sum_totalCalculado (Parser.summary r) = of_Z 0.
Proof.
  apply parser_without_plugins_reports_no_bets; [apply reach_create|reflexivity].
Defined.

(** ** The characters of the preprocessed text *)

Lemma scan_delete_class (q : char -> bool) (s : jsstring) :
  forall i p,
    scan (Char q) (fun _ => []) (fun c => [c]) 0 i p s
    = filter (fun c => negb (q c)) s.
Proof.
  induction s as [|c t IH]; intros i p; [reflexivity|].
  cbn [scan filter]. unfold match_here. cbn [rmatch rest].
  destruct (q c); cbn [negb idx caps Nat.eqb Nat.sub app]; rewrite IH; reflexivity.
Qed.

Lemma in_split (sep c : char) (s l : jsstring) :
  In l (split sep s) -> In c l -> In c s.
Proof.
  revert l. induction s as [|x s IH]; cbn; intros l Hl Hc.
  - destruct Hl as [<-|[]]. exact Hc.
  - destruct (x =? sep)%N.
    + destruct Hl as [<-|Hl]; [destruct Hc|]. right. eapply IH; eassumption.
    + destruct (split sep s) as [|l0 ls] eqn:E.
      * destruct Hl as [<-|[]]. destruct Hc as [<-|[]]. left. reflexivity.
      * destruct Hl as [<-|Hl].
        -- destruct Hc as [<-|Hc]; [left; reflexivity|].
           right. apply (IH l0); [left; reflexivity|exact Hc].
        -- right. apply (IH l); [right; exact Hl|exact Hc].
Qed.

Lemma in_join (sep : jsstring) (c : char) (ls : list jsstring) :
  In c (join sep ls) -> In c sep \/ exists l, In l ls /\ In c l.
Proof.
  induction ls as [|x r IH]; [intros []|].
  destruct r as [|y r].
  - cbn. intros H. right. exists x. split; [left; reflexivity|exact H].
  - change (join sep (x :: y :: r)) with (x ++ sep ++ join sep (y :: r)).
    rewrite !in_app_iff. intros [H|[H|H]].
    + right. exists x. split; [left; reflexivity|exact H].
    + left. exact H.
    + destruct (IH H) as [H1|(l & H1 & H2)]; [left; exact H1|].
      right. exists l. split; [right; exact H1|exact H2].
Qed.

Lemma cleanup_allowed (t : jsstring) :
  Forall (fun c => Preprocessor.allowed c = true) (Preprocessor.cleanup t).
Proof.
  unfold Preprocessor.cleanup. apply Forall_forall. intros c Hc.
  apply in_join in Hc. destruct Hc as [Hc|(l & Hl & Hc)].
  - destruct Hc as [<-|[]]. reflexivity.
  - apply filter_In in Hl. destruct Hl as [Hl _].
    pose proof (@in_split _ _ _ _ Hl Hc) as Hin.
    unfold replace at 1 in Hin. rewrite scan_delete_class in Hin.
    apply filter_In in Hin. destruct Hin as [_ Hin].
    rewrite negb_involutive in Hin. exact Hin.
Qed.

(** X12. Every code unit of a preprocessed text belongs to the class that
    [cleanup] keeps: digits, white space, point, comma, hyphen, asterisk,
    the ASCII letters and the accented Spanish vowels, n with tilde and u
    with diaeresis. *)
Theorem preprocessed_text_alphabet (cfg : ParserConfig) (text : jsstring) :
  Forall (fun c => Preprocessor.allowed c = true) (Preprocessor.process cfg text).
Proof. unfold Preprocessor.process. apply cleanup_allowed. Qed.

(** ** The two name-line tests *)

(** X13. The name-line test of the preprocessor is stricter than the one
    of the validator: a first line that the preprocessor keeps in its
    capitals as a player name is a name line for the validator, and so for
    the parser. *)
Theorem preprocessor_name_is_validator_name (line : jsstring) :
  Preprocessor.isNombreJugador line = true -> Validator.isNombreJugador line = true.
Proof.
  unfold Preprocessor.isNombreJugador, Validator.isNombreJugador.
  set (t := trim line).
  destruct (length t =? 0); [discriminate|].
  destruct (length t <? 2); [discriminate|].
  destruct (35 <? length t); [discriminate|]. cbn [orb].
  destruct (test Preprocessor.STARTS_WITH_DIGIT t); [discriminate|].
  destruct (test Preprocessor.KEYWORDS t); [discriminate|].
  intros H. apply Nat.ltb_lt in H. apply Nat.ltb_lt. lia.
Qed.

Lemma preprocessor_name_is_validator_name_witness :
  Preprocessor.isNombreJugador (js "Maria") = true /\
  Validator.isNombreJugador (js "Maria") = true.
Proof.
  split; [vm_compute; reflexivity|].
  apply preprocessor_name_is_validator_name. vm_compute. reflexivity.
Defined.

(** ** Numbers *)

Lemma digit_bounds (c : char) : is_digit c = true -> (48 <= c <= 57)%N.
Proof.
  unfold is_digit, between. intros H. apply andb_prop in H. destruct H as [H1 H2].
  apply N.leb_le in H1. apply N.leb_le in H2. lia.
Qed.

Lemma digits_value_bound (d : jsstring) :
  forallb is_digit d = true ->
  forall acc, (0 <= acc)%Z ->
    (0 <= fold_left (fun a c => a * 10 + Z.of_N (c - 48)) d acc
     < (acc + 1) * 10 ^ Z.of_nat (length d))%Z.
Proof.
  induction d as [|c d IH]; intros Hd acc Hacc.
  - cbn. lia.
  - cbn [forallb] in Hd. apply andb_prop in Hd. destruct Hd as [Hc Hd].
    apply digit_bounds in Hc. cbn [fold_left length].
    assert (Hv : (0 <= Z.of_N (c - 48) <= 9)%Z) by lia.
    specialize (IH Hd (acc * 10 + Z.of_N (c - 48))%Z ltac:(lia)).
    rewrite Nat2Z.inj_succ, Z.pow_succ_r by lia.
    assert (0 < 10 ^ Z.of_nat (length d))%Z by (apply Z.pow_pos_nonneg; lia).
    nia.
Qed.

(** [/^\d{2,4}$/] at the start of the input *)
Lemma NUM_2_4_here (s : jsstring) :
  match_here (cat [InputStart; rep 2 4 digit; InputEnd]) None s =
  if (2 <=? length s) && (length s <=? 4) && forallb is_digit s
  then Some (length s, []) else None.
Proof.
  unfold match_here, rep, digit.
  destruct s as [|c1 [|c2 [|c3 [|c4 [|c5 s]]]]]; cbn;
    repeat match goal with
           | |- context [is_digit ?c] => destruct (is_digit c) eqn:?; cbn
           end; reflexivity.
Qed.

Lemma anchored_after_start (r : regex) (s : jsstring) :
  forall c i, search_from (Seq InputStart r) (Some c) s i = None.
Proof.
  induction s as [|x s IH]; intros c i; cbn [search_from]; unfold match_here; cbn.
  - reflexivity.
  - apply IH.
Qed.

Lemma NUM_2_4_test (s : jsstring) :
  test (cat [InputStart; rep 2 4 digit; InputEnd]) s =
  (2 <=? length s) && (length s <=? 4) && forallb is_digit s.
Proof.
  unfold test, exec. destruct s as [|c s].
  - reflexivity.
  - cbn [search_from]. rewrite NUM_2_4_here.
    destruct ((2 <=? length (c :: s)) && (length (c :: s) <=? 4) && forallb is_digit (c :: s));
      [reflexivity|].
    change (cat [InputStart; rep 2 4 digit; InputEnd])
      with (Seq InputStart (cat [rep 2 4 digit; InputEnd])).
    rewrite anchored_after_start. reflexivity.
Qed.

Lemma validateNumber_digits (num : jsstring) :
  2 <= length num <= 4 -> forallb is_digit num = true ->
  Validator.validateNumber num = true.
Proof.
  intros Hl Hd. unfold Validator.validateNumber. rewrite NUM_2_4_test, Hd.
  destruct (2 <=? length num) eqn:E1; [|apply Nat.leb_gt in E1; lia].
  destruct (length num <=? 4) eqn:E2; [|apply Nat.leb_gt in E2; lia].
  cbn [andb negb].
  pose proof (@digits_value_bound num Hd 0%Z ltac:(lia)) as Hb.
  fold (digits_value num) in Hb.
  destruct (length num) as [|[|[|[|[|n]]]]] eqn:En; try lia; cbn [Nat.eqb];
    apply andb_true_intro; split; try (apply Z.leb_le); cbn in Hb; lia.
Qed.

(** X14. [validateNumber] accepts exactly the strings of two to four
    digits: its range tests on the parsed value reject nothing. *)
Theorem validateNumber_spec (num : jsstring) :
  Validator.validateNumber num
  = (2 <=? length num) && (length num <=? 4) && forallb is_digit num.
Proof.
  destruct ((2 <=? length num) && (length num <=? 4) && forallb is_digit num) eqn:E.
  - apply andb_prop in E. destruct E as [E E3]. apply andb_prop in E. destruct E as [E1 E2].
    apply Nat.leb_le in E1. apply Nat.leb_le in E2.
    apply validateNumber_digits; [lia|exact E3].
  - unfold Validator.validateNumber. rewrite NUM_2_4_test, E. reflexivity.
Qed.

Lemma lead_firstn (s : jsstring) :
  forall n, n <= lead s ->
    forallb is_digit (firstn n s) = true /\ length (firstn n s) = n.
Proof.
  induction s as [|c s IH]; intros n Hn.
  - cbn in Hn. assert (n = 0) by lia. subst n. split; reflexivity.
  - destruct n as [|n]; [split; reflexivity|].
    cbn [lead] in Hn. destruct (is_digit c) eqn:E; [|lia].
    destruct (IH n) as [H1 H2]; [lia|].
    cbn [firstn forallb length]. rewrite E, H1, H2. split; reflexivity.
Qed.

Section ScanTexts.

Variable r : regex.
Variable Q : jsstring -> Prop.

Hypothesis match_ok :
  forall p s len cs, match_here r p s = Some (len, cs) -> Q (firstn len s).

Lemma scan_texts_Forall (s : jsstring) :
  forall skip i p, Forall Q (texts r skip i p s).
Proof.
  unfold texts. induction s as [|c t IH]; intros skip i p.
  - destruct skip; cbn [scan]; [|constructor].
    destruct (match_here r p []) as [[len cs]|] eqn:E; cbn; [|constructor].
    constructor; [|constructor]. exact (match_ok _ _ E).
  - destruct skip as [|n]; cbn [scan]; [|apply IH].
    destruct (match_here r p (c :: t)) as [[len cs]|] eqn:E.
    + cbn [app map m_text]. constructor; [exact (match_ok _ _ E)|].
      destruct (len =? 0); cbn [app]; apply IH.
    + cbn [app]. apply IH.
Qed.

End ScanTexts.

(** A run of one to four digits. *)
Lemma digits_1_4_texts (s : jsstring) :
  Forall (fun m => forallb is_digit m = true /\ 1 <= length m <= 4)
         (map m_text (match_all (rep 1 4 digit) s)).
Proof.
  apply (@scan_texts_Forall (rep 1 4 digit)
           (fun m => forallb is_digit m = true /\ 1 <= length m <= 4)).
  intros p s0 len cs H. rewrite digits_1_4_spec in H.
  destruct (Nat.min 4 (lead s0)) as [|n] eqn:E; [discriminate|].
  injection H as <- _.
  destruct (@lead_firstn s0 (S n)) as [H1 H2]; [lia|]. rewrite H1, H2. lia.
Qed.

Lemma NUMERO_texts (s : jsstring) :
  Forall (fun m => forallb is_digit m = true /\ 1 <= length m <= 4)
         (map m_text (match_all BasePlugin.NUMERO s)).
Proof.
  apply (@scan_texts_Forall BasePlugin.NUMERO
           (fun m => forallb is_digit m = true /\ 1 <= length m <= 4)).
  intros p s0 len cs H. rewrite NUMERO_spec in H.
  destruct (is_word_opt p); [discriminate|]. cbn zeta in H.
  destruct ((1 <=? lead s0) && (lead s0 <=? 4) && negb (is_word_opt (nth_error s0 (lead s0))))
    eqn:E; [|discriminate].
  injection H as <- _.
  apply andb_prop in E. destruct E as [E _]. apply andb_prop in E. destruct E as [E1 E2].
  apply Nat.leb_le in E1. apply Nat.leb_le in E2.
  destruct (@lead_firstn s0 (lead s0)) as [H1 H2]; [lia|]. rewrite H1, H2. lia.
Qed.

Lemma forallb_firstn (A : Type) (f : A -> bool) (n : nat) (l : list A) :
  forallb f l = true -> forallb f (firstn n l) = true.
Proof.
  revert n. induction l as [|x l IH]; intros [|n] H; cbn in *; try reflexivity.
  apply andb_prop in H. destruct H as [H1 H2]. rewrite H1, (IH n H2). reflexivity.
Qed.

Lemma forallb_skipn (A : Type) (f : A -> bool) (n : nat) (l : list A) :
  forallb f l = true -> forallb f (skipn n l) = true.
Proof.
  revert n. induction l as [|x l IH]; intros [|n] H; cbn in *; try reflexivity; [exact H|].
  apply andb_prop in H. destruct H as [H1 H2]. apply IH, H2.
Qed.

Lemma collectNumbers_valid (ms : list jsstring) :
  Forall (fun m => forallb is_digit m = true /\ 1 <= length m <= 4) ms ->
  Forall (fun num => Validator.validateNumber num = true) (BasePlugin.collectNumbers ms).
Proof.
  induction 1 as [|m ms [Hd Hl] _ IH]; cbn [BasePlugin.collectNumbers]; [constructor|].
  destruct (length m =? 2) eqn:E2.
  { apply Nat.eqb_eq in E2. constructor; [|exact IH].
    apply validateNumber_digits; [lia|exact Hd]. }
  destruct (length m =? 3) eqn:E3.
  { apply Nat.eqb_eq in E3. constructor; [|exact IH].
    apply validateNumber_digits; [lia|exact Hd]. }
  destruct (length m =? 4) eqn:E4; [|exact IH].
  apply Nat.eqb_eq in E4. unfold substring.
  constructor; [|constructor; [|exact IH]].
  - apply validateNumber_digits.
    + rewrite length_firstn, length_skipn. lia.
    + apply forallb_firstn, forallb_skipn, Hd.
  - apply validateNumber_digits.
    + rewrite length_firstn, length_skipn. lia.
    + apply forallb_firstn, forallb_skipn, Hd.
Qed.

Lemma forallb_padStart0 (n : nat) (s : jsstring) :
  forallb is_digit s = true -> forallb is_digit (padStart0 n s) = true.
Proof.
  intros H. unfold padStart0.
  induction (n - length s) as [|k IH]; cbn; [exact H|exact IH].
Qed.

(** X15. Every number returned by one of the three number extractors (of
    the preprocessor, of the plugins and of the validator) is accepted by
    [validateNumber]: a string of two to four digits. *)
Theorem extracted_numbers_are_valid (text num : jsstring) :
  In num (Preprocessor.extractNumbers text) \/
  In num (BasePlugin.extractNumbers text) \/
  In num (Validator.extractNumbers text) ->
  Validator.validateNumber num = true.
Proof.
  intros [H|[H|H]].
  - pose proof (collectNumbers_valid (digits_1_4_texts text)) as Hv.
    rewrite Forall_forall in Hv. apply Hv, H.
  - pose proof (collectNumbers_valid (NUMERO_texts text)) as Hv.
    rewrite Forall_forall in Hv. apply Hv, H.
  - unfold Validator.extractNumbers in H. apply in_map_iff in H.
    destruct H as (m & <- & Hm).
    pose proof (digits_1_4_texts text) as Ht. rewrite Forall_forall in Ht.
    destruct (Ht (m_text m) (in_map _ _ _ Hm)) as [Hd Hl].
    apply validateNumber_digits; [|apply forallb_padStart0, Hd].
    unfold padStart0. rewrite length_app, repeat_length.
    unfold jsstring, char in *. lia.
Qed.

Lemma extracted_numbers_are_valid_witness :
  Validator.validateNumber (js "07") = true.
Proof.
  apply (@extracted_numbers_are_valid (js "7 con 1") (js "07")).
  right. right. vm_compute. left. reflexivity.
Defined.

(** ** The parle plugin *)

Lemma createDetalle_ok (t : TipoApuesta) (nums : list jsstring) (unitario : number)
  (text : jsstring) (comb : option number) (ps : option (list (jsstring * jsstring))) :
  t = parle \/ t = fijo ->
  nums <> [] ->
  (t = parle -> 2 <= length nums /\ comb <> None) ->
  parle_detalle_ok text
    (BasePlugin.createDetalle t nums unitario text None
       {| BasePlugin.x_monto := None; BasePlugin.x_combinaciones := comb;
          BasePlugin.x_pares := ps |}).
Proof.
  intros Ht Hn Hp. unfold parle_detalle_ok. cbn. repeat split; trivial; apply Hp; assumption.
Qed.

Lemma nonempty_of_length (A : Type) (n : nat) (l : list A) :
  (S n <=? length l) = true -> l <> [].
Proof. destruct l; cbn; [discriminate|discriminate]. Qed.

(** X16. Every detail the parle plugin returns is a parle or a fijo bet
    over at least one number, charged the unit amount once per number (and
    not once per combination); a parle detail is over two numbers at least
    and carries its number of combinations. The jugada takes player,
    declared total and lines from the context, and its total is the sum of
    the details. An uninitialised plugin throws. *)
Theorem parle_process_details (cfg : option ParserConfig) (li : nat) (text : jsstring)
  (context : PluginContext) :
  match ParlePlugin.process cfg li text context with
  | Ok (j, _) =>
      cfg <> None /\
      jugador j = ctx_jugador context /\
      totalDeclarado j = ctx_totalDeclarado context /\
      lineas j = ctx_lineas context /\
      totalCalculado j = BasePlugin.sum_montos (detalles j) /\
      Forall (parle_detalle_ok text) (detalles j)
  | Throw _ => cfg = None
  end.
Proof.
  unfold ParlePlugin.process. destruct cfg as [c|]; cbn [BasePlugin.ensureInitialized];
    [|reflexivity].
  match goal with
  | |- context [let '(inline, li') := ?e in _] => destruct e as [inline li'] eqn:Ei
  end.
  assert (Hin : Forall (parle_detalle_ok text) inline).
  { destruct (exec ParlePlugin.INLINE text) as [im|]; [|injection Ei as <- _; constructor].
    destruct (test_global PATTERNS.PARLE_EXPLICITO li text) as [found li1].
    destruct (negb found); [|injection Ei as <- _; constructor].
    destruct (2 <=? length _) eqn:E; injection Ei as <- _; [|constructor].
    constructor; [|constructor]. apply createDetalle_ok.
    - left. reflexivity.
    - eapply nonempty_of_length, E.
    - intros _. split; [apply Nat.leb_le, E|discriminate]. }
  clear Ei.
  split; [discriminate|]. cbn [BasePlugin.createJugada jugador totalDeclarado lineas
                                  totalCalculado detalles].
  repeat split. apply Forall_app. split; [|apply Forall_app; split; [exact Hin|]].
  - apply Forall_forall. intros d Hd. apply in_map_iff in Hd. destruct Hd as (m & <- & _).
    unfold ParlePlugin.explicitDetalle. apply createDetalle_ok.
    + left. reflexivity.
    + discriminate.
    + intros _. cbn. split; [lia|discriminate].
  - destruct (exec PATTERNS.PARLE_COMPUESTO text) as [cm|]; [|constructor].
    apply Forall_app. split.
    + destruct (0 <? length _) eqn:E; cbn [andb]; [|constructor].
      destruct (negb (isNaN _)); [|constructor].
      constructor; [|constructor]. apply createDetalle_ok.
      * right. reflexivity.
      * eapply nonempty_of_length, E.
      * discriminate.
    + destruct (2 <=? length _) eqn:E; cbn [andb]; [|constructor].
      destruct (negb (isNaN _)); [|constructor].
      constructor; [|constructor]. apply createDetalle_ok.
      * left. reflexivity.
      * eapply nonempty_of_length, E.
      * intros _. split; [apply Nat.leb_le, E|discriminate].
Qed.

(** ** Duplicated numbers *)

Lemma existsb_eqb_In (x : jsstring) (l : list jsstring) :
  existsb (JS.eqb x) l = true <-> In x l.
Proof.
  rewrite existsb_exists. split.
  - intros (y & Hy & E). apply js_eqb_eq in E. subst y. exact Hy.
  - intros H. exists x. split; [exact H|apply js_eqb_refl].
Qed.

Lemma cons_decompose (A : Type) (a x : A) (r l1 l2 : list A) :
  a :: r = l1 ++ x :: l2 ->
  (l1 = [] /\ a = x /\ r = l2) \/ exists l1', l1 = a :: l1' /\ r = l1' ++ x :: l2.
Proof.
  destruct l1 as [|b l1]; cbn; intros [= -> ->].
  - left. repeat split.
  - right. exists l1. split; reflexivity.
Qed.

Lemma findDuplicates_inv (l : list jsstring) :
  forall seen dups,
    NoDup dups -> (forall x, In x dups -> In x seen) ->
    NoDup (Validator.findDuplicates l seen dups) /\
    forall x, In x (Validator.findDuplicates l seen dups) <->
              In x dups \/ exists l1 l2, l = l1 ++ x :: l2 /\ (In x seen \/ In x l1).
Proof.
  induction l as [|a r IH]; intros seen dups Hnd Hsub; cbn [Validator.findDuplicates].
  - split; [apply NoDup_rev, Hnd|]. intros x. rewrite <- in_rev. split; [left; assumption|].
    intros [H|(l1 & l2 & H & _)]; [exact H|]. destruct l1; discriminate.
  - destruct (existsb (JS.eqb a) seen) eqn:Es.
    + apply existsb_eqb_In in Es.
      destruct (existsb (JS.eqb a) dups) eqn:Ed.
      * apply existsb_eqb_In in Ed.
        destruct (IH seen dups Hnd Hsub) as [H1 H2]. split; [exact H1|].
        intros x. rewrite H2. split.
        -- intros [H|(l1 & l2 & -> & H)]; [left; exact H|].
           right. exists (a :: l1), l2. split; [reflexivity|].
           destruct H as [H|H]; [left; exact H|right; right; exact H].
        -- intros [H|(l1 & l2 & E & H)]; [left; exact H|].
           apply cons_decompose in E.
           destruct E as [(-> & -> & ->)|(l1' & -> & ->)]; [left; exact Ed|].
           destruct H as [H|[<-|H]].
           ++ right. exists l1', l2. split; [reflexivity|left; exact H].
           ++ left. exact Ed.
           ++ right. exists l1', l2. split; [reflexivity|right; exact H].
      * assert (Hna : ~ In a dups).
        { intros H. apply existsb_eqb_In in H. congruence. }
        destruct (IH seen (a :: dups)) as [H1 H2].
        { constructor; assumption. }
        { intros x [<-|H]; [exact Es|apply Hsub, H]. }
        split; [exact H1|]. intros x. rewrite H2. split.
        -- intros [[<-|H]|(l1 & l2 & -> & H)].
           ++ right. exists [], r. split; [reflexivity|left; exact Es].
           ++ left. exact H.
           ++ right. exists (a :: l1), l2. split; [reflexivity|].
              destruct H as [H|H]; [left; exact H|right; right; exact H].
        -- intros [H|(l1 & l2 & E & H)]; [left; right; exact H|].
           apply cons_decompose in E.
           destruct E as [(-> & -> & ->)|(l1' & -> & ->)]; [left; left; reflexivity|].
           destruct H as [H|[<-|H]].
           ++ right. exists l1', l2. split; [reflexivity|left; exact H].
           ++ left. left. reflexivity.
           ++ right. exists l1', l2. split; [reflexivity|right; exact H].
    + assert (Hna : ~ In a seen).
      { intros H. apply existsb_eqb_In in H. congruence. }
      destruct (IH (a :: seen) dups Hnd) as [H1 H2].
      { intros x H. right. apply Hsub, H. }
      split; [exact H1|]. intros x. rewrite H2. split.
      * intros [H|(l1 & l2 & -> & H)]; [left; exact H|].
        right. exists (a :: l1), l2. split; [reflexivity|].
        destruct H as [[<-|H]|H].
        -- right. left. reflexivity.
        -- left. exact H.
        -- right. right. exact H.
      * intros [H|(l1 & l2 & E & H)]; [left; exact H|].
        apply cons_decompose in E.
        destruct E as [(-> & -> & ->)|(l1' & -> & ->)].
        -- destruct H as [H|[]]. contradiction.
        -- right. exists l1', l2. split; [reflexivity|].
           destruct H as [H|[<-|H]].
           ++ left. right. exact H.
           ++ left. left. reflexivity.
           ++ right. exact H.
Qed.

(** X17. [findDuplicates] returns exactly the elements that occur at two
    positions or more, each of them once. *)
Theorem findDuplicates_spec (l : list jsstring) :
  NoDup (Validator.findDuplicates l [] []) /\
  forall x, In x (Validator.findDuplicates l [] []) <-> occurs_twice x l.
Proof.
  destruct (@findDuplicates_inv l [] []) as [H1 H2]; [constructor|intros x []|].
  split; [exact H1|]. intros x. rewrite H2. unfold occurs_twice. split.
  - intros [[]|(l1 & l2 & E & [[]|H])]. exists l1, l2. split; assumption.
  - intros (l1 & l2 & E & H). right. exists l1, l2. split; [exact E|right; exact H].
Qed.

(** ** Texts that hold nothing *)

(** X18. A text of which preprocessing leaves nothing (the empty text, white
    space, characters that [cleanup] deletes) is not reported as an error
    by a parser that is not strict: a parse that is not answered from the
    cache succeeds with no jugada and no error. A strict parser fails, with
    the message of the syntax validation step and not the validator's
    own. *)
Theorem parse_of_blank_text (p : Parser.t) (now : Z) (text : jsstring) :
  Preprocessor.process (Parser.config p) text = [] ->
  fst (Parser.lookup now text p) = None ->
  (0 <= maxJugadores (Parser.config p))%Z ->
  let r := fst (Parser.parse now text p) in
  if strictMode (Parser.config p)
  then Parser.success r = false /\
       Parser.md_errors (Parser.pr_metadata r) = [[txt "Validación de sintaxis fallida"]]
  else Parser.success r = true /\ Parser.jugadas r = [] /\
       Parser.md_errors (Parser.pr_metadata r) = [].
Proof.
  intros Hb Hmiss Hmax. cbn zeta. unfold Parser.parse.
  destruct (Parser.lookup now text p) as [[r0|] c1]; cbn [fst] in Hmiss; [discriminate|].
  unfold Parser.parseFresh. rewrite Hb.
  change (Validator.sv_valid (Validator.validateSyntax (Parser.config p) [])) with false.
  cbn [negb andb].
  destruct (strictMode (Parser.config p)) eqn:Es.
  - cbn. split; reflexivity.
  - change (Parser.extractBloques []) with (@nil jsstring). cbn [length Parser.parseBloques].
    assert (E : (maxJugadores (Parser.config p) <? Z.of_nat 0)%Z = false)
      by (apply Z.ltb_ge; lia).
    rewrite E. cbn. repeat split.
Qed.

Lemma parse_of_blank_text_witness :
  let r := fst (Parser.parse 0%Z (js "  $ ") (Parser.create Parser.DEFAULT_CONFIG (js "{}"))) in
  Parser.success r = true /\ Parser.jugadas r = [] /\
  Parser.md_errors (Parser.pr_metadata r) = [].
Proof.
  apply (@parse_of_blank_text (Parser.create Parser.DEFAULT_CONFIG (js "{}")) 0%Z (js "  $ "));
    [vm_compute; reflexivity|vm_compute; reflexivity|cbn; lia].
Defined.

(** ** Pattern expansions *)

Lemma pad2_small (i : nat) :
  i < 100 -> length (Preprocessor.pad2 i) = 2 /\ forallb is_digit (Preprocessor.pad2 i) = true.
Proof.
  intros Hi.
  assert (H : forallb (fun i => (length (Preprocessor.pad2 i) =? 2)
                                && forallb is_digit (Preprocessor.pad2 i)) (seq 0 100) = true)
    by (vm_compute; reflexivity).
  rewrite forallb_forall in H. specialize (H i). rewrite in_seq in H.
  destruct (andb_prop _ _ (H ltac:(lia))) as [H1 H2].
  apply Nat.eqb_eq in H1. split; assumption.
Qed.

(** X19. [expandRango] does not depend on the order of its bounds, returns
    one number per integer between them, and returns strings of two digits
    when the bounds are below 100. *)
Theorem expandRango_spec (inicio fin : nat) :
  PatternExpander.expandRango inicio fin = PatternExpander.expandRango fin inicio /\
  PatternExpander.expandRango inicio fin
  = map Preprocessor.pad2 (seq (Nat.min inicio fin) (Nat.max inicio fin - Nat.min inicio fin + 1)) /\
  (inicio < 100 -> fin < 100 ->
   Forall (fun x => Validator.validateNumber x = true)
          (PatternExpander.expandRango inicio fin)).
Proof.
  assert (Hform : forall a b, PatternExpander.expandRango a b
            = map Preprocessor.pad2 (seq (Nat.min a b) (Nat.max a b - Nat.min a b + 1))).
  { intros a b. unfold PatternExpander.expandRango.
    destruct (b <? a) eqn:E; [apply Nat.ltb_lt in E|apply Nat.ltb_ge in E].
    - rewrite Nat.min_r, Nat.max_l by lia. f_equal. f_equal. lia.
    - rewrite Nat.min_l, Nat.max_r by lia. f_equal. f_equal. lia. }
  split; [|split].
  - rewrite !Hform. rewrite (Nat.min_comm fin), (Nat.max_comm fin). reflexivity.
  - apply Hform.
  - intros H1 H2. rewrite Hform. apply Forall_forall. intros x Hx.
    apply in_map_iff in Hx. destruct Hx as (i & <- & Hi). apply in_seq in Hi.
    destruct (@pad2_small i) as [Hl Hd]; [lia|].
    apply validateNumber_digits; [lia|exact Hd].
Qed.

Lemma expandRango_spec_witness :
  PatternExpander.expandRango 8 11 = [js "08"; js "09"; js "10"; js "11"] /\
  Forall (fun x => Validator.validateNumber x = true) (PatternExpander.expandRango 11 8).
Proof.
  split; [vm_compute; reflexivity|].
  apply (proj2 (proj2 (expandRango_spec 11 8))); lia.
Defined.

(** X20. The expansions by digit: [expandDecena] returns the ten numbers
    that end with the digit, [expandTerminal] the ten that start with it,
    (each the other with every number reversed), and
    [expandTodasLasCentenasParaNumero] the ten strings made of a digit and
    the padded number. *)
Theorem expansions_by_digit (n : nat) (numero : jsstring) :
  PatternExpander.expandDecena n
  = map (fun d => [digit_char d; digit_char (n mod 10)]) (seq 0 10) /\
  PatternExpander.expandTerminal n
  = map (fun u => [digit_char (n mod 10); digit_char u]) (seq 0 10) /\
  PatternExpander.expandTerminal n = map (@rev char) (PatternExpander.expandDecena n) /\
  PatternExpander.expandTodasLasCentenasParaNumero numero
  = map (fun c => digit_char c :: padStart0 2 numero) (seq 0 10).
Proof.
  unfold PatternExpander.expandDecena, PatternExpander.expandTerminal,
    PatternExpander.expandTodasLasCentenasParaNumero.
  pose proof (Nat.mod_upper_bound n 10 ltac:(lia)) as Hu.
  set (u := n mod 10) in *. clearbody u.
  do 10 (destruct u as [|u]; [repeat split; reflexivity|]). lia.
Qed.

(** X21. [expandParesRelativos] never returns more than 100 strings; each
    is the padded base followed by two digits, but for the hundredth, which
    ends with the three digits of 100. *)
Theorem expandParesRelativos_spec (base : jsstring) (cantidad : nat) :
  let out := PatternExpander.expandParesRelativos base cantidad in
  length out = Nat.min cantidad 100 /\
  (forall x, In x out ->
     (exists t, x = padStart0 2 base ++ t /\ length t = 2 /\ forallb is_digit t = true) \/
     x = padStart0 2 base ++ js "100") /\
  (100 <= cantidad -> In (padStart0 2 base ++ js "100") out).
Proof.
  cbn zeta. unfold PatternExpander.expandParesRelativos. split; [|split].
  - rewrite length_map, length_seq. reflexivity.
  - intros x Hx. apply in_map_iff in Hx. destruct Hx as (i & <- & Hi). apply in_seq in Hi.
    destruct (Nat.eq_dec i 100) as [->|Hn].
    + right. reflexivity.
    + left. exists (Preprocessor.pad2 i). destruct (@pad2_small i) as [Hl Hd]; [lia|].
      repeat split; assumption.
  - intros Hc. apply in_map_iff. exists 100. split; [reflexivity|].
    apply in_seq. lia.
Qed.

Lemma expandParesRelativos_spec_witness :
  In (js "25100") (PatternExpander.expandParesRelativos (js "25") 150).
Proof.
  apply (proj2 (proj2 (expandParesRelativos_spec (js "25") 150))). lia.
Defined.




(** ** Formatting of expanded numbers *)

Lemma join_sp_one_line (l : list jsstring) :
  Forall one_word l -> ~ In LF (join Preprocessor.sp l).
Proof.
  intros H Hin. apply in_join in Hin. destruct Hin as [[E|[]]|(x & Hx & Hc)].
  - discriminate E.
  - rewrite Forall_forall in H. apply (H x Hx), Hc.
Qed.

Lemma split_join_sp (l : list jsstring) :
  l <> [] -> Forall one_word l -> split SP (join Preprocessor.sp l) = l.
Proof.
  intros Hne H. apply split_join; [exact Hne|].
  eapply Forall_impl; [|exact H]. intros x Hx. apply Hx.
Qed.

Lemma in_firstn (A : Type) (x : A) (n : nat) (l : list A) :
  In x (firstn n l) -> In x l.
Proof.
  revert n. induction l as [|y l IH]; intros [|n]; cbn; try tauto.
  intros [H|H]; [left; exact H|right; apply (IH n), H].
Qed.

Lemma in_skipn (A : Type) (x : A) (n : nat) (l : list A) :
  In x (skipn n l) -> In x l.
Proof.
  revert n. induction l as [|y l IH]; intros [|n]; cbn; try tauto.
  intros H. right. apply (IH n), H.
Qed.

Lemma chunks_spec (m : nat) :
  1 <= m ->
  forall fuel numbers,
    length numbers <= fuel -> Forall one_word numbers ->
    exists lines,
      PatternExpander.chunks fuel m numbers = Some lines /\
      flat_map (split SP) lines = numbers /\
      Forall (fun l => ~ In LF l) lines /\
      (numbers <> [] -> lines <> []).
Proof.
  intros Hm. induction fuel as [|f IH]; intros numbers Hlen Hw.
  - destruct numbers; [|cbn in Hlen; lia].
    exists []. cbn. repeat split; [constructor|intros H; exact H].
  - destruct numbers as [|x r].
    { exists []. cbn. repeat split; [constructor|intros H; exact H]. }
    cbn [PatternExpander.chunks].
    destruct (IH (skipn m (x :: r))) as (lines & H1 & H2 & H3 & _).
    { rewrite length_skipn. cbn [length] in *. lia. }
    { apply Forall_forall. intros y Hy. rewrite Forall_forall in Hw.
      apply Hw. eapply in_skipn, Hy. }
    rewrite H1. eexists. split; [reflexivity|].
    assert (Hf : firstn m (x :: r) <> []).
    { destruct m; [lia|]. discriminate. }
    assert (Hwf : Forall one_word (firstn m (x :: r))).
    { apply Forall_forall. intros y Hy. rewrite Forall_forall in Hw.
      apply Hw. eapply in_firstn, Hy. }
    repeat split.
    + cbn [flat_map]. rewrite H2, split_join_sp by assumption. apply firstn_skipn.
    + constructor; [apply join_sp_one_line, Hwf|exact H3].
    + discriminate.
Qed.

(** X23. [formatExpandedNumbers] lays the numbers out in lines without
    losing or reordering any: cutting the result at line feeds and blanks
    gives the numbers back. This needs a positive [maxPerLine]; with
    [maxPerLine = 0] the loop never ends on a non-empty list. *)
Theorem formatExpandedNumbers_round_trip (numbers : list jsstring) (maxPerLine : nat) :
  numbers <> [] ->
  Forall one_word numbers ->
  (1 <= maxPerLine ->
   exists out,
     PatternExpander.formatExpandedNumbers (length numbers) numbers maxPerLine = Some out /\
     flat_map (split SP) (split LF out) = numbers) /\
  (maxPerLine = 0 ->
   forall fuel, PatternExpander.formatExpandedNumbers fuel numbers maxPerLine = None).
Proof.
  intros Hne Hw. split.
  - intros Hm. unfold PatternExpander.formatExpandedNumbers.
    destruct (length numbers <=? maxPerLine).
    + eexists. split; [reflexivity|].
      rewrite split_no_sep by (apply join_sp_one_line, Hw).
      cbn [flat_map]. rewrite app_nil_r. apply split_join_sp; assumption.
    + destruct (@chunks_spec maxPerLine Hm (length numbers) numbers (le_n _) Hw)
        as (lines & H1 & H2 & H3 & H4).
      rewrite H1. eexists. split; [reflexivity|].
      unfold Preprocessor.nl. rewrite split_join; [exact H2|exact (H4 Hne)|exact H3].
  - intros -> fuel. unfold PatternExpander.formatExpandedNumbers.
    destruct numbers as [|x r]; [contradiction|]. cbn [length Nat.leb].
    assert (H : PatternExpander.chunks fuel 0 (x :: r) = None).
    { induction fuel as [|f IH]; cbn; [reflexivity|].
      cbn in IH. rewrite IH. reflexivity. }
    rewrite H. reflexivity.
Qed.

Lemma formatExpandedNumbers_round_trip_witness :
  exists out,
    PatternExpander.formatExpandedNumbers 3 [js "05"; js "50"; js "15"] 2 = Some out /\
    flat_map (split SP) (split LF out) = [js "05"; js "50"; js "15"].
Proof.
  apply (@formatExpandedNumbers_round_trip [js "05"; js "50"; js "15"] 2).
  - discriminate.
  - repeat constructor; vm_compute; intuition discriminate.
  - lia.
Defined.

(** ** The least-used entry *)

Section LeastUsed.

Variable V : Type.

Lemma leastUsed_spec (m : list (CacheManager.CacheEntry V)) :
  forall b e,
    CacheManager.leastUsed m (Some b) = Some e ->
    (e = b /\
     Forall (fun x => (CacheManager.entry_hits b <= CacheManager.entry_hits x)%Z) m) \/
    (exists l1 l2,
       m = l1 ++ e :: l2 /\
       (CacheManager.entry_hits e < CacheManager.entry_hits b)%Z /\
       Forall (fun x => (CacheManager.entry_hits e < CacheManager.entry_hits x)%Z) l1 /\
       Forall (fun x => (CacheManager.entry_hits e <= CacheManager.entry_hits x)%Z) l2).
Proof.
  induction m as [|x r IH]; intros b e; cbn [CacheManager.leastUsed].
  - intros [= <-]. left. split; [reflexivity|constructor].
  - destruct (CacheManager.entry_hits x <? CacheManager.entry_hits b)%Z eqn:E; intros H.
    + apply Z.ltb_lt in E. right.
      destruct (IH _ _ H) as [[-> Hall]|(l1 & l2 & -> & Hlt & H1 & H2)].
      * exists [], r. repeat split; [exact E|constructor|exact Hall].
      * exists (x :: l1), l2. repeat split; [lia| |exact H2].
        constructor; [exact Hlt|exact H1].
    + apply Z.ltb_ge in E.
      destruct (IH _ _ H) as [[-> Hall]|(l1 & l2 & -> & Hlt & H1 & H2)].
      * left. split; [reflexivity|]. constructor; [exact E|exact Hall].
      * right. exists (x :: l1), l2. repeat split; [exact Hlt| |exact H2].
        constructor; [lia|exact H1].
Qed.

Lemma map_delete_middle (e : CacheManager.CacheEntry V)
  (l1 l2 : list (CacheManager.CacheEntry V)) :
  NoDup (map (@CacheManager.key V) (l1 ++ e :: l2)) ->
  CacheManager.map_delete (CacheManager.key e) (l1 ++ e :: l2) = l1 ++ l2.
Proof.
  intros H. unfold CacheManager.map_delete. rewrite filter_app. cbn [filter].
  rewrite js_eqb_refl. cbn [negb].
  rewrite map_app in H. cbn [map] in H.
  pose proof (NoDup_remove_2 _ _ _ H) as Hn. rewrite in_app_iff in Hn.
  assert (Hkeep : forall l, ~ In (CacheManager.key e) (map (@CacheManager.key V) l) ->
                  filter (fun x => negb (JS.eqb (CacheManager.key x) (CacheManager.key e))) l
                  = l).
  { intros l Hl. fold (CacheManager.map_delete (CacheManager.key e) l).
    apply map_delete_absent, Hl. }
  rewrite !Hkeep; [reflexivity| |]; intros Hin; apply Hn; [right|left]; exact Hin.
Qed.

End LeastUsed.

(** X24. On a consistent cache that is not empty, [evictLeastUsed] removes
    one entry and counts one eviction: the entry has the least number of
    hits, it is the first one with that number in insertion order, and the
    other entries stay as they are. *)
Theorem evictLeastUsed_spec (V : Type) (c : CacheManager.t V) :
  cache_consistent c ->
  CacheManager.cache c <> [] ->
  exists e l1 l2,
    CacheManager.cache c = l1 ++ e :: l2 /\
    CacheManager.cache (CacheManager.evictLeastUsed c) = l1 ++ l2 /\
    Forall (fun x => (CacheManager.entry_hits e < CacheManager.entry_hits x)%Z) l1 /\
    Forall (fun x => (CacheManager.entry_hits e <= CacheManager.entry_hits x)%Z) l2 /\
    CacheManager.evictions (CacheManager.stats (CacheManager.evictLeastUsed c))
    = (CacheManager.evictions (CacheManager.stats c) + 1)%Z.
Proof.
  intros [H1 H2 _ _] Hne. unfold cache_keys in *.
  destruct (CacheManager.cache c) as [|x m] eqn:Em; [contradiction|].
  assert (Hsel : exists e l1 l2,
             CacheManager.leastUsed (x :: m) None = Some e /\
             x :: m = l1 ++ e :: l2 /\
             Forall (fun y => (CacheManager.entry_hits e < CacheManager.entry_hits y)%Z) l1 /\
             Forall (fun y => (CacheManager.entry_hits e <= CacheManager.entry_hits y)%Z) l2).
  { cbn [CacheManager.leastUsed].
    destruct (CacheManager.leastUsed m (Some x)) as [e|] eqn:E;
      [|exfalso; exact (leastUsed_some _ _ E)].
    destruct (@leastUsed_spec V m x e E) as [[-> Hall]|(l1 & l2 & -> & Hlt & Hl1 & Hl2)].
    - exists x, [], m. repeat split; [constructor|exact Hall].
    - exists e, (x :: l1), l2. repeat split; [|exact Hl2].
      constructor; [exact Hlt|exact Hl1]. }
  destruct Hsel as (e & l1 & l2 & Hsel & Hdec & Hl1 & Hl2).
  exists e, l1, l2. split; [exact Hdec|].
  unfold CacheManager.evictLeastUsed. rewrite Em, Hsel.
  assert (Hk : CacheManager.key e <> []).
  { rewrite Forall_forall in H2. apply H2. rewrite Hdec.
    apply in_map, in_elt. }
  destruct (CacheManager.key e) as [|a k] eqn:Ek; [contradiction|].
  cbn [CacheManager.cache CacheManager.stats CacheManager.evictions].
  rewrite Hdec, <- Ek. rewrite map_delete_middle by (rewrite <- Hdec; exact H1).
  repeat split; assumption.
Qed.

Lemma evictLeastUsed_spec_witness :
  let c := CacheManager.set 2%Z (js "b") 2 None
             (snd (CacheManager.get 1%Z (js "a")
                     (CacheManager.set 0%Z (js "a") 1 None
                        (CacheManager.create nat
                           {| enabled := true; ttl := 10; maxSize := 4 |})))) in
  exists e l1 l2,
    CacheManager.cache c = l1 ++ e :: l2 /\
    CacheManager.cache (CacheManager.evictLeastUsed c) = l1 ++ l2 /\
    Forall (fun x => (CacheManager.entry_hits e < CacheManager.entry_hits x)%Z) l1 /\
    Forall (fun x => (CacheManager.entry_hits e <= CacheManager.entry_hits x)%Z) l2 /\
    CacheManager.evictions (CacheManager.stats (CacheManager.evictLeastUsed c))
    = (CacheManager.evictions (CacheManager.stats c) + 1)%Z.
Proof.
  cbn zeta. apply evictLeastUsed_spec.
  - apply set_consistent; [discriminate|]. apply get_consistent.
    apply set_consistent; [discriminate|]. apply create_consistent.
  - vm_compute. discriminate.
Defined.

(** ** The hash of a text *)

Lemma toInt32_range (z : Z) : (- 2 ^ 31 <= Parser.toInt32 z < 2 ^ 31)%Z.
Proof.
  unfold Parser.toInt32.
  pose proof (Z.mod_pos_bound (z + 2 ^ 31) (2 ^ 32) ltac:(lia)). lia.
Qed.

Lemma toInt32_small (z : Z) : (- 2 ^ 31 <= z < 2 ^ 31)%Z -> Parser.toInt32 z = z.
Proof.
  intros H. unfold Parser.toInt32. rewrite Z.mod_small; lia.
Qed.

(** X25. [hashString] is a signed integer of 32 bits, whatever the length
    of the text, and for a text of one code unit it is that code unit. *)
Theorem hashString_is_int32 (str : jsstring) :
  (- 2 ^ 31 <= Parser.hashString str < 2 ^ 31)%Z /\
  forall c, (c < 65536)%N -> Parser.hashString [c] = Z.of_N c.
Proof.
  split.
  - unfold Parser.hashString.
    assert (H : forall acc, (- 2 ^ 31 <= acc < 2 ^ 31)%Z ->
              (- 2 ^ 31 <= fold_left (fun hash c =>
                   Parser.toInt32 (Parser.toInt32 (hash * 32) - hash + Z.of_N c)) str acc
               < 2 ^ 31)%Z).
    { induction str as [|c s IH]; intros acc Hacc; cbn [fold_left]; [exact Hacc|].
      apply IH, toInt32_range. }
    apply H. lia.
  - intros c Hc. unfold Parser.hashString. cbn [fold_left].
    change (Parser.toInt32 (0 * 32)) with 0%Z. apply toInt32_small. lia.
Qed.

(** ** Expansions read back *)

(** X26. The ten numbers of a decena or of a terminal, written with blanks
    between them as the preprocessor writes them into the text, are read
    back as the same ten numbers by the number extractors of the
    preprocessor and of the plugins. *)
Theorem digit_expansions_are_read_back (n : nat) :
  let decena := PatternExpander.expandDecena n in
  let terminal := PatternExpander.expandTerminal n in
  Preprocessor.extractNumbers (join Preprocessor.sp decena) = decena /\
  BasePlugin.extractNumbers (join Preprocessor.sp decena) = decena /\
  Preprocessor.extractNumbers (join Preprocessor.sp terminal) = terminal /\
  BasePlugin.extractNumbers (join Preprocessor.sp terminal) = terminal.
Proof.
  cbn zeta. unfold PatternExpander.expandDecena, PatternExpander.expandTerminal.
  pose proof (Nat.mod_upper_bound n 10 ltac:(lia)) as Hu.
  set (u := n mod 10) in *. clearbody u.
  do 10 (destruct u as [|u]; [repeat split; vm_compute; reflexivity|]). lia.
Qed.

(** ** The validator and the declared total *)

Lemma one_or_more_iff (x : number) :
  Number.gt x BasePlugin.centavo = true /\ Number.lt x (of_Z 1) = false <-> one_or_more x.
Proof.
  destruct x as [|q]; cbn [one_or_more Number.gt Number.lt BasePlugin.centavo of_Z].
  - split; [intros [H _]; discriminate|intros []].
  - split.
    + intros [_ H]. destruct (Number.Qltb q (inject_Z 1)) eqn:E; [discriminate|].
      apply Qnot_lt_le. intros Hlt. apply Qltb_lt in Hlt. unfold inject_Z in *. congruence.
    + intros H. split.
      * apply Qltb_lt. eapply Qlt_le_trans; [|exact H]. reflexivity.
      * destruct (Number.Qltb q (inject_Z 1)) eqn:E; [|reflexivity].
        apply Qltb_lt in E. exfalso. apply (Qlt_not_le _ _ E). exact H.
Qed.

Lemma detalle_errors_none (cfg : ParserConfig) (ds : list DetalleApuesta) :
  Forall (fun d => Validator.valid (Validator.validateDetalle cfg d) = true) ds ->
  flat_map (fun d => if negb (Validator.valid (Validator.validateDetalle cfg d))
                     then map (Validator.detalle_prefix d)
                              (Validator.v_errors (Validator.validateDetalle cfg d))
                     else []) ds = [].
Proof.
  intros H. set (f := fun d : DetalleApuesta => _).
  induction H as [|d ds Hd _ IH]; cbn [flat_map]; [reflexivity|].
  rewrite IH. subst f. cbv beta. rewrite Hd. reflexivity.
Qed.

(** X27. For a jugada whose details are all valid and whose total is not
    a forbidden negative one, [validateJugada] answers invalid exactly when
    a total is declared, [validateTotals] is set and the calculated and
    declared totals differ by 1 or more: a smaller difference is a warning
    at most. *)
Theorem validateJugada_rejects_on_totals (cfg : ParserConfig) (j : Jugada) :
  Forall (fun d => Validator.valid (Validator.validateDetalle cfg d) = true) (detalles j) ->
  Number.lt (totalCalculado j) (of_Z 0) && negb (allowNegative cfg) = false ->
  (Validator.valid (Validator.validateJugada cfg j) = false <->
   exists td, totalDeclarado j = Some td /\ validateTotals cfg = true /\
              one_or_more (Number.abs (Number.sub (totalCalculado j) td))).
Proof.
  intros Hd Hn. unfold Validator.validateJugada.
  rewrite Hn, (@detalle_errors_none cfg (detalles j) Hd).
  destruct (totalDeclarado j) as [td|].
  - pose proof (one_or_more_iff (Number.abs (Number.sub (totalCalculado j) td))) as Hiff.
    destruct (Number.gt (Number.abs (Number.sub (totalCalculado j) td)) BasePlugin.centavo)
      eqn:Eg.
    + destruct (validateTotals cfg) eqn:Ev.
      * destruct (Number.lt (Number.abs (Number.sub (totalCalculado j) td)) (of_Z 1)) eqn:El;
          cbn.
        -- split; [discriminate|]. intros (td' & [= <-] & _ & H).
           apply Hiff in H. destruct H; discriminate.
        -- split; [|reflexivity]. intros _. exists td. repeat split.
           apply Hiff. split; reflexivity.
      * cbn. split; [discriminate|]. intros (td' & _ & H & _). discriminate.
    + cbn. split; [discriminate|]. intros (td' & [= <-] & _ & H).
      apply Hiff in H. destruct H; discriminate.
  - cbn. split; [discriminate|]. intros (td' & H & _). discriminate.
Qed.

Lemma validateJugada_rejects_on_totals_witness :
  let j := BasePlugin.createJugada (js "Ana") [] (Some (of_Z 45)) []
             {| BasePlugin.x_warnings := None; BasePlugin.x_errors := None |} in
  Validator.valid (Validator.validateJugada Parser.DEFAULT_CONFIG j) = false <->
  exists td, totalDeclarado j = Some td /\ validateTotals Parser.DEFAULT_CONFIG = true /\
             one_or_more (Number.abs (Number.sub (totalCalculado j) td)).
Proof.
  cbn zeta. apply validateJugada_rejects_on_totals.
  - constructor.
  - reflexivity.
Defined.
